(** * Statistics reconciliation and caching layer of the sports backend

    A shallow embedding of the cache layer ([backend/cache.py]), of the
    upstream request client, team catalogue and resolvers
    ([backend/services/highlightly.py]) and of the statistics merge,
    head-to-head guard and team abbreviations
    ([backend/services/agent.py]).

    Conventions.
    - Instants are [Z], counted in microseconds (the resolution of Python's
      [datetime]); a [timedelta] of [n] seconds is [n * 1000000].
    - A Python [dict] that is only read and written by key is a [gmap];
      a JSON object that is iterated keeps its insertion order as an
      association list.
    - A function that can leave through an uncaught exception returns an
      [option]; [None] is the exception.
    - A Python list that is kept and later changed in place is an object:
      it is referred to by a location, and a store gives what each
      location holds at present.
    - Strings are ASCII text; what depends on the case of letters or on
      white space is stated for ASCII strings. *)

From Stdlib Require Import ZArith Lia Ascii String.
From stdpp Require Import gmap strings list pretty.

Local Open Scope Z_scope.
Set Warnings "-register-all".

(** Microseconds per second and per minute. *)
Definition us_per_second : Z := 1000000.
Definition us_per_minute : Z := 60 * us_per_second.

(** ** [backend/cache.py]: class [SimpleCache] *)

Module SimpleCache.

Section Cache.
(** The cached values are arbitrary Python objects. *)
Context {V : Type}.

(** The two dictionaries of the instance. *)
Record t := mk {
  _cache : gmap string V;
  _expiry : gmap string Z
}.

(** [__init__] *)
Definition init : t := {| _cache := ∅; _expiry := ∅ |}.

(** [get(key)] at the instant [now] ([datetime.utcnow()]).  The result is
    the value returned (absent for Python's [None]) and the instance after
    the call: an expired entry is deleted from both dictionaries. *)
Definition get (c : t) (key : string) (now : Z) : option V * t :=
  match _cache c !! key with
  | None => (None, c)
  | Some v =>
      match _expiry c !! key with
      | Some e =>
          if bool_decide (e < now)
          then (None, {| _cache := delete key (_cache c);
                         _expiry := delete key (_expiry c) |})
          else (Some v, c)
      | None => (Some v, c)
      end
  end.

(** [set(key, value, ttl_seconds)] at the instant [now]. *)
Definition set (c : t) (key : string) (value : V) (ttl_seconds : Z) (now : Z) : t :=
  {| _cache := <[key := value]> (_cache c);
     _expiry := <[key := now + ttl_seconds * us_per_second]> (_expiry c) |}.

(** [delete(key)] *)
Definition delete (c : t) (key : string) : t :=
  {| _cache := base.delete key (_cache c);
     _expiry := base.delete key (_expiry c) |}.

(** [clear()] *)
Definition clear (c : t) : t := {| _cache := ∅; _expiry := ∅ |}.

(** The keys [cleanup_expired] collects at the instant [now]: those whose
    expiry lies before it. *)
Definition expired_keys (c : t) (now : Z) : list string :=
  (map_to_list (filter (λ kv : string * Z, kv.2 < now) (_expiry c))).*1.

(** [cleanup_expired()] at the instant [now]: [delete] on each collected
    key, one after the other. *)
Definition cleanup_expired (c : t) (now : Z) : t :=
  foldl delete c (expired_keys c now).
End Cache.

Arguments t : clear implicits.

End SimpleCache.

(** ** Python values and the builtins the code relies on *)

Module Py.

(** *** Strings

    A [string] of the model is ASCII text: its characters are the code
    points below 128 ([is_ascii]).  On such strings [lower], [upper],
    [strip] and [isdigit] are Python's [str.lower], [str.upper],
    [str.strip] and [str.isdigit]; beyond ASCII Python changes case and
    recognises blanks and digits by the Unicode tables, which the model
    does not follow, and the properties of case and white space below are
    stated for ASCII strings. *)

(** [c < 128] for every character [c] of [s] *)
Fixpoint is_ascii (s : string) : bool :=
  match s with
  | EmptyString => true
  | String c r => (nat_of_ascii c <? 128)%nat && is_ascii r
  end.

(** [c.isspace()] on an ASCII character: tab, line feed, vertical tab,
    form feed, carriage return, the four separators U+001C to U+001F, and
    the space. *)
Definition is_space (c : ascii) : bool :=
  let n := nat_of_ascii c in
  ((9 <=? n) && (n <=? 13) || (28 <=? n) && (n <=? 32))%nat.

Definition lower_char (c : ascii) : ascii :=
  let n := nat_of_ascii c in
  if ((65 <=? n) && (n <=? 90))%nat then ascii_of_nat (n + 32) else c.

Definition upper_char (c : ascii) : ascii :=
  let n := nat_of_ascii c in
  if ((97 <=? n) && (n <=? 122))%nat then ascii_of_nat (n - 32) else c.

Fixpoint map_chars (f : ascii → ascii) (s : string) : string :=
  match s with
  | EmptyString => EmptyString
  | String c r => String (f c) (map_chars f r)
  end.

(** [s.lower()] and [s.upper()] *)
Definition lower : string → string := map_chars lower_char.
Definition upper : string → string := map_chars upper_char.

Fixpoint lstrip (s : string) : string :=
  match s with
  | String c r => if is_space c then lstrip r else s
  | EmptyString => EmptyString
  end.

(** [s.strip()] *)
Definition strip (s : string) : string :=
  String.rev (lstrip (String.rev (lstrip s))).

(** [s.strip() == ""]: [s] is white space only *)
Fixpoint whitespace (s : string) : bool :=
  match s with
  | EmptyString => true
  | String c r => is_space c && whitespace r
  end.

(** [sub in s] on strings *)
Fixpoint contains (sub s : string) : bool :=
  String.prefix sub s ||
  match s with
  | EmptyString => false
  | String _ r => contains sub r
  end.

(** [s.endswith(suf)] *)
Definition endswith (suf s : string) : bool :=
  String.prefix (String.rev suf) (String.rev s).

(** [s.replace(c, "")] for a one-character [c] *)
Fixpoint remove_char (c : ascii) (s : string) : string :=
  match s with
  | EmptyString => EmptyString
  | String d r => if bool_decide (d = c) then remove_char c r else String d (remove_char c r)
  end.

(** [s.replace(c, "", 1)] for a one-character [c] *)
Fixpoint remove_first_char (c : ascii) (s : string) : string :=
  match s with
  | EmptyString => EmptyString
  | String d r => if bool_decide (d = c) then r else String d (remove_first_char c r)
  end.

Fixpoint all_digits (s : string) : bool :=
  match s with
  | EmptyString => true
  | String c r => bool_decide (is_Some (Ascii.is_nat c)) && all_digits r
  end.

(** [s.isdigit()] *)
Definition isdigit (s : string) : bool :=
  negb (bool_decide (s = EmptyString)) && all_digits s.

(** [sep.join(parts)] *)
Fixpoint join (sep : string) (parts : list string) : string :=
  match parts with
  | [] => EmptyString
  | [p] => p
  | p :: ps => p +:+ sep +:+ join sep ps
  end.

(** *** Numbers

    Python's floats and its numeric conversions are library code: they are
    taken as an interface, and every statement below holds for whatever
    implements it.  [None] stands for the exception the builtin raises. *)
Class Builtins := {
  float : Type;
  (** [float(i)] for an [int]; raises [OverflowError] *)
  float_of_int : Z → option float;
  (** [float(s)] for a [str]; raises [ValueError] *)
  float_of_str : string → option float;
  (** [int(x)] for a [float]; raises on nan and infinities *)
  int_of_float : float → option Z;
  (** [int(s)] for a [str]; raises [ValueError] *)
  int_of_str : string → option Z;
  (** [x == i] and [x > i] for a [float] and an [int] *)
  float_eq_int : float → Z → bool;
  float_gt_int : float → Z → bool;
  (** [x + i] for a [float] and an [int]; raises [OverflowError] *)
  float_add_int : float → Z → option float;
  (** [str(x)] for a [float] *)
  float_str : float → string;
  (** a [float] greater than an [int] is not equal to it *)
  float_gt_ne : ∀ x i, float_gt_int x i = true → float_eq_int x i = false
}.

Section Values.
Context `{B : Builtins}.

(** The values a decoded JSON document holds. *)
Inductive pyval : Type :=
| PNone
| PBool (b : bool)
| PInt (z : Z)
| PFloat (x : float)
| PStr (s : string)
| PList (l : list pyval)
| PDict (d : list (string * pyval)).

(** [bool(v)] *)
Definition truthy (v : pyval) : bool :=
  match v with
  | PNone => false
  | PBool b => b
  | PInt z => negb (z =? 0)
  | PFloat x => negb (float_eq_int x 0)
  | PStr s => negb (bool_decide (s = EmptyString))
  | PList l => match l with [] => false | _ => true end
  | PDict d => match d with [] => false | _ => true end
  end.

(** [a or b] *)
Definition py_or (a b : pyval) : pyval := if truthy a then a else b.

(** [d[k]] on the items of a dict; [None] when [k not in d] *)
Fixpoint items_get (d : list (string * pyval)) (k : string) : option pyval :=
  match d with
  | [] => None
  | (k', v) :: r => if bool_decide (k' = k) then Some v else items_get r k
  end.

(** [d.get(k)] on the items of a dict *)
Definition dict_get (d : list (string * pyval)) (k : string) : pyval :=
  default PNone (items_get d k).

(** [v.get(k)]: raises [AttributeError] unless [v] is a dict *)
Definition py_get (v : pyval) (k : string) : option pyval :=
  match v with
  | PDict d => Some (dict_get d k)
  | _ => None
  end.

(** [int(v)] *)
Definition py_int (v : pyval) : option Z :=
  match v with
  | PBool b => Some (if b then 1 else 0)
  | PInt z => Some z
  | PFloat x => int_of_float x
  | PStr s => int_of_str s
  | PNone | PList _ | PDict _ => None
  end.

(** [float(v)] *)
Definition py_float (v : pyval) : option float :=
  match v with
  | PBool b => float_of_int (if b then 1 else 0)
  | PInt z => float_of_int z
  | PFloat x => Some x
  | PStr s => float_of_str s
  | PNone | PList _ | PDict _ => None
  end.

(** [v == 0] *)
Definition eq_zero (v : pyval) : bool :=
  match v with
  | PBool b => negb b
  | PInt z => z =? 0
  | PFloat x => float_eq_int x 0
  | _ => false
  end.

(** [v > 0]: raises [TypeError] unless [v] is a number *)
Definition gt_zero (v : pyval) : option bool :=
  match v with
  | PBool b => Some b
  | PInt z => Some (0 <? z)
  | PFloat x => Some (float_gt_int x 0)
  | _ => None
  end.

(** [v + n] for an [int] [n]: raises [TypeError] unless [v] is a number *)
Definition add_int (v : pyval) (n : Z) : option pyval :=
  match v with
  | PBool b => Some (PInt ((if b then 1 else 0) + n))
  | PInt z => Some (PInt (z + n))
  | PFloat x => PFloat <$> float_add_int x n
  | _ => None
  end.

(** [str(v)] for a scalar.  The [repr] of a list or a dict is not
    modelled: the code only ever hands it to [float], which rejects it. *)
Definition py_str (v : pyval) : option string :=
  match v with
  | PNone => Some "None"%string
  | PBool b => Some (if b then "True" else "False")%string
  | PInt z => Some (pretty z)
  | PFloat x => Some (float_str x)
  | PStr s => Some s
  | PList _ | PDict _ => None
  end.
(** [len(v)]: raises [TypeError] unless [v] is sized *)
Definition py_len (v : pyval) : option nat :=
  match v with
  | PStr s => Some (String.length s)
  | PList l => Some (length l)
  | PDict d => Some (length d)
  | _ => None
  end.

(** The elements [for x in v] visits: the keys of a dict, the characters
    of a string; raises [TypeError] on the other values. *)
Definition py_iter (v : pyval) : option (list pyval) :=
  match v with
  | PStr s => Some ((λ c, PStr (String c EmptyString)) <$> list_ascii_of_string s)
  | PList l => Some l
  | PDict d => Some ((λ kv, PStr kv.1) <$> d)
  | _ => None
  end.

(** [isinstance(v, int)]; a [bool] is an [int]. *)
Definition is_int (v : pyval) : bool :=
  match v with PInt _ | PBool _ => true | _ => false end.
End Values.

End Py.

(** ** [backend/services/highlightly.py]: class [HighlightlyClient] *)

Module Highlightly.
Import Py.

Section Client.
Context `{B : Builtins}.

(** The query parameters of a request, in insertion order. *)
Definition Params : Type := list (string * pyval).

(** What [self.client.get(endpoint, params=...)] and the decoding of its
    body can come to. *)
Inductive Body : Type :=
| Json (data : pyval)          (* [resp.json()] returns *)
| NotJson                      (* [json.JSONDecodeError] *)
| BodyRaised (msg : string).   (* any other exception *)

Inductive Outcome : Type :=
| Responded (status : Z) (body : Body)
| RequestError                 (* [httpx.RequestError], [httpx.TimeoutException] *)
| Raised (msg : string).       (* any other exception *)

(** The upstream service: the outcome of the [n]-th request the process
    sends (counted from 0), given its endpoint and parameters. *)
Definition Upstream : Type := nat → string → Params → Outcome.

(** [hashlib.md5] over the endpoint and [json.dumps] of the parameters is
    library code, taken as a parameter. *)
Variable _generate_cache_key : string → Params → string.

Variable upstream : Upstream.

(** A file of the cache directory.  [Payload] holds what
    [payload.get("expires_at")] parses to ([None] when the field is
    missing or falsy) and the ["data"] field when present; [Unreadable]
    is a file that [json.load] or [datetime.fromisoformat] rejects. *)
Inductive FileContent : Type :=
| Payload (expires_at : option Z) (data : option pyval)
| Unreadable.

(** What the client acts on besides its own fields: the clock, the cache
    directory (with whether it accepts writes and removals), and a trace
    of the requests sent and of the seconds slept. *)
Record World := mkWorld {
  now : Z;
  files : gmap string FileContent;
  fs_writable : bool;
  sent : list (string * Params);
  slept : list Z
}.

(** The fields of the client the modelled methods touch. *)
Record t := mk {
  _cache : gmap string pyval;
  _cache_expiry : gmap string Z;
  _team_id_cache : gmap string pyval;
  _teams_cache : pyval
}.

(** [__init__] *)
Definition init : t :=
  {| _cache := ∅; _cache_expiry := ∅; _team_id_cache := ∅; _teams_cache := PList [] |}.

Definition set_cache (c : t) (m : gmap string pyval) (e : gmap string Z) : t :=
  {| _cache := m; _cache_expiry := e;
     _team_id_cache := _team_id_cache c; _teams_cache := _teams_cache c |}.

Definition set_team_id_cache (c : t) (m : gmap string pyval) : t :=
  {| _cache := _cache c; _cache_expiry := _cache_expiry c;
     _team_id_cache := m; _teams_cache := _teams_cache c |}.

Definition set_teams_cache (c : t) (v : pyval) : t :=
  {| _cache := _cache c; _cache_expiry := _cache_expiry c;
     _team_id_cache := _team_id_cache c; _teams_cache := v |}.

Definition set_files (w : World) (f : gmap string FileContent) : World :=
  {| now := now w; files := f; fs_writable := fs_writable w;
     sent := sent w; slept := slept w |}.

(** [await asyncio.sleep(seconds)] *)
Definition sleep (w : World) (seconds : Z) : World :=
  {| now := now w + seconds * us_per_second; files := files w;
     fs_writable := fs_writable w; sent := sent w;
     slept := slept w ++ [seconds] |}.

(** [await self.client.get(endpoint, params=...)]: the request joins the
    trace and the upstream answers it. *)
Definition client_get (w : World) (endpoint : string) (ps : Params) : Outcome * World :=
  (upstream (length (sent w)) endpoint ps,
   {| now := now w; files := files w; fs_writable := fs_writable w;
      sent := sent w ++ [(endpoint, ps)]; slept := slept w |}).

(** The file of a cache key in the cache directory. *)
Definition cache_file (cache_key : string) : string := cache_key +:+ ".json".

(** [_is_cache_valid] *)
Definition _is_cache_valid (c : t) (w : World) (cache_key : string) : bool :=
  match _cache_expiry c !! cache_key with
  | None => false
  | Some e => bool_decide (now w < e)
  end.

(** [_cache_data]: both tiers are written; a failing file write is
    swallowed. *)
Definition _cache_data (c : t) (w : World) (cache_key : string) (data : pyval)
    (ttl_minutes : Z) : t * World :=
  (set_cache c (<[cache_key := data]> (_cache c))
               (<[cache_key := now w + ttl_minutes * us_per_minute]> (_cache_expiry c)),
   if fs_writable w
   then set_files w (<[cache_file cache_key :=
                        Payload (Some (now w + ttl_minutes * us_per_minute)) (Some data)]>
                      (files w))
   else w).

(** [_get_cached_data]; Python's [None] is [PNone]. *)
Definition _get_cached_data (c : t) (w : World) (cache_key : string)
    : pyval * t * World :=
  if _is_cache_valid c w cache_key
  then (default PNone (_cache c !! cache_key), c, w)
  else
    let c' := set_cache c (delete cache_key (_cache c))
                          (delete cache_key (_cache_expiry c)) in
    match files w !! cache_file cache_key with
    | Some (Payload (Some e) data) =>
        if bool_decide (now w < e)
        then (default PNone data, c', w)
        else (PNone, c',
              if fs_writable w
              then set_files w (delete (cache_file cache_key) (files w)) else w)
    | Some (Payload None _) =>
        (PNone, c',
         if fs_writable w
         then set_files w (delete (cache_file cache_key) (files w)) else w)
    | Some Unreadable | None => (PNone, c', w)
    end.

(** The error dictionaries [_make_request] returns. *)
Definition error_dict (error : string) (status : Z) (endpoint : string) : pyval :=
  PDict [("error", PStr error); ("status", PInt status);
         ("endpoint", PStr endpoint); ("data", PList [])]%string.

Definition max_attempts : nat := 4.

(** The [for attempt in range(max_attempts)] loop of [_make_request],
    over the attempts still to make. *)
Fixpoint attempts (cache_key endpoint : string) (clean_params : Params)
    (cache_ttl : Z) (range : list nat) (c : t) (w : World) : pyval * t * World :=
  match range with
  | [] => (error_dict "Request failed after retries" 503 endpoint, c, w)
  | attempt :: range' =>
      let '(resp, w1) := client_get w endpoint clean_params in
      match resp with
      | Responded status body =>
          if (200 <=? status) && (status <? 300) then
            match body with
            | Json data =>
                let '(c', w') := _cache_data c w1 cache_key data cache_ttl in
                (data, c', w')
            | NotJson => (error_dict "Invalid JSON response" 500 endpoint, c, w1)
            | BodyRaised msg =>
                (error_dict ("Unexpected error: " +:+ msg) 500 endpoint, c, w1)
            end
          else if status =? 429 then
            attempts cache_key endpoint clean_params cache_ttl range' c
                     (sleep w1 (2 ^ Z.of_nat attempt))
          else if (400 <=? status) && (status <? 500) then
            (error_dict ("Client error " +:+ pretty status) status endpoint, c, w1)
          else
            attempts cache_key endpoint clean_params cache_ttl range' c
                     (sleep w1 (2 ^ Z.of_nat attempt))
      | RequestError =>
          attempts cache_key endpoint clean_params cache_ttl range' c
                   (sleep w1 (2 ^ Z.of_nat attempt))
      | Raised msg =>
          (error_dict ("Unexpected error: " +:+ msg) 500 endpoint, c, w1)
      end
  end.

(** [clean_params.pop('sport', None)] *)
Definition pop_sport (ps : Params) : Params :=
  filter (λ kv, kv.1 ≠ "sport"%string) ps.

(** [_make_request(endpoint, params, cache_ttl)] *)
Definition _make_request (c : t) (w : World) (endpoint : string) (params : Params)
    (cache_ttl : Z) : pyval * t * World :=
  let clean_params := pop_sport params in
  let cache_key := _generate_cache_key endpoint clean_params in
  let '(cached, c1, w1) := _get_cached_data c w cache_key in
  if truthy cached then (cached, c1, w1)
  else attempts cache_key endpoint clean_params cache_ttl (seq 0 max_attempts) c1 w1.
(** [self.ENDPOINTS["teams"]] *)
Definition teams_endpoint : string := "/teams".

(** The file of the team catalogue in the cache directory. *)
Definition teams_file : string := "teams_all.json".

(** The [while page < max_pages] loop of [get_all_teams], over the pages
    still allowed.  [None] is the [TypeError] of [all_teams.extend(data)]
    on a value that cannot be iterated. *)
Fixpoint pages (limit : Z) (remaining : nat) (offset : Z) (all_teams : list pyval)
    (c : t) (w : World) : option (list pyval) * t * World :=
  match remaining with
  | O => (Some all_teams, c, w)
  | S remaining' =>
      let '(resp, c1, w1) :=
        _make_request c w teams_endpoint
          [("limit", PInt limit); ("offset", PInt offset)]%string 120 in
      let data :=
        match resp with
        | PDict d => default (PList []) (items_get d "data")
        | _ => PList []
        end in
      if negb (truthy data) then (Some all_teams, c1, w1)
      else
        match py_iter data, py_len data with
        | Some l, Some n =>
            if Z.of_nat n <? limit then (Some (all_teams ++ l), c1, w1)
            else pages limit remaining' (offset + limit) (all_teams ++ l) c1 w1
        | _, _ => (None, c1, w1)
        end
  end.

(** [get_all_teams(limit, max_pages)]; [None] in the first component is an
    exception leaving the method. *)
Definition get_all_teams (c : t) (w : World) (limit : Z) (max_pages : nat)
    : option pyval * t * World :=
  if truthy (_teams_cache c) then (Some (_teams_cache c), c, w)
  else
    let on_disk :=
      match files w !! teams_file with
      | Some (Payload (Some e) data) =>
          if bool_decide (now w < e) then Some (default (PList []) data) else None
      | _ => None
      end in
    let fetch (c0 : t) :=
      let '(r, c1, w1) := pages limit max_pages 0 [] c0 w in
      match r with
      | None => (None, c1, w1)
      | Some all_teams =>
          (Some (PList all_teams), set_teams_cache c1 (PList all_teams),
           if fs_writable w1
           then set_files w1 (<[teams_file :=
                                Payload (Some (now w1 + 24 * 60 * us_per_minute))
                                        (Some (PList all_teams))]> (files w1))
           else w1)
      end in
    match on_disk with
    | Some data =>
        (* [len(self._teams_cache)] in the log line raises on an unsized
           value; the handler swallows it and the fetch goes on *)
        match py_len data with
        | Some _ => (Some data, set_teams_cache c data, w)
        | None => fetch (set_teams_cache c data)
        end
    | None => fetch c
    end.

(** The key of the resolution cache. *)
Definition resolve_cache_key (name display_name abbreviation league : string) : string :=
  join "|" ([upper league; lower (strip name)]
            ++ (if bool_decide (display_name = EmptyString) then [] else [lower display_name])
            ++ (if bool_decide (abbreviation = EmptyString) then [] else [upper abbreviation])).

(** The [if not self._teams_cache:] block of [resolve_team_id]: one
    league-scoped request for the catalogue, then the full bootstrap; an
    exception of the bootstrap is swallowed. *)
Definition warm_teams_cache (c : t) (w : World) (league : string) : t * World :=
  if truthy (_teams_cache c) then (c, w)
  else
    let '(resp_warm, c', w') :=
      _make_request c w teams_endpoint [("league", PStr league)]%string 120 in
    let data_warm :=
      match resp_warm with
      | PDict d => dict_get d "data"
      | PList _ => resp_warm
      | _ => PList []
      end in
    match data_warm with
    | PList (_ :: _) => (set_teams_cache c' data_warm, w')
    | _ => let '(_, c'', w'') := get_all_teams c' w' 500 5 in (c'', w'')
    end.

(** [resolve_team_id(name, display_name, abbreviation, league)].  An
    argument that is [None] is the empty string: the method only tests
    its truth.  The result is [None] when [result[0].get] raises. *)
Definition resolve_team_id (c : t) (w : World)
    (name display_name abbreviation league : string) : option (pyval * t * World) :=
  let base_name := strip name in
  let cache_key := resolve_cache_key name display_name abbreviation league in
  let '(c1, w1) := warm_teams_cache c w league in
  match _team_id_cache c1 !! cache_key with
  | Some team_id => Some (team_id, c1, w1)
  | None =>
      let params : Params :=
        ([("name", PStr base_name); ("league", PStr league)]
         ++ (if bool_decide (display_name = EmptyString) then []
             else [("displayName", PStr display_name)])
         ++ (if bool_decide (abbreviation = EmptyString) then []
             else [("abbreviation", PStr abbreviation)])) in
      let '(result, c2, w2) := _make_request c1 w1 teams_endpoint params 120 in
      let result :=
        match result with
        | PDict d => default result (items_get d "data")
        | _ => result
        end in
      match result with
      | PList (first :: _) =>
          team_id ← py_get first "id";
          if is_int team_id
          then Some (team_id,
                     set_team_id_cache c2 (<[cache_key := team_id]> (_team_id_cache c2)),
                     w2)
          else Some (PNone, c2, w2)
      | _ => Some (PNone, c2, w2)
      end
  end.

(** The outcomes of an attempt after which the loop of [_make_request]
    sleeps and goes on to the next one: status 429, a status outside
    200..499, and a request error. *)
Definition retried (o : Outcome) : bool :=
  match o with
  | Responded status _ =>
      negb ((200 <=? status) && (status <? 300)) &&
      ((status =? 429) || negb ((400 <=? status) && (status <? 500)))
  | RequestError => true
  | Raised _ => false
  end.

(** [w'] is [w] after at most [bound] further requests, all of them to
    [endpoint]. *)
Definition sends (w w' : World) (endpoint : string) (bound : nat) : Prop :=
  ∃ rest, sent w' = sent w ++ rest ∧ (length rest ≤ bound)%nat ∧
          Forall (λ r : string * Params, r.1 = endpoint) rest.

(** [self.ENDPOINTS["head2head"]] and [self.ENDPOINTS["matches"]] *)
Definition head2head_endpoint : string := "/head-2-head".
Definition matches_endpoint : string := "/matches".

(** [get_head_to_head(team_one_name, team_two_name, league)]; [None] is
    an exception of a resolution, which leaves the method. *)
Definition get_head_to_head (c : t) (w : World) (team_one_name team_two_name league : string)
    : option (pyval * t * World) :=
  r1 ← resolve_team_id c w team_one_name EmptyString EmptyString league;
  let '(team_one_id, c1, w1) := r1 in
  r2 ← resolve_team_id c1 w1 team_two_name EmptyString EmptyString league;
  let '(team_two_id, c2, w2) := r2 in
  if negb (truthy team_one_id) || negb (truthy team_two_id)
  then Some (PList [], c2, w2)
  else
    let params : Params := [("teamIdOne", team_one_id); ("teamIdTwo", team_two_id)]%string in
    let '(resp, c3, w3) := _make_request c2 w2 head2head_endpoint params 30 in
    let audit := PDict [("teamIdOne", team_one_id); ("teamIdTwo", team_two_id);
                        ("params", PDict params);
                        ("endpoint", PStr "/head-2-head")]%string in
    Some (match resp with
          | PList _ => PDict [("data", resp); ("_audit", audit)]%string
          | PDict d =>
              match items_get d "_audit" with
              | Some _ => resp
              | None => PDict (d ++ [("_audit", audit)]%string)
              end
          | _ => resp
          end, c3, w3).

(** [search_matches_by_abbrev(league, date, season, home_abbrev,
    away_abbrev)], with the default limit and offset. *)
Definition search_matches_by_abbrev (c : t) (w : World) (league date : string) (season : Z)
    (home_abbrev away_abbrev : string) : pyval * t * World :=
  _make_request c w matches_endpoint
    [("league", PStr league); ("date", PStr date); ("season", PInt season);
     ("homeTeamAbbreviation", PStr home_abbrev);
     ("awayTeamAbbreviation", PStr away_abbrev);
     ("limit", PInt 100); ("offset", PInt 0)]%string 5.

(** The key of [_match_id_cache]:
    [f"{date}:{home_abbrev}:{away_abbrev}:{season}:{league.upper()}"] *)
Definition match_id_key (league date : string) (season : Z) (home_abbrev away_abbrev : string)
    : string :=
  date +:+ ":" +:+ home_abbrev +:+ ":" +:+ away_abbrev +:+ ":" +:+ pretty season
       +:+ ":" +:+ upper league.

(** The id of the first match of a response, when it is an [int]; the
    outer [None] is the [AttributeError] of [items[0].get]. *)
Definition first_match_id (resp : pyval) : option (option pyval) :=
  match match resp with
        | PDict d => default (PList []) (items_get d "data")
        | _ => PList []
        end with
  | PList (first :: _) =>
      mid ← py_get first "id"; Some (if is_int mid then Some mid else None)
  | _ => Some None
  end.

(** [find_match_id_by_abbrevs(league, date, season, home_abbrev,
    away_abbrev)], with [self._match_id_cache] passed along. *)
Definition find_match_id_by_abbrevs (c : t) (_match_id_cache : gmap string pyval) (w : World)
    (league date : string) (season : Z) (home_abbrev away_abbrev : string)
    : option (pyval * t * gmap string pyval * World) :=
  let cache_key := match_id_key league date season home_abbrev away_abbrev in
  match _match_id_cache !! cache_key with
  | Some mid => Some (mid, c, _match_id_cache, w)
  | None =>
      let '(resp, c1, w1) :=
        search_matches_by_abbrev c w league date season home_abbrev away_abbrev in
      found ← first_match_id resp;
      match found with
      | Some mid => Some (mid, c1, <[cache_key := mid]> _match_id_cache, w1)
      | None =>
          let '(resp2, c2, w2) :=
            search_matches_by_abbrev c1 w1 league date season away_abbrev home_abbrev in
          found2 ← first_match_id resp2;
          match found2 with
          | Some mid => Some (mid, c2, <[cache_key := mid]> _match_id_cache, w2)
          | None => Some (PNone, c2, _match_id_cache, w2)
          end
      end
  end.

(** [warm_highlightly_cache(league)] on the client [c]: the number of
    teams cached, 0 when the bootstrap raises. *)
Definition warm_highlightly_cache (c : t) (w : World) (league : string) : Z * t * World :=
  let '(resp, c1, w1) :=
    _make_request c w teams_endpoint [("league", PStr league)]%string 120 in
  let data :=
    match resp with
    | PDict d => dict_get d "data"
    | PList _ => resp
    | _ => PList []
    end in
  match data with
  | PList (first :: rest) =>
      (Z.of_nat (length (first :: rest)), set_teams_cache c1 data, w1)
  | _ =>
      let '(teams, c2, w2) := get_all_teams c1 w1 500 5 in
      (match teams ≫= py_len with Some n => Z.of_nat n | None => 0 end, c2, w2)
  end.

(** [get_nfl_team_info(team_name)]: the first team of the answer, or its
    ["data"] when that is not a list; [None] when the answer is falsy or
    has no ["data"], and when [teams.get] raises on an answer that is
    not a dict (the handler returns [None]). *)
Definition get_nfl_team_info (c : t) (w : World) (team_name : string)
    : pyval * t * World :=
  let '(teams, c', w') :=
    _make_request c w "/nfl-ncaa/teams"
      [("search", PStr team_name); ("type", PStr "team")]%string 60 in
  (match teams with
   | PDict d =>
       if truthy teams && truthy (dict_get d "data") then
         match dict_get d "data" with
         | PList (first :: _) => first
         | data => data
         end
       else PNone
   | _ => PNone
   end, c', w').
End Client.

End Highlightly.

(** ** [backend/services/agent.py]: class [SportradarAgent] *)

Module Agent.
Import Py.

Section Agent.
Context `{B : Builtins}.

(** *** Head-to-head empty-result guard ([fetch_highlightly_data]) *)

(** [highlightly_client.get_head_to_head] is the collaborator: the value
    its [n]-th call returns (counted from 0) for the two names and the
    league. *)
Variable get_head_to_head : nat → string → string → string → pyval.

(** A Python list is an object.  [_h2h_cache] holds the very lists the
    client returned, and what follows the guard in the branch enriches the
    latest match of such a list in place (["homeTeam"], ["awayTeam"] and
    ["topPerformers"] are set on it), so that what the cache serves later
    is the list as it is by then.  A list object is named by a [loc];
    [data_object n] is the list that the [n]-th answer of the client holds
    as its matches. *)
Definition loc : Type := nat.

Variable data_object : nat → loc.

(** The agent's last-known-good cache, what the lists it refers to hold
    at present, and a trace of the calls to the client and of the
    microseconds slept. *)
Record H2H := mkH2H {
  _h2h_cache : gmap string loc;
  objects : gmap loc pyval;
  calls : nat;
  slept : list Z
}.

(** [asyncio.sleep(0.5)] *)
Definition retry_delay : Z := us_per_second / 2.

(** [sorted([a, b])] on two strings *)
Definition sorted2 (a b : string) : list string :=
  if String.ltb b a then [b; a] else [a; b].

(** The key of a team pair; [league] is [parameters.get("league")], empty
    when missing. *)
Definition league_tag (league : string) : string :=
  upper (if bool_decide (league = EmptyString) then "NFL" else league).

Definition h2h_cache_key (home_team away_team league : string) : string :=
  "H2H:" +:+ league_tag league +:+ ":" +:+
  join "|" (sorted2 (lower home_team) (lower away_team)).

(** [r.get("data", []) if isinstance(r, dict) else (r or [])] *)
Definition h2h_matches (r : pyval) : pyval :=
  match r with
  | PDict d => default (PList []) (items_get d "data")
  | _ => py_or r (PList [])
  end.

(** [isinstance(v, list) and len(v) > 0] *)
Definition nonempty_list (v : pyval) : bool :=
  match v with PList (_ :: _) => true | _ => false end.

(** How the guarded part of the branch ends: it returns a result, or it
    goes on to enrich the latest of the matches of the list [l], which
    holds [h2h_data]. *)
Inductive Guarded : Type :=
| Returned (result : pyval)
| Proceeds (l : loc) (h2h_data : pyval).

(** [await highlightly_client.get_head_to_head(home_team, away_team,
    league=league_tag)]: the answer and the list it holds. *)
Definition call (s : H2H) (home_team away_team league : string) : pyval * loc * H2H :=
  (get_head_to_head (calls s) home_team away_team (league_tag league),
   data_object (calls s),
   {| _h2h_cache := _h2h_cache s; objects := objects s;
      calls := S (calls s); slept := slept s |}).

(** [self._h2h_cache[cache_key] = h2h_data], where [h2h_data] is the list
    [l], which holds [v]. *)
Definition store (s : H2H) (cache_key : string) (l : loc) (v : pyval) : H2H :=
  {| _h2h_cache := <[cache_key := l]> (_h2h_cache s);
     objects := <[l := v]> (objects s);
     calls := calls s; slept := slept s |}.

(** [self._h2h_cache.get(cache_key)]: the list stored under the key, as
    it is at present. *)
Definition h2h_cache_get (s : H2H) (cache_key : string) : pyval :=
  default PNone (_h2h_cache s !! cache_key ≫= λ l, objects s !! l).

(** An update in place of the list [l], as the enrichment makes after the
    guard. *)
Definition update_in_place (s : H2H) (l : loc) (v : pyval) : H2H :=
  {| _h2h_cache := _h2h_cache s; objects := <[l := v]> (objects s);
     calls := calls s; slept := slept s |}.

(** The branch of [fetch_highlightly_data] taken when both teams are
    given, up to the caching of a positive result.  The state given back
    is the one at the end of the guard: after [Proceeds l _] the branch
    goes on to enrich the list [l] in place ([update_in_place]) before it
    returns. *)
Definition head_to_head (s : H2H) (home_team away_team league api_sport : string)
    : Guarded * H2H :=
  let cache_key := h2h_cache_key home_team away_team league in
  let '(first, l1, s1) := call s home_team away_team league in
  let h2h_data := h2h_matches first in
  if nonempty_list h2h_data
  then (Proceeds l1 h2h_data, store s1 cache_key l1 h2h_data)
  else
    let cached := h2h_cache_get s1 cache_key in
    if truthy cached then
      (Returned (PDict [("data", cached); ("sport", PStr api_sport);
                        ("type", PStr "head_to_head"); ("cache", PBool true)]), s1)
    else
      let s2 := {| _h2h_cache := _h2h_cache s1; objects := objects s1;
                   calls := calls s1; slept := slept s1 ++ [retry_delay] |} in
      let '(second, l2, s3) := call s2 home_team away_team league in
      let h2h_retry := h2h_matches second in
      if nonempty_list h2h_retry
      then (Proceeds l2 h2h_retry,
            store (store s3 cache_key l2 h2h_retry) cache_key l2 h2h_retry)
      else (Returned (PDict [("data", py_or h2h_retry (PList []));
                             ("sport", PStr api_sport);
                             ("type", PStr "head_to_head")]), s3).

(** *** Statistics merge ([_extract_football_stats]) *)

(** [v in (0, None)] *)
Definition zero_or_none (v : pyval) : bool :=
  match v with PNone => true | _ => eq_zero v end.

(** One round of the loop of [merge_preserve]. *)
Definition merge_preserve_item (target : gmap string pyval) (kv : string * pyval)
    : gmap string pyval :=
  let '(k, v) := kv in
  match target !! k with
  | None => <[k := v]> target
  | Some cur =>
      if zero_or_none cur then <[k := v]> target
      else if bool_decide (k = "touchdowns") then
        match py_int (py_or cur (PInt 0)) with
        | Some tv =>
            match py_int (py_or v (PInt 0)) with
            | Some sv =>
                if (0 <? sv) && (tv <? sv) then <[k := PInt sv]> target else target
            | None => <[k := default v (target !! k)]> target
            end
        | None => <[k := default v (target !! k)]> target
        end
      else target
  end.

(** [merge_preserve(target, source)] *)
Definition merge_preserve (target : gmap string pyval) (source : pyval)
    : gmap string pyval :=
  match source with
  | PDict items => foldl merge_preserve_item target items
  | _ => target
  end.

(** What one round of that loop leaves under the key of its item, given
    what the key held before ([None]: the key was not in [target]). *)
Definition merged_value (k : string) (cur : option pyval) (v : pyval) : pyval :=
  match cur with
  | None => v
  | Some t =>
      if zero_or_none t then v
      else if bool_decide (k = "touchdowns") then
        match py_int (py_or t (PInt 0)), py_int (py_or v (PInt 0)) with
        | Some tv, Some sv => if (0 <? sv) && (tv <? sv) then PInt sv else t
        | _, _ => t
        end
      else t
  end.

(** What the rounds over [items] leave under [k]. *)
Definition merged_under (k : string) (cur : option pyval) (items : list (string * pyval))
    : option pyval :=
  foldl (λ cur kv, if bool_decide (kv.1 = k) then Some (merged_value k cur kv.2) else cur)
        cur items.

(** [r] is [t], or the larger touchdown count that replaced it. *)
Definition raised (k : string) (t r : pyval) : Prop :=
  r = t ∨
  (k = "touchdowns"%string ∧
   ∃ tv sv, py_int (py_or t (PInt 0)) = Some tv ∧ r = PInt sv ∧ tv < sv ∧ 0 < sv).

(** The first of [statistics], [stats], [totals] that is a dict. *)
Definition team_block (team_obj : list (string * pyval)) : option (list (string * pyval)) :=
  match dict_get team_obj "statistics" with
  | PDict s => Some s
  | _ =>
      match dict_get team_obj "stats" with
      | PDict s => Some s
      | _ =>
          match dict_get team_obj "totals" with
          | PDict s => Some s
          | _ => None
          end
      end
  end.

Inductive Caster : Type := to_int | to_float.

Definition cast (t : Caster) (val : pyval) : option pyval :=
  match t with
  | to_int => PInt <$> py_int val
  | to_float => PFloat <$> py_float val
  end.

(** [float(s.replace("%", "").strip())] *)
Definition percent (s : string) : option float :=
  float_of_str (strip (remove_char "%" s)).

(** [coerce(val, t)] *)
Definition coerce (val : pyval) (t : Caster) : pyval :=
  default (PInt 0)
    match val with
    | PStr s => if endswith "%" s then PFloat <$> percent s else cast t val
    | _ => cast t val
    end.

Definition mapping : list (list string * string * Caster) :=
  [ (["yards"; "totalYards"; "yds"], "yards", to_int);
    (["completionPct"; "completion_percentage"; "completionPercent"; "cmpPct"],
     "completionPct", to_float);
    (["touchdowns"; "tds"; "td"], "touchdowns", to_int);
    (["attempts"; "passing_attempts"; "passAttempts"], "attempts", to_int);
    (["sacks"], "sacks", to_int) ]%string.

(** The [for k in keys] loop of [update_from_team_block]. *)
Fixpoint first_alias (stats_dict : list (string * pyval)) (out_key : string)
    (caster : Caster) (keys : list string) (out : gmap string pyval)
    : option (gmap string pyval) :=
  match keys with
  | [] => Some out
  | k :: keys' =>
      match items_get stats_dict k with
      | None => first_alias stats_dict out_key caster keys' out
      | Some val =>
          let new_val := coerce val caster in
          skip ←
            (if bool_decide (out_key = "touchdowns") then
               positive ← gt_zero (default (PInt 0) (out !! "touchdowns"));
               if positive : bool
               then (λ n, n =? 0) <$> py_int (py_or new_val (PInt 0))
               else Some false
             else Some false);
          if skip : bool
          then first_alias stats_dict out_key caster keys' out
          else Some (<[out_key := new_val]> out)
      end
  end.

(** [update_from_team_block(team_obj, out)] *)
Definition update_from_team_block (team_obj : pyval) (out : gmap string pyval)
    : option (gmap string pyval) :=
  match team_obj with
  | PDict d =>
      match team_block d with
      | Some stats_dict =>
          foldl (λ acc m, out' ← acc; first_alias stats_dict m.1.2 m.2 m.1.1 out')
                (Some out) mapping
      | None => Some out
      end
  | _ => Some out
  end.

(** [v in (None, 0, "0", "")] *)
Definition blank (v : pyval) : bool :=
  match v with
  | PNone => true
  | PStr s => bool_decide (s = "0") || bool_decide (s = EmptyString)
  | _ => eq_zero v
  end.

(** [float(str(v).replace('%', '').strip())]; the [repr] of a list or of
    a dict starts with a bracket, which [float] rejects. *)
Definition enriched (v : pyval) : option float :=
  s ← py_str v; percent s.

(** One round of the loop of [preserve_enriched]. *)
Definition preserve_enriched_item (out : gmap string pyval) (kv : string * pyval)
    : gmap string pyval :=
  let '(k, v) := kv in
  if blank v then out
  else
    let key := lower k in
    let whole (field : string) :=
      match enriched v ≫= int_of_float with
      | Some n => <[field := PInt n]> out
      | None => out
      end in
    if contains "yard" key then whole "yards"
    else if contains "completion" key then
      match enriched v with
      | Some x => <["completionPct" := PFloat x]> out
      | None => out
      end
    else if contains "touchdown" key || bool_decide (key = "td") || contains " td" key
    then whole "touchdowns"
    else if contains "attempt" key then whole "attempts"
    else if contains "sack" key then whole "sacks"
    else out.

(** [preserve_enriched(team_obj, out)] *)
Definition preserve_enriched (team_obj : pyval) (out : gmap string pyval)
    : gmap string pyval :=
  match team_obj with
  | PDict d =>
      match py_or (dict_get d "statistics")
              (py_or (dict_get d "stats") (py_or (dict_get d "totals") (PDict []))) with
      | PDict stats => foldl preserve_enriched_item out stats
      | _ => out
      end
  | _ => out
  end.

(** The number [map_stats] reads from an item's value: [num]. *)
Definition stat_number (val : pyval) : pyval :=
  match
    match val with
    | PStr s => if endswith "%" s then percent s else py_float val
    | _ => py_float val
    end
  with
  | Some x => PFloat x
  | None => PInt 0
  end.

(** [(it.get("name") or it.get("displayName") or "").lower()] *)
Definition item_name (it : pyval) : option string :=
  a ← py_get it "name";
  b ← py_get it "displayName";
  match py_or a (py_or b (PStr EmptyString)) with
  | PStr s => Some (lower s)
  | _ => None
  end.

(** [out[field] = out.get(field, 0) + int(num)] *)
Definition accumulate (field : string) (num : pyval) (out : gmap string pyval)
    : option (gmap string pyval) :=
  n ← py_int num;
  v ← add_int (default (PInt 0) (out !! field)) n;
  Some (<[field := v]> out).

(** One round of the loop of [map_stats]. *)
Definition map_stats_item (out : gmap string pyval) (it : pyval)
    : option (gmap string pyval) :=
  name ← item_name it;
  val ← py_get it "value";
  let num := stat_number val in
  if contains "yards" name then accumulate "yards" num out
  else if contains "completion" name then Some (<["completionPct" := num]> out)
  else if contains "touchdown" name || contains "td" name
  then accumulate "touchdowns" num out
  else if contains "pass attempt" name || contains "passing attempts" name
          || (contains "attempts" name && contains "pass" name)
  then n ← py_int num; Some (<["attempts" := PInt n]> out)
  else if contains "sack" name
  then n ← py_int num; Some (<["sacks" := PInt n]> out)
  else Some out.

(** [map_stats(entry, out)].  Iterating a truthy [items] that is not a
    list raises: its elements have no [get], or it has none. *)
Definition map_stats (entry : pyval) (out : gmap string pyval)
    : option (gmap string pyval) :=
  if negb (truthy entry) then Some out
  else
    a ← py_get entry "statistics";
    b ← py_get entry "stats";
    match py_or a (py_or b (PList [])) with
    | PList items => foldl (λ acc it, out' ← acc; map_stats_item out' it) (Some out) items
    | _ => None
    end.

(** [_get_sport_specific_fields("nfl")] *)
Definition fields : list string :=
  ["points"; "yards"; "completionPct"; "touchdowns"; "attempts"; "sacks"]%string.

(** [empty()]: [{k: 0 for k in fields}] *)
Definition empty : gmap string pyval :=
  list_to_map ((λ k, (k, PInt 0)) <$> fields).

(** The merge steps [_extract_football_stats] applies to one team's
    record, in source order, for a match that has no [boxScores] (the
    box-score step then writes nothing): the team block, [merge_preserve]
    with the team's ["statistics"], [preserve_enriched], and [map_stats]
    with the match-level entry picked for the team. *)
Definition merge_team (team_obj entry : pyval) (out : gmap string pyval)
    : option (gmap string pyval) :=
  match team_obj with
  | PDict d =>
      out1 ← update_from_team_block team_obj out;
      map_stats entry
        (preserve_enriched team_obj
           (merge_preserve out1 (default (PDict []) (items_get d "statistics"))))
  | _ => None
  end.

(** *** Touchdown enrichment ([_extract_stats_from_match_details]) *)

Definition td_names : list string :=
  ["passing touchdowns"; "rushing touchdowns"; "receiving touchdowns"]%string.

(** What one statistic's value adds to the total.  The [str] of [None],
    of a list or of a dict is never made of digits. *)
Definition td_value (val : pyval) : Z :=
  match val with
  | PInt _ | PBool _ | PFloat _ => default 0 (py_int val)
  | PStr s0 =>
      let s := strip s0 in
      if isdigit (remove_first_char "." s)
      then default 0 (float_of_str s ≫= int_of_float)
      else 0
  | PNone | PList _ | PDict _ => 0
  end.

(** What one entry of a player's statistics adds to the total.  The [str]
    of a name that is not a string is never one of [td_names]. *)
Definition td_of_stat (st : pyval) : Z :=
  match st with
  | PDict d =>
      match default (PStr EmptyString) (items_get d "name") with
      | PStr name =>
          if bool_decide (lower name ∈ td_names)
          then td_value (default (PInt 0) (items_get d "value"))
          else 0
      | _ => 0
      end
  | _ => 0
  end.

(** What one player adds; [None] when [(p or {}).get] raises. *)
Definition td_of_player (p : pyval) : option Z :=
  let p' := py_or p (PDict []) in
  a ← py_get p' "statistics";
  b ← py_get p' "stats";
  match py_or a (py_or b (PList [])) with
  | PList stats_list => Some (foldl (λ total st, total + td_of_stat st) 0 stats_list)
  | _ => Some 0
  end.

(** [_sum_td_from_players(players)] *)
Definition _sum_td_from_players (players : pyval) : option Z :=
  match players with
  | PList ps => foldl (λ acc p, total ← acc; n ← td_of_player p; Some (total + n)) (Some 0) ps
  | _ => Some 0
  end.

(** [(c.get(long) if isinstance(c, dict) else None)
     or (c.get(short) if isinstance(c, dict) else None) or []] *)
Definition side_players (c : pyval) (long short : string) : pyval :=
  match c with
  | PDict d => py_or (dict_get d long) (py_or (dict_get d short) (PList []))
  | _ => PList []
  end.

(** [team_stats_by_abbr.setdefault(abbr, {}).update({"touchdowns": n})] *)
Definition set_touchdowns (abbr : string) (n : Z)
    (team_stats_by_abbr : gmap string (gmap string pyval))
    : gmap string (gmap string pyval) :=
  <[abbr := <["touchdowns" := PInt n]> (default ∅ (team_stats_by_abbr !! abbr))]>
    team_stats_by_abbr.

(** The update of one side; an abbreviation that is [None] is empty. *)
Definition enrich_side (abbr : string) (tds_box tds_tp : Z)
    (team_stats_by_abbr : gmap string (gmap string pyval))
    : gmap string (gmap string pyval) :=
  if bool_decide (abbr = EmptyString) then team_stats_by_abbr
  else
    let best := if 0 <? tds_box then tds_box else tds_tp in
    if 0 <? best then set_touchdowns abbr best team_stats_by_abbr
    else team_stats_by_abbr.

(** The block of [_extract_stats_from_match_details] that enriches the
    touchdowns from [boxScores] and [topPerformers]; an exception in it
    is swallowed before anything is written. *)
Definition enrich_touchdowns (details : list (string * pyval))
    (home_abbr away_abbr : string)
    (team_stats_by_abbr : gmap string (gmap string pyval))
    : gmap string (gmap string pyval) :=
  let box := py_or (dict_get details "boxScores")
               (py_or (dict_get details "boxscores") (PDict [])) in
  let tp := py_or (dict_get details "topPerformers") (PDict []) in
  match _sum_td_from_players (side_players box "homeTeam" "home"),
        _sum_td_from_players (side_players box "awayTeam" "away"),
        _sum_td_from_players (side_players tp "homeTeam" "home"),
        _sum_td_from_players (side_players tp "awayTeam" "away") with
  | Some home_tds_box, Some away_tds_box, Some home_tds_tp, Some away_tds_tp =>
      enrich_side away_abbr away_tds_box away_tds_tp
        (enrich_side home_abbr home_tds_box home_tds_tp team_stats_by_abbr)
  | _, _, _, _ => team_stats_by_abbr
  end.

(** [team_stats_by_abbr.get(abbr, {}).get(field)] *)
Definition team_field (abbr field : string)
    (team_stats_by_abbr : gmap string (gmap string pyval)) : option pyval :=
  match team_stats_by_abbr !! abbr with
  | Some stats => stats !! field
  | None => None
  end.

(** [out'] differs from [out] at most under the keys [written], and has
    every key of [out]. *)
Definition writes_only (written : list string) (out out' : gmap string pyval) : Prop :=
  ∀ k, (k ∉ written → out' !! k = out !! k) ∧ (is_Some (out !! k) → is_Some (out' !! k)).

(** The fields the statistics normalisers fill. *)
Definition stat_fields : list string :=
  ["yards"; "completionPct"; "touchdowns"; "attempts"; "sacks"]%string.

(** What one round of the loop of [preserve_enriched] writes, if
    anything: the field and the value, which the item alone decides. *)
Definition enriched_write (kv : string * pyval) : option (string * pyval) :=
  let '(k, v) := kv in
  if blank v then None
  else
    let key := lower k in
    let whole (field : string) := (λ n, (field, PInt n)) <$> (enriched v ≫= int_of_float) in
    if contains "yard" key then whole "yards"
    else if contains "completion" key then (λ x, ("completionPct"%string, PFloat x)) <$> enriched v
    else if contains "touchdown" key || bool_decide (key = "td") || contains " td" key
    then whole "touchdowns"
    else if contains "attempt" key then whole "attempts"
    else if contains "sack" key then whole "sacks"
    else None.

(** The value the rounds over [items] leave last under [field], if any
    of them writes it. *)
Definition last_enriched (field : string) (items : list (string * pyval)) : option pyval :=
  foldl (λ acc kv,
           match enriched_write kv with
           | Some (f, c) => if bool_decide (f = field) then Some c else acc
           | None => acc
           end) None items.

(** *** Team abbreviations ([_get_team_abbreviation]) *)

(** [abbrev_map], in source order. *)
Definition abbrev_map : list (string * string) :=
  [ ("bills", "BUF"); ("buffalo bills", "BUF"); ("buffalo", "BUF");
    ("dolphins", "MIA"); ("miami dolphins", "MIA"); ("miami", "MIA");
    ("patriots", "NE"); ("new england patriots", "NE"); ("new england", "NE");
    ("jets", "NYJ"); ("new york jets", "NYJ"); ("ravens", "BAL");
    ("baltimore ravens", "BAL"); ("baltimore", "BAL"); ("bengals", "CIN");
    ("cincinnati bengals", "CIN"); ("cincinnati", "CIN"); ("browns", "CLE");
    ("cleveland browns", "CLE"); ("cleveland", "CLE"); ("steelers", "PIT");
    ("pittsburgh steelers", "PIT"); ("pittsburgh", "PIT"); ("texans", "HOU");
    ("houston texans", "HOU"); ("houston", "HOU"); ("colts", "IND");
    ("indianapolis colts", "IND"); ("indianapolis", "IND"); ("jaguars", "JAX");
    ("jacksonville jaguars", "JAX"); ("jacksonville", "JAX"); ("titans", "TEN");
    ("tennessee titans", "TEN"); ("tennessee", "TEN"); ("broncos", "DEN");
    ("denver broncos", "DEN"); ("denver", "DEN"); ("chiefs", "KC");
    ("kansas city chiefs", "KC"); ("kansas city", "KC"); ("raiders", "LV");
    ("las vegas raiders", "LV"); ("las vegas", "LV"); ("chargers", "LAC");
    ("los angeles chargers", "LAC"); ("cowboys", "DAL"); ("dallas cowboys", "DAL");
    ("dallas", "DAL"); ("giants", "NYG"); ("new york giants", "NYG");
    ("eagles", "PHI"); ("philadelphia eagles", "PHI"); ("philadelphia", "PHI");
    ("commanders", "WSH"); ("washington commanders", "WSH"); ("washington", "WSH");
    ("bears", "CHI"); ("chicago bears", "CHI"); ("chicago", "CHI"); ("lions", "DET");
    ("detroit lions", "DET"); ("detroit", "DET"); ("packers", "GB");
    ("green bay packers", "GB"); ("green bay", "GB"); ("vikings", "MIN");
    ("minnesota vikings", "MIN"); ("minnesota", "MIN"); ("falcons", "ATL");
    ("atlanta falcons", "ATL"); ("atlanta", "ATL"); ("panthers", "CAR");
    ("carolina panthers", "CAR"); ("carolina", "CAR"); ("saints", "NO");
    ("new orleans saints", "NO"); ("new orleans", "NO"); ("buccaneers", "TB");
    ("tampa bay buccaneers", "TB"); ("tampa bay", "TB"); ("bucs", "TB");
    ("cardinals", "ARI"); ("arizona cardinals", "ARI"); ("arizona", "ARI");
    ("rams", "LAR"); ("los angeles rams", "LAR"); ("la rams", "LAR"); ("49ers", "SF");
    ("san francisco 49ers", "SF"); ("niners", "SF"); ("seahawks", "SEA");
    ("seattle seahawks", "SEA"); ("seattle", "SEA") ]%string.

(** [abbrev_map.get(key)] *)
Fixpoint abbrev_get (m : list (string * string)) (key : string) : option string :=
  match m with
  | [] => None
  | (k, v) :: r => if bool_decide (k = key) then Some v else abbrev_get r key
  end.

(** [_get_team_abbreviation(team_name)]:
    [abbrev_map.get(team_name.lower().strip())] *)
Definition _get_team_abbreviation (team_name : string) : option string :=
  abbrev_get abbrev_map (strip (lower team_name)).
End Agent.

End Agent.

(** ** An executable instance of the builtins

  Exact decimals: [(m, e)] is [m / 10^e].  It runs the model on concrete
  inputs; it agrees with Python on the integers and the short decimals
  used there, and leaves out rounding, exponents, nan and infinities. *)

Module Exact.

Fixpoint digits_value (acc : Z) (s : string) : option Z :=
  match s with
  | EmptyString => Some acc
  | String c r => d ← Ascii.is_nat c; digits_value (10 * acc + Z.of_nat d) r
  end.

Definition unsigned (s : string) : option Z :=
  if Py.isdigit s then digits_value 0 s else None.

Fixpoint split_dot (s : string) : string * option string :=
  match s with
  | EmptyString => (EmptyString, None)
  | String c r =>
      if bool_decide (c = "."%char) then (EmptyString, Some r)
      else let '(a, b) := split_dot r in (String c a, b)
  end.

Definition unsigned_decimal (s : string) : option (Z * nat) :=
  match split_dot s with
  | (whole, None) => (λ m, (m, O)) <$> unsigned whole
  | (whole, Some frac) => (λ m, (m, String.length frac)) <$> unsigned (whole +:+ frac)
  end.

Definition signed {A} (parse : string → option A) (neg : A → A) (s : string) : option A :=
  match s with
  | String "-" r => neg <$> parse r
  | String "+" r => parse r
  | _ => parse s
  end.

Definition scale (e : nat) : Z := 10 ^ Z.of_nat e.

Fixpoint zeros (n : nat) : string :=
  match n with
  | O => EmptyString
  | S n' => String "0" (zeros n')
  end.

Definition pad (width : nat) (s : string) : string :=
  zeros (width - String.length s) +:+ s.

Definition decimal_str (x : Z * nat) : string :=
  let '(m, e) := x in
  (if m <? 0 then "-" else "") +:+ pretty (Z.abs m / scale e) +:+ "." +:+
  (if (e =? 0)%nat then "0" else pad e (pretty (Z.abs m mod scale e))).

#[export] Program Instance builtins : Py.Builtins := {|
  Py.float := Z * nat;
  Py.float_of_int z := Some (z, O);
  Py.float_of_str s :=
    signed unsigned_decimal (λ x, (- x.1, x.2)) (Py.strip s);
  Py.int_of_float x := Some (Z.quot x.1 (scale x.2));
  Py.int_of_str s := signed unsigned Z.opp (Py.strip s);
  Py.float_eq_int x i := x.1 =? i * scale x.2;
  Py.float_gt_int x i := i * scale x.2 <? x.1;
  Py.float_add_int x i := Some (x.1 + i * scale x.2, x.2);
  Py.float_str := decimal_str;
  Py.float_gt_ne := _
|}.
Next Obligation. intros x i H. apply Z.eqb_neq. apply Z.ltb_lt in H. lia. Qed.

(** A stand-in for the md5 digest of a request, for running examples. *)
Definition key (endpoint : string) (ps : list (string * Py.pyval)) : string :=
  endpoint +:+ ":" +:+ Py.join "," (fst <$> ps).

(** A world with an empty, writable cache directory at instant 0. *)
Definition world0 : Highlightly.World :=
  Highlightly.mkWorld 0 ∅ true [] [].

(** An upstream that answers every request with one status and no JSON. *)
Definition always (status : Z) : Highlightly.Upstream :=
  λ _ _ _, Highlightly.Responded status Highlightly.NotJson.

(** An upstream that answers every request with status 200 and the empty
    list. *)
Definition empty_ok : Highlightly.Upstream :=
  λ _ _ _, Highlightly.Responded 200 (Highlightly.Json (Py.PList [])).

(** A world whose cache directory holds an unexpired payload for the key
    ["k"]. *)
Definition durable_world : Highlightly.World :=
  Highlightly.mkWorld 0
    {[ Highlightly.cache_file "k" :=
         Highlightly.Payload (Some 100) (Some (Py.PList [Py.PInt 1])) ]}
    true [] [].

(** The world [w] with its clock at the instant [t]. *)
Definition at_instant (w : Highlightly.World) (t : Z) : Highlightly.World :=
  Highlightly.mkWorld t (Highlightly.files w) (Highlightly.fs_writable w)
    (Highlightly.sent w) (Highlightly.slept w).

(** A client whose team catalogue is loaded. *)
Definition warm_client : Highlightly.t :=
  Highlightly.set_teams_cache Highlightly.init
    (Py.PList [Py.PDict [("id", Py.PInt 1); ("name", Py.PStr "Lions")]]).

(** A head-to-head collaborator whose first call returns one match and
    whose later calls return nothing. *)
Definition flaky (n : nat) (_ _ _ : string) : Py.pyval :=
  match n with
  | O => Py.PDict [("data", Py.PList [Py.PDict [("id", Py.PInt 1)]])]
  | S _ => Py.PList []
  end.

(** Every answer of the collaborator holds a list of its own. *)
Definition own_list (n : nat) : Agent.loc := n.

(** The agent before any head-to-head call. *)
Definition fresh : Agent.H2H := Agent.mkH2H ∅ ∅ 0 [].


(** The value a merge step leaves under a field, when it returns. *)
Definition field (k : string) (r : option (gmap string Py.pyval)) : option Py.pyval :=
  match r with
  | Some out => out !! k
  | None => None
  end.

(** [r] merged once more with the entry. *)
Definition again (entry : Py.pyval) (r : option (gmap string Py.pyval))
    : option (gmap string Py.pyval) :=
  match r with
  | Some out => Agent.map_stats entry out
  | None => None
  end.

(** Match details in which the box score lists a player without touchdown
    entries and the top performers report three passing touchdowns. *)
Definition scenario : list (string * Py.pyval) :=
  [("boxScores",
    Py.PDict [("homeTeam",
               Py.PList [Py.PDict [("name", Py.PStr "QB");
                                   ("statistics", Py.PList [])]])]);
   ("topPerformers",
    Py.PDict [("homeTeam",
               Py.PList [Py.PDict
                 [("statistics",
                   Py.PList [Py.PDict [("name", Py.PStr "Passing Touchdowns");
                                       ("value", Py.PInt 3)]])]])])].

(** Match details whose box score reports two rushing touchdowns. *)
Definition box_two : list (string * Py.pyval) :=
  [("boxScores",
    Py.PDict [("homeTeam",
               Py.PList [Py.PDict
                 [("statistics",
                   Py.PList [Py.PDict [("name", Py.PStr "Rushing Touchdowns");
                                       ("value", Py.PInt 2)]])]])])].

(** An upstream that answers every request with status 200 and [data]. *)
Definition serving (data : Py.pyval) : Highlightly.Upstream :=
  λ _ _ _, Highlightly.Responded 200 (Highlightly.Json data).

(** An upstream that answers the first request with status 429 and every
    later one with a list of one element. *)
Definition recovering : Highlightly.Upstream :=
  λ n _ _,
    match n with
    | O => Highlightly.Responded 429 Highlightly.NotJson
    | S _ => Highlightly.Responded 200 (Highlightly.Json (Py.PList [Py.PInt 1]))
    end.

(** A stand-in for the digest that tells the pages of a listing apart:
    the offset asked for. *)
Definition offset_key (endpoint : string) (ps : list (string * Py.pyval)) : string :=
  match ps with
  | [_; (_, Py.PInt o)] => pretty o
  | _ => EmptyString
  end.

(** An upstream that serves the pages of a list, [limit] entries each. *)
Definition paged (L : list Py.pyval) (limit : nat) : Highlightly.Upstream :=
  λ _ _ ps,
    match ps with
    | [_; (_, Py.PInt o)] =>
        Highlightly.Responded 200
          (Highlightly.Json (Py.PDict [("data", Py.PList (take limit (drop (Z.to_nat o) L)))]))
    | _ => Highlightly.Responded 404 Highlightly.NotJson
    end.

(** A client whose resolution cache holds an id for the Lions. *)
Definition lions_client : Highlightly.t :=
  Highlightly.set_team_id_cache warm_client
    {[ Highlightly.resolve_cache_key "Lions" "" "" "NFL" := Py.PInt 7 ]}.

(** A match-level entry that reports a hundred total yards. *)
Definition yards_entry : Py.pyval :=
  Py.PDict [("statistics",
             Py.PList [Py.PDict [("name", Py.PStr "Total Yards");
                                 ("value", Py.PInt 100)]])].
End Exact.

(** * Properties *)

(** ** The cache layer *)

Section SimpleCacheProperties.
Context {V : Type}.
Implicit Types (c : SimpleCache.t V) (k : string) (v : V).

Lemma simple_get_hit c k v e t :
  SimpleCache._cache c !! k = Some v →
  SimpleCache._expiry c !! k = Some e →
  t ≤ e →
  SimpleCache.get c k t = (Some v, c).
Proof.
  intros Hv He Hle. unfold SimpleCache.get. rewrite Hv, He.
  rewrite bool_decide_eq_false_2 by lia. reflexivity.
Qed.

Lemma simple_get_expired c k v e t :
  SimpleCache._cache c !! k = Some v →
  SimpleCache._expiry c !! k = Some e →
  e < t →
  SimpleCache.get c k t = (None, SimpleCache.delete c k).
Proof.
  intros Hv He Hlt. unfold SimpleCache.get. rewrite Hv, He.
  rewrite bool_decide_eq_true_2 by lia. reflexivity.
Qed.

Lemma simple_get_fresh c k t v e :
  (SimpleCache.get c k t).1 = Some v →
  SimpleCache._expiry c !! k = Some e →
  t ≤ e.
Proof.
  unfold SimpleCache.get. intros Hget He. rewrite He in Hget.
  destruct (SimpleCache._cache c !! k); [|discriminate].
  case_bool_decide; [discriminate | lia].
Qed.

(** C6.  After [set(k, v, ttl)] at the instant [now]: a [get(k)] at any
    instant up to the expiry [now + ttl] (so an immediate one, for a ttl
    that is not negative) returns [v] and leaves the cache as it is; a
    [get(k)] at any later instant returns nothing and evicts the entry
    from both dictionaries; and, for any cache, a [get] that returns a
    value does so no later than the expiry recorded for the key. *)
Theorem simple_cache_set_get c k v (ttl now : Z) :
  let c' := SimpleCache.set c k v ttl now in
  (0 ≤ ttl → SimpleCache.get c' k now = (Some v, c')) ∧
  (∀ t, t ≤ now + ttl * us_per_second → SimpleCache.get c' k t = (Some v, c')) ∧
  (∀ t, now + ttl * us_per_second < t →
     (SimpleCache.get c' k t).1 = None ∧
     SimpleCache._cache (SimpleCache.get c' k t).2 !! k = None ∧
     SimpleCache._expiry (SimpleCache.get c' k t).2 !! k = None) ∧
  (∀ c0 k0 t v0 e,
     (SimpleCache.get c0 k0 t).1 = Some v0 →
     SimpleCache._expiry c0 !! k0 = Some e → t ≤ e).
Proof.
  intros c'.
  assert (Hv : SimpleCache._cache c' !! k = Some v) by apply lookup_insert_eq.
  assert (He : SimpleCache._expiry c' !! k = Some (now + ttl * us_per_second))
    by apply lookup_insert_eq.
  repeat split.
  - intros Httl. apply (simple_get_hit _ _ _ _ _ Hv He).
    unfold us_per_second. lia.
  - intros t Ht. by apply (simple_get_hit _ _ _ _ _ Hv He).
  - by rewrite (simple_get_expired _ _ _ _ _ Hv He).
  - rewrite (simple_get_expired _ _ _ _ _ Hv He) by done.
    apply lookup_delete_eq.
  - rewrite (simple_get_expired _ _ _ _ _ Hv He) by done.
    apply lookup_delete_eq.
  - intros c0 k0 t v0 e. apply simple_get_fresh.
Qed.


(** *** Removal *)

Lemma simple_get_absent c k t :
  SimpleCache._cache c !! k = None → SimpleCache.get c k t = (None, c).
Proof. intros H. unfold SimpleCache.get. by rewrite H. Qed.

(** What [get] returns depends on the two entries of the key alone. *)
Lemma simple_get_entries c c' k k' t :
  SimpleCache._cache c' !! k' = SimpleCache._cache c !! k →
  SimpleCache._expiry c' !! k' = SimpleCache._expiry c !! k →
  (SimpleCache.get c' k' t).1 = (SimpleCache.get c k t).1.
Proof.
  intros Hc He. unfold SimpleCache.get. rewrite Hc, He.
  destruct (SimpleCache._cache c !! k); [|done].
  destruct (SimpleCache._expiry c !! k); [|done]. by case_bool_decide.
Qed.

(** X1.  After [delete(k)], a [get(k)] returns nothing at any instant and
    changes nothing; the entries of every other key, and so what [get]
    returns for them, are as before.  After [clear()], every [get]
    returns nothing. *)
Theorem simple_cache_delete_removes c k :
  (∀ t, SimpleCache.get (SimpleCache.delete c k) k t = (None, SimpleCache.delete c k)) ∧
  (∀ k' t, k' ≠ k →
     (SimpleCache.get (SimpleCache.delete c k) k' t).1 = (SimpleCache.get c k' t).1) ∧
  (∀ k' t, SimpleCache.get (SimpleCache.clear c) k' t = (None, SimpleCache.clear c)).
Proof.
  split; [|split].
  - intros t. apply simple_get_absent. simpl. apply lookup_delete_eq.
  - intros k' t Hne. apply simple_get_entries; simpl; by rewrite lookup_delete_ne.
  - intros k' t. by apply simple_get_absent.
Qed.

(** The entries [delete] leaves after a run over a list of keys. *)
Lemma simple_delete_all_lookup (l : list string) c k :
  SimpleCache._cache (foldl SimpleCache.delete c l) !! k
  = (if bool_decide (k ∈ l) then None else SimpleCache._cache c !! k) ∧
  SimpleCache._expiry (foldl SimpleCache.delete c l) !! k
  = (if bool_decide (k ∈ l) then None else SimpleCache._expiry c !! k).
Proof.
  revert c. induction l as [|k0 l IH]; intros c.
  - by rewrite bool_decide_eq_false_2 by apply not_elem_of_nil.
  - cbn [foldl]. destruct (IH (SimpleCache.delete c k0)) as [-> ->]. simpl.
    destruct (decide (k = k0)) as [->|Hne].
    + rewrite !lookup_delete_eq.
      rewrite (bool_decide_eq_true_2 (k0 ∈ k0 :: l)) by (apply elem_of_cons; by left).
      by case_bool_decide.
    + rewrite !lookup_delete_ne by done.
      case_bool_decide as Hin.
      * by rewrite bool_decide_eq_true_2 by (apply elem_of_cons; by right).
      * rewrite bool_decide_eq_false_2; [done|].
        rewrite elem_of_cons. by intros [?|?].
Qed.

Lemma simple_expired_keys_spec c now k :
  k ∈ SimpleCache.expired_keys c now
  ↔ ∃ e, SimpleCache._expiry c !! k = Some e ∧ e < now.
Proof.
  unfold SimpleCache.expired_keys. rewrite list_elem_of_fmap. split.
  - intros ([k0 e] & -> & Hin). apply elem_of_map_to_list in Hin.
    apply map_lookup_filter_Some in Hin as [He Hlt]. by exists e.
  - intros (e & He & Hlt). exists (k, e). split; [done|].
    apply elem_of_map_to_list. by apply map_lookup_filter_Some.
Qed.

(** X2.  [cleanup_expired()] at the instant [now] leaves no expiry before
    [now]; it keeps, value and expiry, every entry that has not expired,
    and every value that has no expiry; and at [now] or any later instant
    [get] returns for every key what it would have returned without the
    cleanup. *)
Theorem simple_cache_cleanup_expired c now :
  let c' := SimpleCache.cleanup_expired c now in
  (∀ k e, SimpleCache._expiry c' !! k = Some e → now ≤ e) ∧
  (∀ k e, SimpleCache._expiry c !! k = Some e → now ≤ e →
          SimpleCache._cache c' !! k = SimpleCache._cache c !! k ∧
          SimpleCache._expiry c' !! k = Some e) ∧
  (∀ k, SimpleCache._expiry c !! k = None →
        SimpleCache._cache c' !! k = SimpleCache._cache c !! k) ∧
  (∀ k t, now ≤ t → (SimpleCache.get c' k t).1 = (SimpleCache.get c k t).1).
Proof.
  intros c'. subst c'. unfold SimpleCache.cleanup_expired.
  assert (Hkeep : ∀ k, k ∉ SimpleCache.expired_keys c now →
    SimpleCache._cache (foldl SimpleCache.delete c (SimpleCache.expired_keys c now)) !! k
    = SimpleCache._cache c !! k ∧
    SimpleCache._expiry (foldl SimpleCache.delete c (SimpleCache.expired_keys c now)) !! k
    = SimpleCache._expiry c !! k).
  { intros k Hk.
    destruct (simple_delete_all_lookup (SimpleCache.expired_keys c now) c k) as [-> ->].
    by rewrite bool_decide_eq_false_2. }
  split; [|split; [|split]].
  - intros k e.
    destruct (simple_delete_all_lookup (SimpleCache.expired_keys c now) c k) as [_ ->].
    case_bool_decide as Hin; [done|]. intros He.
    destruct (decide (now ≤ e)) as [|Hlt]; [done|]. exfalso. apply Hin.
    apply simple_expired_keys_spec. exists e. split; [done|lia].
  - intros k e He Hle. destruct (Hkeep k) as [-> ->]; [|done].
    rewrite simple_expired_keys_spec. intros (e' & He' & Hlt). simplify_eq. lia.
  - intros k He. apply Hkeep. rewrite simple_expired_keys_spec.
    intros (e' & He' & _). congruence.
  - intros k t Ht.
    destruct (decide (k ∈ SimpleCache.expired_keys c now)) as [Hin|Hout].
    + destruct (simple_delete_all_lookup (SimpleCache.expired_keys c now) c k) as [Hc _].
      rewrite bool_decide_eq_true_2 in Hc by done.
      rewrite (simple_get_absent _ _ _ Hc).
      apply simple_expired_keys_spec in Hin as (e & He & Hlt).
      unfold SimpleCache.get. rewrite He.
      destruct (SimpleCache._cache c !! k); [|done].
      by rewrite bool_decide_eq_true_2 by lia.
    + destruct (Hkeep k Hout) as [Hc He]. by apply simple_get_entries.
Qed.

(** X3.  The keys are independent: neither a [set] on a key nor a [get]
    of it (which may evict it) changes what [get] returns for another
    key. *)
Theorem simple_cache_keys_independent c k k' v (ttl now t : Z) :
  k' ≠ k →
  (SimpleCache.get (SimpleCache.set c k v ttl now) k' t).1 = (SimpleCache.get c k' t).1 ∧
  (∀ t0, (SimpleCache.get (SimpleCache.get c k t0).2 k' t).1 = (SimpleCache.get c k' t).1).
Proof.
  intros Hne. split.
  - apply simple_get_entries; simpl; by rewrite lookup_insert_ne.
  - intros t0. apply simple_get_entries; unfold SimpleCache.get;
      destruct (SimpleCache._cache c !! k); try done;
      destruct (SimpleCache._expiry c !! k); try done;
      case_bool_decide; try done; simpl; by rewrite lookup_delete_ne.
Qed.
End SimpleCacheProperties.

Lemma simple_cache_set_get_witness :
  SimpleCache.get (SimpleCache.set SimpleCache.init "k" 7 300 0) "k" 0
  = (Some 7, SimpleCache.set SimpleCache.init "k" 7 300 0).
Proof.
  apply (proj1 (simple_cache_set_get SimpleCache.init "k" 7 300 0)). lia.
Defined.

(** ** Strings *)

Section StringProperties.
Import Py.

Lemma lower_upper_char c : lower_char (upper_char c) = lower_char c.
Proof. destruct c as [[] [] [] [] [] [] [] []]; vm_compute; reflexivity. Qed.

Lemma upper_lower_char c : upper_char (lower_char c) = upper_char c.
Proof. destruct c as [[] [] [] [] [] [] [] []]; vm_compute; reflexivity. Qed.

Lemma is_space_lower_char c : is_space (lower_char c) = is_space c.
Proof. destruct c as [[] [] [] [] [] [] [] []]; vm_compute; reflexivity. Qed.

Lemma is_space_upper_char c : is_space (upper_char c) = is_space c.
Proof. destruct c as [[] [] [] [] [] [] [] []]; vm_compute; reflexivity. Qed.

Lemma map_chars_compose f g h s :
  (∀ c, f (g c) = h c) → map_chars f (map_chars g s) = map_chars h s.
Proof. intros Hc. induction s as [|c s IH]; [done|]. simpl. by rewrite Hc, IH. Qed.

(** Changing the case before lowering or raising it changes nothing. *)
Lemma lower_upper s : lower (upper s) = lower s.
Proof. apply map_chars_compose, lower_upper_char. Qed.

Lemma upper_lower s : upper (lower s) = upper s.
Proof. apply map_chars_compose, upper_lower_char. Qed.

Lemma lower_lower s : lower (lower s) = lower s.
Proof.
  apply map_chars_compose. intros c.
  destruct c as [[] [] [] [] [] [] [] []]; vm_compute; reflexivity.
Qed.

Lemma upper_upper s : upper (upper s) = upper s.
Proof.
  apply map_chars_compose. intros c.
  destruct c as [[] [] [] [] [] [] [] []]; vm_compute; reflexivity.
Qed.

Lemma map_chars_empty f s : map_chars f s = EmptyString ↔ s = EmptyString.
Proof. by destruct s. Qed.

Lemma rev_app_map_chars f s acc :
  String.rev_app (map_chars f s) (map_chars f acc) = map_chars f (String.rev_app s acc).
Proof.
  revert acc. induction s as [|c s IH]; intros acc; [done|].
  simpl. apply (IH (String c acc)).
Qed.

Lemma lstrip_map_chars f s :
  (∀ c, is_space (f c) = is_space c) →
  lstrip (map_chars f s) = map_chars f (lstrip s).
Proof.
  intros Hf. induction s as [|c s IH]; [done|].
  simpl. rewrite Hf. by destruct (is_space c).
Qed.

(** [strip] commutes with a change of case. *)
Lemma strip_map_chars f s :
  (∀ c, is_space (f c) = is_space c) →
  strip (map_chars f s) = map_chars f (strip s).
Proof.
  intros Hf. unfold strip, String.rev.
  rewrite (lstrip_map_chars f s Hf).
  rewrite (rev_app_map_chars f _ EmptyString).
  rewrite (lstrip_map_chars f _ Hf).
  apply (rev_app_map_chars f _ EmptyString).
Qed.

Lemma rev_app_append s t acc :
  String.rev_app (s +:+ t) acc = String.rev_app t (String.rev_app s acc).
Proof. revert acc. induction s as [|c s IH]; intros acc; [done|]. apply IH. Qed.

Lemma lstrip_append s t :
  lstrip (s +:+ t)
  = if bool_decide (lstrip s = EmptyString) then lstrip t else lstrip s +:+ t.
Proof.
  induction s as [|c s IH]; [done|].
  change (String c s +:+ t) with (String c (s +:+ t)). cbn [lstrip].
  destruct (is_space c); [done|]. by rewrite bool_decide_eq_false_2.
Qed.

Lemma lstrip_whitespace pre s : whitespace pre = true → lstrip (pre +:+ s) = lstrip s.
Proof.
  induction pre as [|c pre IH]; [done|].
  change (String c pre +:+ s) with (String c (pre +:+ s)). cbn [whitespace lstrip].
  destruct (is_space c); [|done]. apply IH.
Qed.

Lemma lstrip_rev_app_whitespace post acc :
  whitespace post = true → lstrip (String.rev_app post acc) = lstrip acc.
Proof.
  revert acc. induction post as [|c post IH]; intros acc H; [done|].
  cbn [whitespace] in H. apply andb_true_iff in H as [Hc Hpost].
  cbn [String.rev_app]. rewrite (IH _ Hpost). cbn [lstrip]. by rewrite Hc.
Qed.

(** White space around a string, of any length and kind, is immaterial to
    [strip]. *)
Lemma strip_whitespace pre post s :
  whitespace pre = true → whitespace post = true →
  strip (pre +:+ s +:+ post) = strip s.
Proof.
  intros Hpre Hpost. unfold strip. rewrite (lstrip_whitespace pre _ Hpre).
  rewrite lstrip_append. case_bool_decide as He.
  - rewrite He. pose proof (lstrip_whitespace post EmptyString Hpost) as Hl.
    assert (Hnil : ∀ t, t +:+ EmptyString = t).
    { intros t. induction t as [|a t IH]; [done|].
      change (String a t +:+ EmptyString) with (String a (t +:+ EmptyString)).
      by rewrite IH. }
    rewrite Hnil in Hl. by rewrite Hl.
  - unfold String.rev. rewrite rev_app_append.
    by rewrite (lstrip_rev_app_whitespace post _ Hpost).
Qed.

(** *** Separators

    A string that does not hold a character is cut from what follows it
    at the first occurrence of that character. *)
Lemma append_inj_l s x y : s +:+ x = s +:+ y → x = y.
Proof.
  induction s as [|a s IH]; [done|].
  change (String a s +:+ x) with (String a (s +:+ x)).
  change (String a s +:+ y) with (String a (s +:+ y)).
  intros [= H]. by apply IH.
Qed.

Lemma contains_char_cons c d r :
  contains (String c EmptyString) (String d r)
  = bool_decide (c = d) || contains (String c EmptyString) r.
Proof.
  cbn [contains String.prefix]. destruct (ascii_dec c d) as [->|Hne].
  - rewrite bool_decide_eq_true_2 by done. by destruct r.
  - by rewrite bool_decide_eq_false_2.
Qed.

Lemma append_cut_inj c s1 t1 s2 t2 :
  contains (String c EmptyString) s1 = false →
  contains (String c EmptyString) s2 = false →
  s1 +:+ String c t1 = s2 +:+ String c t2 →
  s1 = s2 ∧ t1 = t2.
Proof.
  revert s2. induction s1 as [|a s1 IH]; intros [|b s2] H1 H2 H.
  - by injection H as ->.
  - change (String c t1 = String b (s2 +:+ String c t2)) in H. injection H as -> _.
    rewrite contains_char_cons, bool_decide_eq_true_2 in H2; done.
  - change (String a (s1 +:+ String c t1) = String c t2) in H. injection H as -> _.
    rewrite contains_char_cons, bool_decide_eq_true_2 in H1; done.
  - change (String a (s1 +:+ String c t1) = String b (s2 +:+ String c t2)) in H.
    injection H as -> H. rewrite contains_char_cons in H1, H2.
    apply orb_false_iff in H1 as [_ H1]. apply orb_false_iff in H2 as [_ H2].
    destruct (IH s2 H1 H2 H) as [-> ->]. done.
Qed.

(** [sorted] on two strings does not depend on their order. *)
Lemma sorted2_comm a b : Agent.sorted2 a b = Agent.sorted2 b a.
Proof.
  unfold Agent.sorted2, String.ltb. rewrite (String.compare_antisym a b).
  destruct (String.compare b a) eqn:E; try done.
  by apply String.compare_eq_iff in E as ->.
Qed.

End StringProperties.

(** ** The request client *)

Section RequestClientProperties.
Context `{B : Py.Builtins}.
Import Py Highlightly.

Variable key : string → Params → string.
Variable up : Upstream.

Implicit Types (c : t) (w : World) (k endpoint : string) (ps : Params).

(** The cache lookup leaves the clock and the traces alone. *)
Lemma get_cached_frame c w k :
  let w' := (_get_cached_data c w k).2 in
  now w' = now w ∧ sent w' = sent w ∧ slept w' = slept w.
Proof.
  unfold _get_cached_data.
  destruct (_is_cache_valid c w k); [done|].
  destruct (files w !! cache_file k) as [[[e|] d|]|]; simpl; try done;
    repeat case_bool_decide; destruct (fs_writable w); done.
Qed.



(** The loop only ever appends to the trace of requests. *)
Lemma attempts_sent_grows k endpoint ps ttl range c w :
  ∃ rest, sent (attempts up k endpoint ps ttl range c w).2 = sent w ++ rest.
Proof.
  revert w. induction range as [|attempt range IH]; intros w.
  - exists []. simpl. by rewrite app_nil_r.
  - assert (Hretry : ∀ d, ∃ rest,
      sent (attempts up k endpoint ps ttl range c
              (sleep (client_get up w endpoint ps).2 d)).2 = sent w ++ rest).
    { intros d. destruct (IH (sleep (client_get up w endpoint ps).2 d)) as [rest ->].
      simpl. rewrite <- app_assoc. eauto. }
    simpl. destruct (up (length (sent w)) endpoint ps) as [status body| |msg];
      [|apply Hretry|simpl; eauto].
    destruct ((200 <=? status) && (status <? 300)).
    { destruct body; simpl; eauto. destruct (fs_writable w); simpl; eauto. }
    destruct (status =? 429); [apply Hretry|].
    destruct ((400 <=? status) && (status <? 500)); [simpl; eauto|apply Hretry].
Qed.

(** A lookup that serves nothing is followed by a request. *)
Lemma make_request_sends c w endpoint ps ttl :
  truthy (_get_cached_data c w (key endpoint (pop_sport ps))).1.1 = false →
  ∃ rest,
    sent (_make_request key up c w endpoint ps ttl).2
    = sent w ++ (endpoint, pop_sport ps) :: rest.
Proof.
  intros Hmiss. unfold _make_request.
  destruct (get_cached_frame c w (key endpoint (pop_sport ps))) as (_ & Hsent & _).
  destruct (_get_cached_data c w (key endpoint (pop_sport ps))) as [[cached c1] w1].
  simpl in Hmiss, Hsent. rewrite Hmiss.
  change (seq 0 max_attempts) with (0%nat :: seq 1 3).
  assert (Hretry : ∀ d, ∃ rest,
    sent (attempts up (key endpoint (pop_sport ps)) endpoint (pop_sport ps) ttl
            (seq 1 3) c1 (sleep (client_get up w1 endpoint (pop_sport ps)).2 d)).2
    = sent w ++ (endpoint, pop_sport ps) :: rest).
  { intros d.
    destruct (attempts_sent_grows (key endpoint (pop_sport ps)) endpoint (pop_sport ps)
                ttl (seq 1 3) c1 (sleep (client_get up w1 endpoint (pop_sport ps)).2 d))
      as [rest ->].
    simpl. rewrite Hsent, <- app_assoc. eauto. }
  cbn [attempts client_get].
  destruct (up (length (sent w1)) endpoint (pop_sport ps)) as [status body| |msg];
    [|apply Hretry|simpl; rewrite Hsent; eauto].
  destruct ((200 <=? status) && (status <? 300)).
  { destruct body; [destruct (fs_writable w1)|..]; simpl; rewrite Hsent; eauto. }
  destruct (status =? 429); [apply Hretry|].
  destruct ((400 <=? status) && (status <? 500));
    [simpl; rewrite Hsent; eauto|apply Hretry].
Qed.

(** What an error dictionary carries. *)
Lemma error_dict_fields error status endpoint :
  py_get (error_dict error status endpoint) "status" = Some (PInt status) ∧
  py_get (error_dict error status endpoint) "error" = Some (PStr error) ∧
  py_get (error_dict error status endpoint) "data" = Some (PList []).
Proof. done. Qed.

(** C4.  When the cache has nothing to serve and the endpoint answers the
    request with a 4xx status other than 429, [_make_request] sends that
    one request, sleeps for no retry, caches nothing, and returns an error
    dictionary whose ["status"] is the status received. *)
Theorem client_error_fails_fast c w endpoint ps ttl status body :
  let clean := pop_sport ps in
  let k := key endpoint clean in
  truthy (_get_cached_data c w k).1.1 = false →
  up (length (sent w)) endpoint clean = Responded status body →
  400 ≤ status < 500 →
  status ≠ 429 →
  ∃ result w',
    _make_request key up c w endpoint ps ttl
    = (result, (_get_cached_data c w k).1.2, w') ∧
    result = error_dict ("Client error " +:+ pretty status) status endpoint ∧
    py_get result "status" = Some (PInt status) ∧
    sent w' = sent w ++ [(endpoint, clean)] ∧
    slept w' = slept w.
Proof.
  intros clean k Hmiss Hup Hrange Hne. unfold _make_request. fold clean. fold k.
  destruct (get_cached_frame c w k) as (_ & Hsent & Hslept).
  destruct (_get_cached_data c w k) as [[cached c1] w1].
  cbn [fst snd] in Hmiss, Hsent, Hslept |- *. rewrite Hmiss.
  change (seq 0 max_attempts) with (0%nat :: seq 1 3).
  cbn [attempts client_get]. rewrite Hsent, Hup.
  destruct ((200 <=? status) && (status <? 300)) eqn:E1; [lia|].
  destruct (status =? 429) eqn:E2; [lia|].
  destruct ((400 <=? status) && (status <? 500)) eqn:E3; [|lia].
  eexists _, _. split; [reflexivity|]. split; [reflexivity|].
  split; [apply error_dict_fields|]. cbn [sent slept]. by rewrite <- Hsent.
Qed.

(** The in-process tier serves a valid entry as it is. *)
Lemma get_cached_valid c w k :
  _is_cache_valid c w k = true →
  _get_cached_data c w k = (default PNone (_cache c !! k), c, w).
Proof. intros Hv. unfold _get_cached_data. by rewrite Hv. Qed.

(** C10.  When the cache has nothing to serve and the endpoint answers
    with a 2xx status and a falsy JSON body (an empty list or dict, for
    instance), [_make_request] returns the body and writes it to the
    in-process tier under the request's key with the ttl asked for, and to
    the cache directory when that accepts writes; yet at any later instant
    before the expiry, where the entry is present and valid, the same call
    sends the request to the upstream again. *)
Theorem falsy_body_cached_not_served c w endpoint ps ttl status data :
  let clean := pop_sport ps in
  let k := key endpoint clean in
  truthy (_get_cached_data c w k).1.1 = false →
  up (length (sent w)) endpoint clean = Responded status (Json data) →
  200 ≤ status < 300 →
  truthy data = false →
  ∃ c' w',
    _make_request key up c w endpoint ps ttl = (data, c', w') ∧
    _cache c' !! k = Some data ∧
    _cache_expiry c' !! k = Some (now w + ttl * us_per_minute) ∧
    (fs_writable w = true →
     files w' !! cache_file k
     = Some (Payload (Some (now w + ttl * us_per_minute)) (Some data))) ∧
    sent w' = sent w ++ [(endpoint, clean)] ∧
    ∀ w2 ttl2,
      now w2 < now w + ttl * us_per_minute →
      _is_cache_valid c' w2 k = true ∧
      ∃ rest,
        sent (_make_request key up c' w2 endpoint ps ttl2).2
        = sent w2 ++ (endpoint, clean) :: rest.
Proof.
  intros clean k Hmiss Hup Hrange Hfalsy. unfold _make_request at 1.
  fold clean. fold k.
  destruct (get_cached_frame c w k) as (Hnow & Hsent & _).
  assert (Hfs : fs_writable (_get_cached_data c w k).2 = fs_writable w).
  { unfold _get_cached_data. destruct (_is_cache_valid c w k); [done|].
    destruct (files w !! cache_file k) as [[[e|] d|]|]; simpl; try done;
      repeat case_bool_decide; destruct (fs_writable w) eqn:Hw; simpl; done. }
  destruct (_get_cached_data c w k) as [[cached c1] w1].
  cbn [fst snd] in Hmiss, Hnow, Hsent, Hfs. rewrite Hmiss.
  change (seq 0 max_attempts) with (0%nat :: seq 1 3).
  cbn [attempts client_get]. rewrite Hsent, Hup.
  destruct ((200 <=? status) && (status <? 300)) eqn:E1; [|lia].
  unfold _cache_data. cbn [now fs_writable files sent].
  eexists _, _. split; [reflexivity|].
  cbn [_cache _cache_expiry set_cache]. rewrite !lookup_insert_eq, Hnow.
  split; [done|]. split; [done|]. rewrite Hfs. split.
  { intros ->. cbn [files set_files]. by rewrite lookup_insert_eq. }
  split; [by destruct (fs_writable w)|].
  intros w2 ttl2 Hlt.
  assert (Hvalid : _is_cache_valid
            (set_cache c1 (<[k:=data]> (_cache c1))
               (<[k:=now w + ttl * us_per_minute]> (_cache_expiry c1))) w2 k = true).
  { unfold _is_cache_valid. cbn [_cache_expiry set_cache].
    rewrite lookup_insert_eq. by apply bool_decide_eq_true_2. }
  split; [done|]. apply make_request_sends. fold clean. fold k.
  rewrite (get_cached_valid _ _ _ Hvalid). cbn [fst _cache set_cache].
  by rewrite lookup_insert_eq.
Qed.

(** C9, as the code has it.  When the in-process tier has no valid entry
    for the key and the cache directory holds an unexpired payload for it,
    [_get_cached_data] returns the payload's data and leaves the key out of
    both in-process dictionaries: the hit is not promoted.  Whatever the
    instant, the entry is not valid in the in-process tier afterwards, and
    a following read for the same key is answered by the cache directory
    alone: once the file is gone it returns [None]. *)
Theorem durable_hit_not_promoted c w k e data :
  _is_cache_valid c w k = false →
  files w !! cache_file k = Some (Payload (Some e) (Some data)) →
  now w < e →
  ∃ c',
    _get_cached_data c w k = (data, c', w) ∧
    _cache c' !! k = None ∧
    _cache_expiry c' !! k = None ∧
    (∀ w2, _is_cache_valid c' w2 k = false) ∧
    (∀ w2, files w2 !! cache_file k = None →
           (_get_cached_data c' w2 k).1.1 = PNone) ∧
    (_get_cached_data c' w k).1.1 = data.
Proof.
  intros Hinvalid Hfile Hlt. eexists. split.
  { unfold _get_cached_data. rewrite Hinvalid, Hfile.
    by rewrite bool_decide_eq_true_2. }
  assert (Hgone : ∀ w2,
    _is_cache_valid (set_cache c (delete k (_cache c)) (delete k (_cache_expiry c)))
      w2 k = false).
  { intros w2. unfold _is_cache_valid. cbn [_cache_expiry set_cache].
    by rewrite lookup_delete_eq. }
  cbn [_cache _cache_expiry set_cache]. rewrite !lookup_delete_eq.
  repeat split; [done|..].
  - intros w2 Hnone. unfold _get_cached_data. by rewrite Hgone, Hnone.
  - unfold _get_cached_data. rewrite Hgone, Hfile.
    by rewrite bool_decide_eq_true_2.
Qed.

(** *** The team resolver *)

(** Nothing in the request client touches the resolution cache or the
    team catalogue. *)
Lemma get_cached_keeps c w k :
  _team_id_cache (_get_cached_data c w k).1.2 = _team_id_cache c ∧
  _teams_cache (_get_cached_data c w k).1.2 = _teams_cache c.
Proof.
  unfold _get_cached_data. destruct (_is_cache_valid c w k); [done|].
  destruct (files w !! cache_file k) as [[[e|] d|]|]; try done.
  by case_bool_decide.
Qed.

Lemma attempts_keeps k endpoint ps ttl range c w :
  _team_id_cache (attempts up k endpoint ps ttl range c w).1.2 = _team_id_cache c ∧
  _teams_cache (attempts up k endpoint ps ttl range c w).1.2 = _teams_cache c.
Proof.
  revert w. induction range as [|attempt range IH]; intros w; [done|].
  simpl. destruct (up (length (sent w)) endpoint ps) as [status body| |msg];
    [|apply IH|done].
  destruct ((200 <=? status) && (status <? 300)); [by destruct body|].
  destruct (status =? 429); [apply IH|].
  destruct ((400 <=? status) && (status <? 500)); [done|apply IH].
Qed.

Lemma make_request_keeps c w endpoint ps ttl :
  _team_id_cache (_make_request key up c w endpoint ps ttl).1.2 = _team_id_cache c ∧
  _teams_cache (_make_request key up c w endpoint ps ttl).1.2 = _teams_cache c.
Proof.
  unfold _make_request.
  destruct (get_cached_keeps c w (key endpoint (pop_sport ps))) as [H1 H2].
  destruct (_get_cached_data c w (key endpoint (pop_sport ps))) as [[cached c1] w1].
  simpl in H1, H2. destruct (truthy cached); [done|].
  rewrite <- H1, <- H2. apply attempts_keeps.
Qed.

Lemma pages_keeps limit remaining offset all_teams c w :
  _team_id_cache (pages key up limit remaining offset all_teams c w).1.2
  = _team_id_cache c.
Proof.
  revert offset all_teams c w.
  induction remaining as [|remaining IH]; intros offset all_teams c w; [done|].
  cbn [pages].
  destruct (make_request_keeps c w teams_endpoint
              [("limit", PInt limit); ("offset", PInt offset)] 120) as [H _].
  destruct (_make_request key up c w teams_endpoint _ 120) as [[resp c1] w1].
  simpl in H. rewrite <- H.
  match goal with |- context [truthy ?d] => destruct (truthy d) end; [|done].
  cbn [negb].
  match goal with |- context [py_iter ?d] => destruct (py_iter d), (py_len d) end;
    try done.
  case_match; [done|apply IH].
Qed.

Lemma get_all_teams_keeps c w limit max_pages :
  _team_id_cache (get_all_teams key up c w limit max_pages).1.2 = _team_id_cache c.
Proof.
  unfold get_all_teams. destruct (truthy (_teams_cache c)); [done|].
  assert (Hfetch : ∀ c0, _team_id_cache c0 = _team_id_cache c →
    _team_id_cache
      (let '(r, c1, w1) := pages key up limit max_pages 0 [] c0 w in
       match r with
       | None => (None, c1, w1)
       | Some all_teams =>
           (Some (PList all_teams), set_teams_cache c1 (PList all_teams),
            if fs_writable w1
            then set_files w1 (<[teams_file :=
                                 Payload (Some (now w1 + 24 * 60 * us_per_minute))
                                         (Some (PList all_teams))]> (files w1))
            else w1)
       end).1.2 = _team_id_cache c).
  { intros c0 H0. pose proof (pages_keeps limit max_pages 0 [] c0 w) as H.
    destruct (pages key up limit max_pages 0 [] c0 w) as [[[r|] c1] w1];
      simpl in *; congruence. }
  destruct (files w !! teams_file) as [[[e|] d|]|]; try by apply Hfetch.
  case_bool_decide; [|by apply Hfetch].
  destruct (py_len (default (PList []) d)); [done|by apply Hfetch].
Qed.

Lemma warm_teams_cache_keeps c w league :
  _team_id_cache (warm_teams_cache key up c w league).1 = _team_id_cache c.
Proof.
  unfold warm_teams_cache. destruct (truthy (_teams_cache c)); [done|].
  destruct (make_request_keeps c w teams_endpoint [("league", PStr league)] 120)
    as [H _].
  destruct (_make_request key up c w teams_endpoint _ 120) as [[resp c1] w1].
  simpl in H. rewrite <- H.
  assert (Hall : _team_id_cache
            (let '(_, c'', w'') := get_all_teams key up c1 w1 500 5 in (c'', w'')).1
          = _team_id_cache c1).
  { pose proof (get_all_teams_keeps c1 w1 500 5) as Hk.
    by destruct (get_all_teams key up c1 w1 500 5) as [[r c2] w2]. }
  match goal with |- context [match ?d with PList _ => _ | _ => _ end] =>
    destruct d as [| | | | |[|first rest]|]; done end.
Qed.

Lemma warm_teams_cache_loaded c w league :
  truthy (_teams_cache c) = true → warm_teams_cache key up c w league = (c, w).
Proof. intros H. unfold warm_teams_cache. by rewrite H. Qed.

(** *** The two tiers of the response cache *)

(** X4.  What [_cache_data] stores is served by [_get_cached_data] from
    the in-process tier at every instant before the expiry, whatever the
    value (a falsy one too), and the lookup then changes nothing; from the
    expiry on, the entry is not valid any more.  With a ttl that is not
    positive the entry is never valid, not even at the instant it is
    stored. *)
Theorem cached_data_served_until_expiry c w k (data : pyval) ttl :
  let c' := (_cache_data c w k data ttl).1 in
  (∀ w2, now w2 < now w + ttl * us_per_minute →
         _get_cached_data c' w2 k = (data, c', w2)) ∧
  (∀ w2, now w + ttl * us_per_minute ≤ now w2 → _is_cache_valid c' w2 k = false) ∧
  (ttl ≤ 0 → _is_cache_valid c' w k = false).
Proof.
  intros c'.
  assert (Hvalid : ∀ w2, _is_cache_valid c' w2 k
                         = bool_decide (now w2 < now w + ttl * us_per_minute)).
  { intros w2. unfold _is_cache_valid. subst c'. cbn [_cache_data fst _cache_expiry set_cache].
    by rewrite lookup_insert_eq. }
  split; [|split].
  - intros w2 Hlt. rewrite get_cached_valid.
    + subst c'. cbn [_cache_data fst _cache set_cache]. by rewrite lookup_insert_eq.
    + rewrite Hvalid. by apply bool_decide_eq_true_2.
  - intros w2 Hle. rewrite Hvalid. apply bool_decide_eq_false_2. lia.
  - intros Httl. rewrite Hvalid. apply bool_decide_eq_false_2.
    unfold us_per_minute, us_per_second. lia.
Qed.

(** X5.  The file [_cache_data] writes outlives the client: when the cache
    directory accepts the write, any client that holds no valid entry for
    the key (a restarted one, for instance) is served the stored value
    from the file at every instant before the expiry, and the file stays.
    When the directory refuses the write, the failure is swallowed and
    nothing outside the client changes. *)
Theorem cached_data_survives_restart c w k (data : pyval) ttl :
  (fs_writable w = true →
   ∀ c0 w2,
     files w2 !! cache_file k = files (_cache_data c w k data ttl).2 !! cache_file k →
     _is_cache_valid c0 w2 k = false →
     now w2 < now w + ttl * us_per_minute →
     (_get_cached_data c0 w2 k).1.1 = data ∧ (_get_cached_data c0 w2 k).2 = w2) ∧
  (fs_writable w = false → (_cache_data c w k data ttl).2 = w).
Proof.
  split.
  - intros Hw c0 w2 Hfile Hinvalid Hlt. unfold _get_cached_data.
    rewrite Hinvalid, Hfile. unfold _cache_data. rewrite Hw.
    cbn [snd files set_files]. rewrite lookup_insert_eq.
    by rewrite bool_decide_eq_true_2.
  - intros Hw. unfold _cache_data. by rewrite Hw.
Qed.


(** X6.  A lookup that the in-process tier cannot answer leaves no entry
    for the key in either in-process dictionary, and touches no other key
    and no other file.  If the key's file has expired (or carries no
    expiry), nothing is served and the file is removed when the directory
    allows it; a file that cannot be read is never removed. *)
Theorem stale_lookup_evicts c w k :
  _is_cache_valid c w k = false →
  let r := (_get_cached_data c w k).1.1 in
  let c' := (_get_cached_data c w k).1.2 in
  let w' := (_get_cached_data c w k).2 in
  _cache c' !! k = None ∧ _cache_expiry c' !! k = None ∧
  (∀ k', k' ≠ k → _cache c' !! k' = _cache c !! k' ∧
                   _cache_expiry c' !! k' = _cache_expiry c !! k') ∧
  (∀ f, f ≠ cache_file k → files w' !! f = files w !! f) ∧
  (∀ e d, files w !! cache_file k = Some (Payload e d) →
          (∀ e', e = Some e' → e' ≤ now w) →
          r = PNone ∧
          (fs_writable w = true → files w' !! cache_file k = None) ∧
          (fs_writable w = false → w' = w)) ∧
  (files w !! cache_file k = Some Unreadable → r = PNone ∧ w' = w).
Proof.
  intros Hinvalid r c' w'. subst r c' w'. unfold _get_cached_data. rewrite Hinvalid.
  assert (Hc : ∀ (x : pyval * t * World)
                 (Hx : x.1.2 = set_cache c (delete k (_cache c)) (delete k (_cache_expiry c))),
             _cache x.1.2 !! k = None ∧ _cache_expiry x.1.2 !! k = None ∧
             (∀ k', k' ≠ k → _cache x.1.2 !! k' = _cache c !! k' ∧
                              _cache_expiry x.1.2 !! k' = _cache_expiry c !! k')).
  { intros x ->. cbn [_cache _cache_expiry set_cache]. rewrite !lookup_delete_eq.
    split; [done|]. split; [done|]. intros k' Hne. by rewrite !lookup_delete_ne. }
  assert (Hrm : ∀ f, f ≠ cache_file k →
            files (if fs_writable w then set_files w (delete (cache_file k) (files w)) else w)
              !! f = files w !! f).
  { intros f Hf. destruct (fs_writable w); [|done]. cbn [files set_files].
    by rewrite lookup_delete_ne. }
  destruct (files w !! cache_file k) as [[[e|] d|]|] eqn:Hfile.
  - case_bool_decide as Hlt.
    + destruct (Hc (default PNone d,
                    set_cache c (delete k (_cache c)) (delete k (_cache_expiry c)), w)
                   eq_refl) as (H1 & H2 & H3).
      split; [done|]. split; [done|]. split; [done|]. split; [done|].
      split; [|done]. intros e0 d0 [= <- <-] Hexp. specialize (Hexp e eq_refl). lia.
    + destruct (Hc (PNone,
                    set_cache c (delete k (_cache c)) (delete k (_cache_expiry c)),
                    if fs_writable w
                    then set_files w (delete (cache_file k) (files w)) else w)
                   eq_refl) as (H1 & H2 & H3).
      split; [done|]. split; [done|]. split; [done|]. split; [apply Hrm|].
      split; [|done]. intros e0 d0 _ _. cbn [fst snd]. split; [done|].
      split; intros ->; [|done]. cbn [files set_files]. apply lookup_delete_eq.
  - destruct (Hc (PNone,
                  set_cache c (delete k (_cache c)) (delete k (_cache_expiry c)),
                  if fs_writable w
                  then set_files w (delete (cache_file k) (files w)) else w)
                 eq_refl) as (H1 & H2 & H3).
    split; [done|]. split; [done|]. split; [done|]. split; [apply Hrm|].
    split; [|done]. intros e0 d0 _ _. cbn [fst snd]. split; [done|].
    split; intros ->; [|done]. cbn [files set_files]. apply lookup_delete_eq.
  - destruct (Hc (PNone,
                  set_cache c (delete k (_cache c)) (delete k (_cache_expiry c)), w)
                 eq_refl) as (H1 & H2 & H3).
    by repeat (split; [done|]).
  - destruct (Hc (PNone,
                  set_cache c (delete k (_cache c)) (delete k (_cache_expiry c)), w)
                 eq_refl) as (H1 & H2 & H3).
    by repeat (split; [done|]).
Qed.

(** *** The request loop *)

(** An attempt with an outcome to retry on sleeps and hands over to the
    next one. *)
Lemma attempts_retried k endpoint ps ttl attempt range c w :
  retried (up (length (sent w)) endpoint ps) = true →
  attempts up k endpoint ps ttl (attempt :: range) c w
  = attempts up k endpoint ps ttl range c
      (sleep (client_get up w endpoint ps).2 (2 ^ Z.of_nat attempt)).
Proof.
  intros Hr. cbn [attempts client_get fst snd].
  destruct (up (length (sent w)) endpoint ps) as [status body| |msg]; [|done|done].
  cbn [retried] in Hr.
  destruct ((200 <=? status) && (status <? 300)); [done|].
  destruct (status =? 429); [done|].
  by destruct ((400 <=? status) && (status <? 500)).
Qed.

(** An attempt with any other outcome ends the loop: one request more,
    no sleep, the clock where it was. *)
Lemma attempts_final k endpoint ps ttl attempt range c w :
  retried (up (length (sent w)) endpoint ps) = false →
  sent (attempts up k endpoint ps ttl (attempt :: range) c w).2
  = sent w ++ [(endpoint, ps)] ∧
  slept (attempts up k endpoint ps ttl (attempt :: range) c w).2 = slept w ∧
  now (attempts up k endpoint ps ttl (attempt :: range) c w).2 = now w.
Proof.
  intros Hr. cbn [attempts client_get fst snd].
  destruct (up (length (sent w)) endpoint ps) as [status body| |msg]; [|done|done].
  cbn [retried] in Hr.
  destruct ((200 <=? status) && (status <? 300)).
  { destruct body; [|done|done]. unfold _cache_data. cbn [fs_writable].
    by destruct (fs_writable w). }
  destruct (status =? 429); [done|].
  by destruct ((400 <=? status) && (status <? 500)).
Qed.

(** The trace of a run of the loop: one request per attempt made, one
    sleep after each attempt but possibly the last. *)
Lemma attempts_trace k endpoint ps ttl range c w :
  ∃ n m : nat,
    (n ≤ length range)%nat ∧ (m = n ∨ S m = n) ∧
    sent (attempts up k endpoint ps ttl range c w).2
    = sent w ++ replicate n (endpoint, ps) ∧
    slept (attempts up k endpoint ps ttl range c w).2
    = slept w ++ ((λ a, 2 ^ Z.of_nat a) <$> take m range).
Proof.
  revert w. induction range as [|attempt range IH]; intros w.
  - exists 0%nat, 0%nat. simpl. rewrite !app_nil_r. auto.
  - destruct (retried (up (length (sent w)) endpoint ps)) eqn:Hr.
    + rewrite (attempts_retried _ _ _ _ _ _ _ _ Hr).
      destruct (IH (sleep (client_get up w endpoint ps).2 (2 ^ Z.of_nat attempt)))
        as (n & m & Hn & Hm & -> & ->).
      exists (S n), (S m). cbn [length sent slept sleep client_get snd].
      split; [lia|]. split; [lia|]. by rewrite <- !app_assoc.
    + destruct (attempts_final k endpoint ps ttl attempt range c w Hr) as (-> & -> & _).
      exists 1%nat, 0%nat. cbn [length]. split; [lia|]. split; [auto|].
      by rewrite app_nil_r.
Qed.

(** The trace of a request: that of its loop, or nothing on a hit. *)
Lemma make_request_trace c w endpoint ps ttl :
  ∃ n m : nat,
    (n ≤ 4)%nat ∧ (m = n ∨ S m = n) ∧
    sent (_make_request key up c w endpoint ps ttl).2
    = sent w ++ replicate n (endpoint, pop_sport ps) ∧
    slept (_make_request key up c w endpoint ps ttl).2
    = slept w ++ take m [1; 2; 4; 8].
Proof.
  unfold _make_request.
  destruct (get_cached_frame c w (key endpoint (pop_sport ps))) as (_ & Hsent & Hslept).
  destruct (_get_cached_data c w (key endpoint (pop_sport ps))) as [[cached c1] w1].
  cbn [fst snd] in Hsent, Hslept.
  destruct (truthy cached).
  - exists 0%nat, 0%nat. cbn [snd replicate take]. rewrite !app_nil_r.
    split; [lia|]. auto.
  - destruct (attempts_trace (key endpoint (pop_sport ps)) endpoint (pop_sport ps) ttl
                (seq 0 max_attempts) c1 w1) as (n & m & Hn & Hm & -> & ->).
    exists n, m. rewrite Hsent, Hslept. split; [done|]. split; [done|].
    split; [done|]. f_equal. by rewrite fmap_take.
Qed.

(** X7.  A request bounds its own cost, whatever the upstream does: it
    sends at most four requests, all with the same endpoint and
    parameters, and sleeps after each but possibly the last, for 1, 2, 4
    and 8 seconds in that order; and the parameters sent never carry a
    ["sport"] entry. *)
Theorem make_request_bounded c w endpoint ps ttl :
  let w' := (_make_request key up c w endpoint ps ttl).2 in
  ∃ n m : nat,
    (n ≤ 4)%nat ∧ (m = n ∨ S m = n) ∧
    sent w' = sent w ++ replicate n (endpoint, pop_sport ps) ∧
    slept w' = slept w ++ take m [1; 2; 4; 8] ∧
    ∀ v, ("sport"%string, v) ∉ pop_sport ps.
Proof.
  intros w'. subst w'.
  destruct (make_request_trace c w endpoint ps ttl) as (n & m & Hn & Hm & Hsent & Hslept).
  exists n, m. split; [done|]. split; [done|]. split; [done|]. split; [done|].
  intros v Hin. unfold pop_sport in Hin.
  apply list_elem_of_filter in Hin as [Hne _]. by apply Hne.
Qed.

(** The loop recovers: after [j] attempts with an outcome to retry on, an
    attempt answered with a 2xx status and a JSON body ends it, with the
    body returned and cached at the instant reached. *)
Lemma attempts_recover k endpoint ps ttl status (data : pyval) (j : nat) :
  200 ≤ status < 300 →
  ∀ a len c w,
    (j < len)%nat →
    (∀ i, (i < j)%nat → retried (up (length (sent w) + i)%nat endpoint ps) = true) →
    up (length (sent w) + j)%nat endpoint ps = Responded status (Json data) →
    ∃ w',
      attempts up k endpoint ps ttl (seq a len) c w
      = (data,
         set_cache c (<[k := data]> (_cache c))
           (<[k := now w' + ttl * us_per_minute]> (_cache_expiry c)), w') ∧
      sent w' = sent w ++ replicate (S j) (endpoint, ps) ∧
      slept w' = slept w ++ ((λ a, 2 ^ Z.of_nat a) <$> seq a j) ∧
      now w' = now w + (2 ^ Z.of_nat (a + j) - 2 ^ Z.of_nat a) * us_per_second ∧
      (fs_writable w = true →
       files w' !! cache_file k
       = Some (Payload (Some (now w' + ttl * us_per_minute)) (Some data))).
Proof.
  intros Hst. induction j as [|j IH]; intros a len c w Hlen Hretry Hok.
  - destruct len as [|len]; [lia|]. rewrite Nat.add_0_r in Hok.
    cbn [seq attempts client_get fst snd]. rewrite Hok.
    destruct ((200 <=? status) && (status <? 300)) eqn:E; [|lia].
    unfold _cache_data. cbn [now fs_writable files sent slept].
    match goal with |- ∃ w', (_, _, ?W) = _ ∧ _ => exists W end.
    rewrite Nat.add_0_r.
    destruct (fs_writable w) eqn:Hw; cbn [sent slept now files set_files].
    + rewrite app_nil_r, lookup_insert_eq.
      split; [done|]. split; [done|]. split; [done|]. split; [lia|done].
    + rewrite app_nil_r.
      split; [done|]. split; [done|]. split; [done|]. split; [lia|done].
  - destruct len as [|len]; [lia|]. cbn [seq].
    rewrite attempts_retried.
    2:{ specialize (Hretry 0%nat). rewrite Nat.add_0_r in Hretry. apply Hretry. lia. }
    destruct (IH (S a) len c (sleep (client_get up w endpoint ps).2 (2 ^ Z.of_nat a)))
      as (w' & -> & Hsent & Hslept & Hnow & Hfile).
    { lia. }
    { intros i Hi. cbn [sent sleep client_get snd]. rewrite length_app. cbn [length].
      replace (length (sent w) + 1 + i)%nat with (length (sent w) + S i)%nat by lia.
      apply Hretry. lia. }
    { cbn [sent sleep client_get snd]. rewrite length_app. cbn [length].
      by replace (length (sent w) + 1 + j)%nat with (length (sent w) + S j)%nat by lia. }
    exists w'. split; [done|].
    cbn [sent slept now sleep client_get snd fs_writable] in Hsent, Hslept, Hnow, Hfile.
    rewrite Hsent, Hslept, <- !app_assoc. split; [done|]. split; [done|].
    split; [|done]. rewrite Hnow.
    replace (Z.of_nat (S a + j)) with (Z.succ (Z.of_nat (a + j))) by lia.
    replace (Z.of_nat (a + S j)) with (Z.succ (Z.of_nat (a + j))) by lia.
    replace (Z.of_nat (S a)) with (Z.succ (Z.of_nat a)) by lia.
    rewrite !Z.pow_succ_r by lia. lia.
Qed.

(** X8.  A request recovers from transient failures.  When the cache has
    nothing to serve, the first [j] attempts (fewer than four) meet
    status 429, a server error or a request error, and the next one is
    answered with a 2xx status and a JSON body, [_make_request] returns
    that body after exactly [j + 1] requests and sleeps of 1, 2, ...
    seconds, doubling, one per failed attempt, and caches the body under
    the request's key with the ttl counted from the instant it arrived. *)
Theorem transient_failures_recovered c w endpoint ps ttl (j : nat) status (data : pyval) :
  let clean := pop_sport ps in
  let k := key endpoint clean in
  truthy (_get_cached_data c w k).1.1 = false →
  (j < max_attempts)%nat →
  (∀ i, (i < j)%nat → retried (up (length (sent w) + i)%nat endpoint clean) = true) →
  up (length (sent w) + j)%nat endpoint clean = Responded status (Json data) →
  200 ≤ status < 300 →
  ∃ c' w',
    _make_request key up c w endpoint ps ttl = (data, c', w') ∧
    sent w' = sent w ++ replicate (S j) (endpoint, clean) ∧
    slept w' = slept w ++ ((λ a, 2 ^ Z.of_nat a) <$> seq 0 j) ∧
    now w' = now w + (2 ^ Z.of_nat j - 1) * us_per_second ∧
    _cache c' !! k = Some data ∧
    _cache_expiry c' !! k = Some (now w' + ttl * us_per_minute).
Proof.
  intros clean k Hmiss Hj Hretry Hok Hst. unfold _make_request. fold clean. fold k.
  destruct (get_cached_frame c w k) as (Hnow & Hsent & Hslept).
  destruct (_get_cached_data c w k) as [[cached c1] w1].
  cbn [fst snd] in Hmiss, Hnow, Hsent, Hslept. rewrite Hmiss.
  destruct (attempts_recover k endpoint clean ttl status data j Hst 0%nat max_attempts c1 w1)
    as (w' & -> & Hs & Hz & Hn & _).
  { done. }
  { intros i Hi. rewrite Hsent. by apply Hretry. }
  { by rewrite Hsent. }
  eexists _, w'. split; [reflexivity|].
  cbn [_cache _cache_expiry set_cache]. rewrite !lookup_insert_eq.
  rewrite Hs, Hz, Hn, Hsent, Hslept, Hnow. cbn [Nat.add].
  split; [done|]. split; [done|]. split; [|done].
  change (2 ^ Z.of_nat 0) with 1. lia.
Qed.




(** X11.  A successful answer is reused.  When the cache has nothing to
    serve and the endpoint answers with a 2xx status and a truthy JSON
    body, [_make_request] returns the body after one request; from then
    until the expiry, the same request (with or without a ["sport"]
    parameter) is answered with that body without any request or sleep,
    by this client from its in-process tier, and, when the cache
    directory accepted the write, by any client without a valid entry
    from the file. *)
Theorem successful_response_reused c w endpoint ps ttl status (data : pyval) :
  let clean := pop_sport ps in
  let k := key endpoint clean in
  truthy (_get_cached_data c w k).1.1 = false →
  up (length (sent w)) endpoint clean = Responded status (Json data) →
  200 ≤ status < 300 →
  truthy data = true →
  ∃ c' w',
    _make_request key up c w endpoint ps ttl = (data, c', w') ∧
    sent w' = sent w ++ [(endpoint, clean)] ∧
    slept w' = slept w ∧
    (∀ w2 ps2 ttl2,
       pop_sport ps2 = clean →
       now w2 < now w + ttl * us_per_minute →
       _make_request key up c' w2 endpoint ps2 ttl2 = (data, c', w2)) ∧
    (fs_writable w = true →
     ∀ c0 w2 ps2 ttl2,
       pop_sport ps2 = clean →
       _is_cache_valid c0 w2 k = false →
       files w2 !! cache_file k = files w' !! cache_file k →
       now w2 < now w + ttl * us_per_minute →
       (_make_request key up c0 w2 endpoint ps2 ttl2).1.1 = data ∧
       (_make_request key up c0 w2 endpoint ps2 ttl2).2 = w2).
Proof.
  intros clean k Hmiss Hup Hst Hdata. unfold _make_request at 1. fold clean. fold k.
  destruct (get_cached_frame c w k) as (Hnow & Hsent & Hslept).
  assert (Hfs : fs_writable (_get_cached_data c w k).2 = fs_writable w).
  { unfold _get_cached_data. destruct (_is_cache_valid c w k); [done|].
    destruct (files w !! cache_file k) as [[[e|] d|]|]; simpl; try done;
      repeat case_bool_decide; destruct (fs_writable w) eqn:Hw; simpl; done. }
  destruct (_get_cached_data c w k) as [[cached c1] w1].
  cbn [fst snd] in Hmiss, Hnow, Hsent, Hslept, Hfs. rewrite Hmiss.
  destruct (attempts_recover k endpoint clean ttl status data 0 Hst 0%nat max_attempts c1 w1)
    as (w' & -> & Hs & Hz & Hn & Hfile).
  { unfold max_attempts. lia. }
  { intros i Hi. lia. }
  { by rewrite Nat.add_0_r, Hsent. }
  rewrite Hfs in Hfile. cbn [Nat.add Z.of_nat Z.pow] in Hn.
  assert (Hnow' : now w' = now w) by lia.
  eexists _, w'. split; [reflexivity|].
  rewrite Hs, Hz, Hsent, Hslept. cbn [replicate seq fmap list_fmap].
  rewrite app_nil_r. split; [done|]. split; [done|]. split.
  - intros w2 ps2 ttl2 Hps Hlt. unfold _make_request. rewrite Hps. fold k.
    rewrite get_cached_valid.
    + cbn [_cache set_cache fst]. rewrite lookup_insert_eq.
      change (default PNone (Some data)) with data. by rewrite Hdata.
    + unfold _is_cache_valid. cbn [_cache_expiry set_cache]. rewrite lookup_insert_eq.
      apply bool_decide_eq_true_2. lia.
  - intros Hw c0 w2 ps2 ttl2 Hps Hinvalid Hf Hlt. unfold _make_request.
    rewrite Hps. fold k. unfold _get_cached_data.
    rewrite Hinvalid, Hf, (Hfile Hw).
    rewrite bool_decide_eq_true_2 by lia.
    change (default PNone (Some data)) with data. by rewrite Hdata.
Qed.

(** *** Requests of the team catalogue and of the resolvers *)

Lemma sends_refl w endpoint : sends w w endpoint 0.
Proof. exists []. by rewrite app_nil_r. Qed.

Lemma sends_weaken w w' endpoint (n m : nat) :
  (n ≤ m)%nat → sends w w' endpoint n → sends w w' endpoint m.
Proof. intros Hle (rest & Hs & Hl & Hall). exists rest. split; [done|]. split; [lia|done]. Qed.

Lemma sends_trans w1 w2 w3 endpoint (n m : nat) :
  sends w1 w2 endpoint n → sends w2 w3 endpoint m → sends w1 w3 endpoint (n + m).
Proof.
  intros (r1 & Hs1 & Hl1 & Ha1) (r2 & Hs2 & Hl2 & Ha2). exists (r1 ++ r2).
  rewrite Hs2, Hs1, <- app_assoc, length_app. split; [done|]. split; [lia|].
  by apply Forall_app.
Qed.

Lemma make_request_sends_bound c w endpoint ps ttl :
  sends w (_make_request key up c w endpoint ps ttl).2 endpoint 4.
Proof.
  destruct (make_request_trace c w endpoint ps ttl) as (n & m & Hn & _ & Hsent & _).
  exists (replicate n (endpoint, pop_sport ps)). split; [done|].
  rewrite length_replicate. split; [done|].
  apply Forall_forall. intros x Hx. apply elem_of_replicate in Hx as [-> _]. done.
Qed.

(** Whether the cache directory accepts writes is not for the client to
    change. *)
Lemma get_cached_fs c w k : fs_writable (_get_cached_data c w k).2 = fs_writable w.
Proof.
  unfold _get_cached_data. destruct (_is_cache_valid c w k); [done|].
  destruct (files w !! cache_file k) as [[[e|] d|]|]; simpl; try done;
    repeat case_bool_decide; destruct (fs_writable w) eqn:Hw; simpl; done.
Qed.

Lemma attempts_fs k endpoint ps ttl range c w :
  fs_writable (attempts up k endpoint ps ttl range c w).2 = fs_writable w.
Proof.
  revert w. induction range as [|attempt range IH]; intros w; [done|].
  cbn [attempts client_get fst snd].
  destruct (up (length (sent w)) endpoint ps) as [status body| |msg];
    [|by rewrite IH|done].
  destruct ((200 <=? status) && (status <? 300)).
  { destruct body; [|done|done]. unfold _cache_data. cbn [fs_writable].
    by destruct (fs_writable w) eqn:Hw. }
  destruct (status =? 429); [by rewrite IH|].
  destruct ((400 <=? status) && (status <? 500)); [done|by rewrite IH].
Qed.

Lemma make_request_fs c w endpoint ps ttl :
  fs_writable (_make_request key up c w endpoint ps ttl).2 = fs_writable w.
Proof.
  unfold _make_request.
  pose proof (get_cached_fs c w (key endpoint (pop_sport ps))) as Hfs.
  destruct (_get_cached_data c w (key endpoint (pop_sport ps))) as [[cached c1] w1].
  cbn [snd] in Hfs. destruct (truthy cached); [done|]. by rewrite attempts_fs.
Qed.

Lemma pages_world limit remaining offset all_teams c w :
  sends w (pages key up limit remaining offset all_teams c w).2 teams_endpoint
    (4 * remaining) ∧
  fs_writable (pages key up limit remaining offset all_teams c w).2 = fs_writable w.
Proof.
  revert offset all_teams c w.
  induction remaining as [|remaining IH]; intros offset all_teams c w.
  { split; [apply sends_refl|done]. }
  cbn [pages].
  pose proof (make_request_sends_bound c w teams_endpoint
                [("limit", PInt limit); ("offset", PInt offset)] 120) as Hs.
  pose proof (make_request_fs c w teams_endpoint
                [("limit", PInt limit); ("offset", PInt offset)] 120) as Hfs.
  destruct (_make_request key up c w teams_endpoint _ 120) as [[resp c1] w1].
  cbn [snd] in Hs, Hfs.
  assert (Hstop : sends w w1 teams_endpoint (4 * S remaining)).
  { eapply sends_weaken; [|done]. lia. }
  match goal with |- context [truthy ?d] => destruct (truthy d) end; [|done].
  cbn [negb].
  match goal with |- context [py_iter ?d] => destruct (py_iter d), (py_len d) end;
    try done.
  case_match; [done|].
  destruct (IH (offset + limit) (all_teams ++ l) c1 w1) as [Hs' Hfs'].
  split; [|congruence].
  apply (sends_weaken _ _ _ (4 + 4 * remaining)); [lia|].
  exact (sends_trans _ _ _ _ _ _ Hs Hs').
Qed.

Lemma get_all_teams_world c w limit max_pages :
  sends w (get_all_teams key up c w limit max_pages).2 teams_endpoint (4 * max_pages) ∧
  fs_writable (get_all_teams key up c w limit max_pages).2 = fs_writable w.
Proof.
  unfold get_all_teams. destruct (truthy (_teams_cache c)).
  { split; [|done]. eapply sends_weaken; [|apply sends_refl]. lia. }
  assert (Hfetch : ∀ c0,
    let out :=
      (let '(r, c1, w1) := pages key up limit max_pages 0 [] c0 w in
       match r with
       | None => (None, c1, w1)
       | Some all_teams =>
           (Some (PList all_teams), set_teams_cache c1 (PList all_teams),
            if fs_writable w1
            then set_files w1 (<[teams_file :=
                                 Payload (Some (now w1 + 24 * 60 * us_per_minute))
                                         (Some (PList all_teams))]> (files w1))
            else w1)
       end) in
    sends w out.2 teams_endpoint (4 * max_pages) ∧ fs_writable out.2 = fs_writable w).
  { intros c0. destruct (pages_world limit max_pages 0 [] c0 w) as [Hs Hfs].
    destruct (pages key up limit max_pages 0 [] c0 w) as [[[r|] c1] w1];
      cbn [snd] in *; [|done].
    destruct (fs_writable w1) eqn:Hw; (split; [exact Hs|simpl; congruence]). }
  destruct (files w !! teams_file) as [[[e|] d|]|]; try by apply Hfetch.
  case_bool_decide; [|by apply Hfetch].
  destruct (py_len (default (PList []) d)); [|by apply Hfetch].
  split; [|done]. eapply sends_weaken; [|apply sends_refl]. lia.
Qed.

Lemma warm_teams_cache_sends c w league :
  sends w (warm_teams_cache key up c w league).2 teams_endpoint 24.
Proof.
  unfold warm_teams_cache. destruct (truthy (_teams_cache c)).
  { eapply sends_weaken; [|apply sends_refl]. lia. }
  pose proof (make_request_sends_bound c w teams_endpoint [("league", PStr league)] 120)
    as Hs.
  destruct (_make_request key up c w teams_endpoint _ 120) as [[resp c1] w1].
  cbn [snd] in Hs.
  assert (Hone : sends w w1 teams_endpoint 24).
  { eapply sends_weaken; [|done]. lia. }
  assert (Hall : sends w
            (let '(_, c'', w'') := get_all_teams key up c1 w1 500 5 in (c'', w'')).2
            teams_endpoint 24).
  { destruct (get_all_teams_world c1 w1 500 5) as [Hs' _].
    destruct (get_all_teams key up c1 w1 500 5) as [[r c2] w2]. cbn [snd] in *.
    apply (sends_weaken _ _ _ (4 + 4 * 5)); [lia|].
    exact (sends_trans _ _ _ _ _ _ Hs Hs'). }
  match goal with |- context [match ?d with PList _ => _ | _ => _ end] =>
    destruct d as [| | | | |[|first rest]|]; done end.
Qed.

Lemma resolve_team_id_sends c w name display_name abbreviation league r c' w' :
  resolve_team_id key up c w name display_name abbreviation league = Some (r, c', w') →
  sends w w' teams_endpoint 28 ∧
  (truthy (_teams_cache c) = true → sends w w' teams_endpoint 4).
Proof.
  unfold resolve_team_id. intros Hres.
  pose proof (warm_teams_cache_sends c w league) as Hwarm.
  pose proof (warm_teams_cache_loaded c w league) as Hloaded.
  destruct (warm_teams_cache key up c w league) as [c1 w1]. cbn [snd] in Hwarm.
  assert (Hw1 : truthy (_teams_cache c) = true → w1 = w).
  { intros Ht. specialize (Hloaded Ht). congruence. }
  destruct (_team_id_cache c1 !! _) as [team_id|].
  { inversion Hres; subst. split.
    - eapply sends_weaken; [|done]. lia.
    - intros Ht. rewrite (Hw1 Ht). eapply sends_weaken; [|apply sends_refl]. lia. }
  match type of Hres with context [_make_request key up c1 w1 ?ep ?ps ?ttl] =>
    pose proof (make_request_sends_bound c1 w1 ep ps ttl) as Hreq;
    destruct (_make_request key up c1 w1 ep ps ttl) as [[result c2] w2]
  end.
  cbn [snd] in Hreq.
  assert (Hw2 : w' = w2).
  { match type of Hres with
    | match ?res with PList _ => _ | _ => _ end = _ =>
        destruct res as [| | | | |[|first rest]|]; try by inversion Hres
    end.
    simpl in Hres. destruct (py_get first "id") as [team_id|]; [|done].
    simpl in Hres. destruct (is_int team_id); by inversion Hres. }
  subst w'. split.
  - apply (sends_weaken _ _ _ (24 + 4)); [lia|].
    exact (sends_trans _ _ _ _ _ _ Hwarm Hreq).
  - intros Ht. rewrite <- (Hw1 Ht). done.
Qed.

(** X12.  The team lookups bound their cost and keep to one endpoint.
    [get_all_teams] sends at most four requests for each page it is
    allowed, and [resolve_team_id], when it returns, at most 28 (four for
    the league-scoped warm-up, twenty for the bootstrap of five pages,
    four for the lookup itself), at most four once the catalogue is
    loaded; every one of them goes to ["/teams"]. *)
Theorem team_lookups_bounded c w :
  (∀ limit max_pages,
     sends w (get_all_teams key up c w limit max_pages).2 teams_endpoint (4 * max_pages)) ∧
  (∀ name display_name abbreviation league r c' w',
     resolve_team_id key up c w name display_name abbreviation league = Some (r, c', w') →
     sends w w' teams_endpoint 28 ∧
     (truthy (_teams_cache c) = true → sends w w' teams_endpoint 4)).
Proof.
  split.
  - intros limit max_pages. apply get_all_teams_world.
  - intros name display_name abbreviation league r c' w'. apply resolve_team_id_sends.
Qed.

(** X13.  A fetched catalogue is kept.  When the client has no catalogue
    and the cache directory holds no unexpired one, a [get_all_teams]
    that returns has fetched the teams; it leaves them in
    [_teams_cache], so that, if there is at least one, every later call
    returns them without a request; and, when the directory accepts the
    write, it leaves them in a file from which any client without a
    catalogue (this one when the fetch came back empty, or a restarted
    one) is served for 24 hours without a request, an empty catalogue
    included. *)
Theorem team_catalogue_persisted c w limit max_pages (teams : pyval) c' w' :
  truthy (_teams_cache c) = false →
  (∀ e d, files w !! teams_file = Some (Payload (Some e) d) → e ≤ now w) →
  get_all_teams key up c w limit max_pages = (Some teams, c', w') →
  _teams_cache c' = teams ∧
  (truthy teams = true →
   ∀ w2 limit2 max_pages2,
     get_all_teams key up c' w2 limit2 max_pages2 = (Some teams, c', w2)) ∧
  (fs_writable w = true →
   ∀ c2 w2 limit2 max_pages2,
     truthy (_teams_cache c2) = false →
     files w2 !! teams_file = files w' !! teams_file →
     now w2 < now w' + 24 * 60 * us_per_minute →
     get_all_teams key up c2 w2 limit2 max_pages2
     = (Some teams, set_teams_cache c2 teams, w2)).
Proof.
  intros Hempty Hdisk. unfold get_all_teams at 1. rewrite Hempty.
  assert (Hnone : match files w !! teams_file with
                  | Some (Payload (Some e) data) =>
                      if bool_decide (now w < e) then Some (default (PList []) data)
                      else None
                  | _ => None
                  end = None).
  { destruct (files w !! teams_file) as [[[e|] d|]|] eqn:Hf; try done.
    rewrite bool_decide_eq_false_2; [done|]. specialize (Hdisk e d eq_refl). lia. }
  rewrite Hnone.
  destruct (pages_world limit max_pages 0 [] c w) as [_ Hfs].
  destruct (pages key up limit max_pages 0 [] c w) as [[[all_teams|] c1] w1];
    cbn [snd] in Hfs; [|done].
  intros [= <- <- <-]. split; [done|]. split.
  - intros Ht w2 limit2 max_pages2. unfold get_all_teams.
    cbn [_teams_cache set_teams_cache]. by rewrite Ht.
  - intros Hw c2 w2 limit2 max_pages2 Hc2 Hfile Hlt. unfold get_all_teams.
    rewrite Hfs, Hw in Hfile, Hlt. cbn [files set_files now] in Hfile, Hlt.
    rewrite lookup_insert_eq in Hfile.
    rewrite Hc2, Hfile. by rewrite bool_decide_eq_true_2.
Qed.

(** [dict.get] on a dict with one more entry at its end. *)
Lemma items_get_snoc (d : list (string * pyval)) k0 v0 k :
  items_get (d ++ [(k0, v0)]) k
  = match items_get d k with
    | Some v => Some v
    | None => if bool_decide (k0 = k) then Some v0 else None
    end.
Proof.
  induction d as [|[k' v'] d IH]; [simpl; by case_bool_decide|].
  cbn [app items_get]. by destruct (bool_decide (k' = k)).
Qed.

(** X14.  [get_head_to_head] asks for the head-to-head only when both
    teams resolve to a truthy id.  If either id is [None] or 0, it
    returns the empty list and every request made went to ["/teams"].
    Otherwise it makes the ["/head-2-head"] request with the two ids, and
    what it returns reads like the response: the matches the agent
    extracts from it are those of the response, every field of a dict
    response is kept, and a list response becomes the ["data"] of the
    result. *)
Theorem head_to_head_needs_both_teams c w one two league id1 c1 w1 id2 c2 w2 :
  resolve_team_id key up c w one EmptyString EmptyString league = Some (id1, c1, w1) →
  resolve_team_id key up c1 w1 two EmptyString EmptyString league = Some (id2, c2, w2) →
  let request :=
    _make_request key up c2 w2 head2head_endpoint
      [("teamIdOne", id1); ("teamIdTwo", id2)]%string 30 in
  (truthy id1 = false ∨ truthy id2 = false →
   get_head_to_head key up c w one two league = Some (PList [], c2, w2) ∧
   sends w w2 teams_endpoint 56) ∧
  (truthy id1 = true → truthy id2 = true →
   ∃ r,
     get_head_to_head key up c w one two league = Some (r, request.1.2, request.2) ∧
     Agent.h2h_matches r = Agent.h2h_matches request.1.1 ∧
     (∀ d k v, request.1.1 = PDict d → items_get d k = Some v → py_get r k = Some v) ∧
     (∀ l, request.1.1 = PList l → py_get r "data" = Some (PList l))).
Proof.
  intros H1 H2 request. unfold get_head_to_head. rewrite H1. cbn [mbind option_bind].
  rewrite H2. cbn [mbind option_bind]. split.
  - intros Hfalsy.
    assert (Hor : negb (truthy id1) || negb (truthy id2) = true).
    { destruct Hfalsy as [-> | ->]; [done|]. by destruct (truthy id1). }
    rewrite Hor. split; [done|].
    destruct (resolve_team_id_sends _ _ _ _ _ _ _ _ _ H1) as [Hs1 _].
    destruct (resolve_team_id_sends _ _ _ _ _ _ _ _ _ H2) as [Hs2 _].
    exact (sends_trans _ _ _ _ _ _ Hs1 Hs2).
  - intros Ht1 Ht2. rewrite Ht1, Ht2. cbn [negb orb]. subst request.
    destruct (_make_request key up c2 w2 head2head_endpoint _ 30) as [[resp c3] w3].
    cbn [fst snd]. eexists. split; [reflexivity|].
    destruct resp as [| | | | |l|d]; try done.
    + split; [by destruct l|]. split; [done|]. by intros l' [= ->].
    + destruct (items_get d "_audit") as [a|] eqn:Ha.
      * split; [done|]. split; [|done]. intros d' k v [= <-] Hk.
        unfold py_get, dict_get. by rewrite Hk.
      * split.
        { unfold Agent.h2h_matches. rewrite items_get_snoc.
          destruct (items_get d "data"); [done|]. by rewrite bool_decide_eq_false_2. }
        split; [|done]. intros d' k v [= <-] Hk.
        unfold py_get, dict_get. by rewrite items_get_snoc, Hk.
Qed.

(** X15.  [find_match_id_by_abbrevs] caches the ids it finds and nothing
    else.  A call that returns [None] leaves the id cache as it was; a
    call that returns an [int] leaves it under the key of the teams in
    the order given (also when the match was found with the teams
    swapped), and no call touches another key.  A cached id has no
    expiry: it is returned at any later instant without a request.  A
    call sends at most eight requests, all to ["/matches"]. *)
Theorem match_id_cached_for_good c ids w league date season home away r c' ids' w' :
  find_match_id_by_abbrevs key up c ids w league date season home away
  = Some (r, c', ids', w') →
  let cache_key := match_id_key league date season home away in
  (r = PNone → ids' = ids) ∧
  (is_int r = true → ids' !! cache_key = Some r) ∧
  (∀ k, k ≠ cache_key → ids' !! k = ids !! k) ∧
  (is_int r = true →
   ∀ c2 w2,
     find_match_id_by_abbrevs key up c2 ids' w2 league date season home away
     = Some (r, c2, ids', w2)) ∧
  sends w w' matches_endpoint 8.
Proof.
  intros Hfind cache_key.
  assert (Hhit : ∀ m, m !! cache_key = Some r → ∀ c2 w2,
            find_match_id_by_abbrevs key up c2 m w2 league date season home away
            = Some (r, c2, m, w2)).
  { intros m Hm c2 w2. unfold find_match_id_by_abbrevs. fold cache_key. by rewrite Hm. }
  assert (Hstored : ∀ mid c0 w0, is_int mid = true → sends w w0 matches_endpoint 8 →
            Some (mid, c0, <[cache_key := mid]> ids, w0) = Some (r, c', ids', w') →
            (r = PNone → ids' = ids) ∧
            (is_int r = true → ids' !! cache_key = Some r) ∧
            (∀ k, k ≠ cache_key → ids' !! k = ids !! k) ∧
            (is_int r = true →
             ∀ c2 w2,
               find_match_id_by_abbrevs key up c2 ids' w2 league date season home away
               = Some (r, c2, ids', w2)) ∧
            sends w w' matches_endpoint 8).
  { intros mid c0 w0 Hint Hs [= <- <- <- <-].
    split; [by intros ->|]. split; [by rewrite lookup_insert_eq|].
    split; [by intros k Hk; rewrite lookup_insert_ne|].
    split; [|done]. intros _. apply Hhit. by rewrite lookup_insert_eq. }
  unfold find_match_id_by_abbrevs in Hfind. fold cache_key in Hfind.
  destruct (ids !! cache_key) as [mid|] eqn:Hids.
  { inversion Hfind; subst. split; [done|]. split; [done|]. split; [done|].
    split; [intros _; by apply Hhit|].
    eapply sends_weaken; [|apply sends_refl]. lia. }
  unfold search_matches_by_abbrev in Hfind.
  match type of Hfind with context [_make_request key up c w ?ep ?ps ?ttl] =>
    pose proof (make_request_sends_bound c w ep ps ttl) as Hs1;
    destruct (_make_request key up c w ep ps ttl) as [[resp c1] w1]
  end.
  cbn [snd] in Hs1.
  destruct (first_match_id resp) as [[mid|]|] eqn:Hfirst; [| |done];
    cbn [mbind option_bind] in Hfind.
  { assert (Hint : is_int mid = true).
    { unfold first_match_id in Hfirst.
      destruct (match resp with PDict d => _ | _ => _ end) as [| | | | |[|first l]|];
        try done.
      destruct (py_get first "id") as [m|]; [|done]. cbn [mbind option_bind] in Hfirst.
      destruct (is_int m) eqn:Hm; by inversion Hfirst; subst. }
    eapply Hstored; [exact Hint| |exact Hfind].
    eapply sends_weaken; [|exact Hs1]. lia. }
  match type of Hfind with context [_make_request key up c1 w1 ?ep ?ps ?ttl] =>
    pose proof (make_request_sends_bound c1 w1 ep ps ttl) as Hs2;
    destruct (_make_request key up c1 w1 ep ps ttl) as [[resp2 c2] w2]
  end.
  cbn [snd] in Hs2.
  pose proof (sends_trans _ _ _ _ _ _ Hs1 Hs2) as Hs.
  destruct (first_match_id resp2) as [[mid|]|] eqn:Hsecond; [| |done];
    cbn [mbind option_bind] in Hfind.
  { assert (Hint : is_int mid = true).
    { unfold first_match_id in Hsecond.
      destruct (match resp2 with PDict d => _ | _ => _ end) as [| | | | |[|first l]|];
        try done.
      destruct (py_get first "id") as [m|]; [|done]. cbn [mbind option_bind] in Hsecond.
      destruct (is_int m) eqn:Hm; by inversion Hsecond; subst. }
    eapply Hstored; [exact Hint|exact Hs|exact Hfind]. }
  inversion Hfind; subst. split; [done|]. split; [done|]. split; [done|]. by split.
Qed.

(** A sized value of positive length is truthy. *)
Lemma py_len_truthy (v : pyval) (n : nat) : py_len v = Some (S n) → truthy v = true.
Proof.
  destruct v as [| | | |s|l|d]; try done.
  - by destruct s.
  - by destruct l.
  - by destruct d.
Qed.

(** X16.  [warm_highlightly_cache] reports the size of the catalogue it
    leaves in memory: it returns 0, or the (positive) length of
    [_teams_cache].  It sends at most 24 requests, all to ["/teams"];
    and after a warm-up that reports at least one team, a
    [resolve_team_id] that returns has sent at most the four requests of
    its own lookup. *)
Theorem warm_up_reports_catalogue_size c w league :
  let n := (warm_highlightly_cache key up c w league).1.1 in
  let c' := (warm_highlightly_cache key up c w league).1.2 in
  let w' := (warm_highlightly_cache key up c w league).2 in
  (n = 0 ∨ ∃ m : nat, n = Z.of_nat (S m) ∧ py_len (_teams_cache c') = Some (S m)) ∧
  sends w w' teams_endpoint 24 ∧
  (0 < n →
   ∀ w2 name display_name abbreviation lg r c2 w3,
     resolve_team_id key up c' w2 name display_name abbreviation lg = Some (r, c2, w3) →
     sends w2 w3 teams_endpoint 4).
Proof.
  intros n c' w'.
  assert (Hsize : n = 0 ∨ ∃ m : nat,
            n = Z.of_nat (S m) ∧ py_len (_teams_cache c') = Some (S m)).
  { subst n c'. unfold warm_highlightly_cache.
    destruct (_make_request key up c w teams_endpoint _ 120) as [[resp c1] w1].
    assert (Hall :
      let out := (let '(teams, c2, w2) := get_all_teams key up c1 w1 500 5 in
                  (match teams ≫= py_len with Some n => Z.of_nat n | None => 0 end,
                   c2, w2)) in
      out.1.1 = 0 ∨ ∃ m : nat,
        out.1.1 = Z.of_nat (S m) ∧ py_len (_teams_cache out.1.2) = Some (S m)).
    { unfold get_all_teams. destruct (truthy (_teams_cache c1)).
      { cbn [fst snd mbind option_bind].
        destruct (py_len (_teams_cache c1)) as [[|m]|]; [by left| |by left].
        right. by exists m. }
      assert (Hfetch : ∀ c0,
        let out :=
          (let '(teams, c2, w2) :=
             (let '(r, c3, w3) := pages key up 500 5 0 [] c0 w1 in
              match r with
              | None => (None, c3, w3)
              | Some all_teams =>
                  (Some (PList all_teams), set_teams_cache c3 (PList all_teams),
                   if fs_writable w3
                   then set_files w3 (<[teams_file :=
                                        Payload (Some (now w3 + 24 * 60 * us_per_minute))
                                                (Some (PList all_teams))]> (files w3))
                   else w3)
              end) in
           (match teams ≫= py_len with Some n => Z.of_nat n | None => 0 end, c2, w2)) in
        out.1.1 = 0 ∨ ∃ m : nat,
          out.1.1 = Z.of_nat (S m) ∧ py_len (_teams_cache out.1.2) = Some (S m)).
      { intros c0.
        destruct (pages key up 500 5 0 [] c0 w1) as [[[all_teams|] c3] w3];
          cbn [fst snd mbind option_bind py_len]; [|by left].
        destruct all_teams as [|x l]; [by left|]. right. by exists (length l). }
      destruct (files w1 !! teams_file) as [[[e|] d|]|]; try by apply Hfetch.
      case_bool_decide; [|by apply Hfetch].
      destruct (py_len (default (PList []) d)) as [[|m]|] eqn:Hlen; [| |by apply Hfetch].
      - cbn [fst snd mbind option_bind]. rewrite Hlen. by left.
      - cbn [fst snd mbind option_bind _teams_cache set_teams_cache]. rewrite Hlen.
        right. by exists m. }
    match goal with |- context [match ?d with PList _ => _ | _ => _ end] =>
      destruct d as [| | | | |[|first rest]|]; try apply Hall end.
    right. by exists (length rest). }
  split; [done|]. split.
  - subst w'. unfold warm_highlightly_cache.
    pose proof (make_request_sends_bound c w teams_endpoint [("league", PStr league)] 120)
      as Hs.
    destruct (_make_request key up c w teams_endpoint _ 120) as [[resp c1] w1].
    cbn [snd] in Hs.
    assert (Hall : sends w
      (let '(teams, c2, w2) := get_all_teams key up c1 w1 500 5 in
       (match teams ≫= py_len with Some n => Z.of_nat n | None => 0 end, c2, w2)).2
      teams_endpoint 24).
    { destruct (get_all_teams_world c1 w1 500 5) as [Hs' _].
      destruct (get_all_teams key up c1 w1 500 5) as [[r c2] w2]. cbn [snd] in *.
      apply (sends_weaken _ _ _ (4 + 4 * 5)); [lia|].
      exact (sends_trans _ _ _ _ _ _ Hs Hs'). }
    match goal with |- context [match ?d with PList _ => _ | _ => _ end] =>
      destruct d as [| | | | |[|first rest]|]; try apply Hall end.
    cbn [snd]. eapply sends_weaken; [|done]. lia.
  - intros Hpos w2 name display_name abbreviation lg r c2 w3 Hres.
    destruct Hsize as [Hz|(m & _ & Hlen)]; [lia|].
    apply (resolve_team_id_sends _ _ _ _ _ _ _ _ _ Hres).
    by apply (py_len_truthy _ m).
Qed.

(** X17.  The key of the resolution cache normalises its parts.  For
    ASCII arguments it does not depend on the case of the name, of the
    display name, of the abbreviation or of the league, nor on white space
    (any run of blanks, tabs, line ends or separators) before and after
    the name.  So, once the catalogue is loaded, an id cached for a team
    is returned without a request for any such spelling of the same
    team. *)
Theorem resolution_key_normalised name display_name abbreviation league :
  is_ascii name = true → is_ascii display_name = true →
  is_ascii abbreviation = true → is_ascii league = true →
  resolve_cache_key (upper name) (upper display_name) (lower abbreviation) (lower league)
  = resolve_cache_key name display_name abbreviation league ∧
  resolve_cache_key (lower name) (lower display_name) (upper abbreviation) (upper league)
  = resolve_cache_key name display_name abbreviation league ∧
  (∀ pre post,
     whitespace pre = true → whitespace post = true →
     resolve_cache_key (pre +:+ name +:+ post) display_name abbreviation league
     = resolve_cache_key name display_name abbreviation league) ∧
  (∀ c w team_id pre post,
     truthy (_teams_cache c) = true →
     _team_id_cache c !! resolve_cache_key name display_name abbreviation league
     = Some team_id →
     whitespace pre = true → whitespace post = true →
     resolve_team_id key up c w (upper name) (upper display_name) (lower abbreviation)
       (lower league) = Some (team_id, c, w) ∧
     resolve_team_id key up c w (lower name) (lower display_name) (upper abbreviation)
       (upper league) = Some (team_id, c, w) ∧
     resolve_team_id key up c w (pre +:+ name +:+ post) display_name abbreviation league
     = Some (team_id, c, w)).
Proof.
  intros _ _ _ _.
  assert (Hempty : ∀ f t, bool_decide (map_chars f t = EmptyString)
                          = bool_decide (t = EmptyString)).
  { intros f t. apply bool_decide_ext, map_chars_empty. }
  assert (H1 : resolve_cache_key (upper name) (upper display_name) (lower abbreviation)
                 (lower league)
               = resolve_cache_key name display_name abbreviation league).
  { unfold resolve_cache_key.
    change (upper name) with (map_chars upper_char name).
    rewrite (strip_map_chars upper_char name is_space_upper_char).
    change (map_chars upper_char (strip name)) with (upper (strip name)).
    rewrite !lower_upper, !upper_lower.
    change (upper display_name) with (map_chars upper_char display_name).
    change (lower abbreviation) with (map_chars lower_char abbreviation).
    by rewrite !Hempty. }
  assert (H2 : resolve_cache_key (lower name) (lower display_name) (upper abbreviation)
                 (upper league)
               = resolve_cache_key name display_name abbreviation league).
  { unfold resolve_cache_key.
    change (lower name) with (map_chars lower_char name).
    rewrite (strip_map_chars lower_char name is_space_lower_char).
    change (map_chars lower_char (strip name)) with (lower (strip name)).
    rewrite !lower_lower, !upper_upper.
    change (lower display_name) with (map_chars lower_char display_name).
    change (upper abbreviation) with (map_chars upper_char abbreviation).
    by rewrite !Hempty. }
  assert (H3 : ∀ pre post, whitespace pre = true → whitespace post = true →
            resolve_cache_key (pre +:+ name +:+ post) display_name abbreviation league
            = resolve_cache_key name display_name abbreviation league).
  { intros pre post Hpre Hpost. unfold resolve_cache_key.
    by rewrite (strip_whitespace pre post name Hpre Hpost). }
  split; [done|]. split; [done|]. split; [done|].
  intros c w team_id pre post Ht Hid Hpre Hpost. unfold resolve_team_id.
  rewrite !(warm_teams_cache_loaded _ _ _ Ht), H1, H2, (H3 pre post Hpre Hpost), Hid.
  done.
Qed.

(** *** Pagination of the team catalogue *)

Lemma string_length_append (s t : string) :
  String.length (s +:+ t) = (String.length s + String.length t)%nat.
Proof.
  induction s as [|a s IH]; [done|].
  change (String a s +:+ t) with (String a (s +:+ t)).
  cbn [String.length Nat.add]. by rewrite IH.
Qed.

(** Distinct cache keys have distinct files. *)
Lemma cache_file_inj k1 k2 : cache_file k1 = cache_file k2 → k1 = k2.
Proof.
  unfold cache_file. revert k2. induction k1 as [|a k1 IH]; intros [|b k2] H.
  - done.
  - apply (f_equal String.length) in H.
    change (String b k2 +:+ ".json") with (String b (k2 +:+ ".json")) in H.
    cbn [String.length] in H. rewrite !string_length_append in H.
    cbn [String.length] in H. lia.
  - apply (f_equal String.length) in H.
    change (String a k1 +:+ ".json") with (String a (k1 +:+ ".json")) in H.
    cbn [String.length] in H. rewrite !string_length_append in H.
    cbn [String.length] in H. lia.
  - change (String a (k1 +:+ ".json") = String b (k2 +:+ ".json")) in H.
    injection H as -> H. f_equal. by apply IH.
Qed.

Lemma pop_sport_page (a b : pyval) :
  pop_sport [("limit", a); ("offset", b)]%string = [("limit", a); ("offset", b)]%string.
Proof. reflexivity. Qed.

(** A request that neither tier knows, answered at once with a 2xx
    status and a JSON body. *)
Lemma make_request_fresh c w endpoint ps ttl status (data : pyval) :
  _cache_expiry c !! key endpoint (pop_sport ps) = None →
  files w !! cache_file (key endpoint (pop_sport ps)) = None →
  up (length (sent w)) endpoint (pop_sport ps) = Responded status (Json data) →
  200 ≤ status < 300 →
  ∃ c' w',
    _make_request key up c w endpoint ps ttl = (data, c', w') ∧
    sent w' = sent w ++ [(endpoint, pop_sport ps)] ∧
    slept w' = slept w ∧
    fs_writable w' = fs_writable w ∧
    _teams_cache c' = _teams_cache c ∧
    (∀ k2, k2 ≠ key endpoint (pop_sport ps) →
           _cache_expiry c' !! k2 = _cache_expiry c !! k2) ∧
    (∀ f, f ≠ cache_file (key endpoint (pop_sport ps)) → files w' !! f = files w !! f).
Proof.
  intros Hexp Hfile Hup Hst. unfold _make_request, _get_cached_data, _is_cache_valid.
  rewrite Hexp, Hfile. cbn [truthy].
  change (seq 0 max_attempts) with (0%nat :: seq 1 3).
  cbn [attempts client_get]. rewrite Hup.
  destruct ((200 <=? status) && (status <? 300)) eqn:E; [|lia].
  unfold _cache_data. cbn [now fs_writable files sent slept].
  eexists _, _. split; [reflexivity|].
  cbn [_cache_expiry _teams_cache set_cache].
  destruct (fs_writable w) eqn:Hw; cbn [sent slept fs_writable files set_files].
  - split; [done|]. split; [done|]. split; [done|]. split; [done|]. split.
    + intros k2 Hk2. by rewrite lookup_insert_ne, lookup_delete_ne.
    + intros f Hf. by rewrite lookup_insert_ne.
  - split; [done|]. split; [done|]. split; [done|]. split; [done|]. split; [|done].
    intros k2 Hk2. by rewrite lookup_insert_ne, lookup_delete_ne.
Qed.

(** The loop of [get_all_teams] against an upstream that serves the
    pages of a catalogue. *)
Lemma pages_assemble (L : list pyval) (lim : nat) :
  (0 < lim)%nat →
  (∀ o1 o2 : nat,
     key teams_endpoint [("limit", PInt (Z.of_nat lim)); ("offset", PInt (Z.of_nat o1))]%string
     = key teams_endpoint [("limit", PInt (Z.of_nat lim)); ("offset", PInt (Z.of_nat o2))]%string
     → o1 = o2) →
  (∀ (n o : nat),
     up n teams_endpoint [("limit", PInt (Z.of_nat lim)); ("offset", PInt (Z.of_nat o))]%string
     = Responded 200 (Json (PDict [("data", PList (take lim (drop o L)))]%string))) →
  ∀ (remaining o : nat) c w,
    (o ≤ length L)%nat →
    (∀ o2 : nat, (o ≤ o2)%nat →
       _cache_expiry c !! key teams_endpoint
         [("limit", PInt (Z.of_nat lim)); ("offset", PInt (Z.of_nat o2))]%string = None ∧
       files w !! cache_file (key teams_endpoint
         [("limit", PInt (Z.of_nat lim)); ("offset", PInt (Z.of_nat o2))]%string) = None) →
    ∃ c' w' (n : nat),
      pages key up (Z.of_nat lim) remaining (Z.of_nat o) (take o L) c w
      = (Some (take (o + lim * remaining) L), c', w') ∧
      _teams_cache c' = _teams_cache c ∧
      fs_writable w' = fs_writable w ∧
      slept w' = slept w ∧
      (n ≤ remaining)%nat ∧
      length (sent w') = (length (sent w) + n)%nat.
Proof.
  intros Hlim Hinj Hup. induction remaining as [|remaining IH]; intros o c w Ho Hfresh.
  { exists c, w, 0%nat. cbn [pages]. rewrite Nat.mul_0_r, Nat.add_0_r.
    repeat split; [lia|lia]. }
  cbn [pages].
  destruct (Hfresh o (Nat.le_refl o)) as [Hexp Hfile].
  destruct (make_request_fresh c w teams_endpoint
              [("limit", PInt (Z.of_nat lim)); ("offset", PInt (Z.of_nat o))]%string 120
              200 (PDict [("data", PList (take lim (drop o L)))]%string))
    as (c1 & w1 & -> & Hsent & Hslept & Hfs & Hteams & Hkeys & Hfiles).
  { by rewrite pop_sport_page. }
  { by rewrite pop_sport_page. }
  { rewrite pop_sport_page. apply Hup. }
  { lia. }
  rewrite pop_sport_page in Hsent, Hkeys, Hfiles.
  assert (Hlen1 : length (sent w1) = (length (sent w) + 1)%nat).
  { rewrite Hsent, length_app. done. }
  cbn [items_get]. rewrite bool_decide_eq_true_2 by done.
  change (default (PList []) (Some (PList (take lim (drop o L)))))
    with (PList (take lim (drop o L))).
  destruct (take lim (drop o L)) as [|x page] eqn:Hpage.
  - (* the page is empty: the catalogue ends at [o] *)
    cbn [truthy negb].
    assert (Hend : (length L ≤ o)%nat).
    { apply (f_equal length) in Hpage. rewrite length_take, length_drop in Hpage.
      cbn [length] in Hpage. lia. }
    exists c1, w1, 1%nat. rewrite !take_ge by lia.
    repeat split; try done. lia.
  - cbn [truthy negb py_iter py_len]. rewrite <- Hpage.
    assert (Hplen : length (take lim (drop o L)) = Nat.min lim (length L - o)).
    { by rewrite length_take, length_drop. }
    rewrite take_take_drop.
    destruct (Z.of_nat (length (take lim (drop o L))) <? Z.of_nat lim) eqn:Hshort.
    + (* a short page: the catalogue ends within it *)
      apply Z.ltb_lt in Hshort.
      exists c1, w1, 1%nat. rewrite !(take_ge L) by lia.
      repeat split; try done. lia.
    + (* a full page: on to the next one *)
      apply Z.ltb_ge in Hshort.
      replace (Z.of_nat o + Z.of_nat lim) with (Z.of_nat (o + lim)) by lia.
      destruct (IH (o + lim)%nat c1 w1) as (c' & w' & n & -> & Ht & Hf & Hz & Hn & Hs).
      { lia. }
      { intros o2 Ho2. destruct (Hfresh o2) as [He2 Hf2]; [lia|].
        assert (Hne : key teams_endpoint
                        [("limit", PInt (Z.of_nat lim)); ("offset", PInt (Z.of_nat o2))]%string
                      ≠ key teams_endpoint
                        [("limit", PInt (Z.of_nat lim)); ("offset", PInt (Z.of_nat o))]%string).
        { intros Heq. apply Hinj in Heq. lia. }
        split.
        - by rewrite Hkeys.
        - rewrite Hfiles; [done|]. intros Heq. by apply cache_file_inj in Heq. }
      exists c', w', (S n).
      replace (o + lim + lim * remaining)%nat with (o + lim * S remaining)%nat by lia.
      split; [done|]. split; [congruence|]. split; [congruence|]. split; [congruence|].
      split; [lia|]. lia.
Qed.

(** X22.  Pagination assembles the catalogue.  Against an upstream that
    serves the pages of a list of teams (the slice from [offset] of at
    most [limit] entries), a client that has no catalogue and whose cache
    knows none of the pages gets from [get_all_teams] the first
    [limit * max_pages] teams of the list, in order (the whole list when
    it is not longer), and keeps them in [_teams_cache]; it sends one
    request per page, never more than [max_pages], and does not sleep. *)
Theorem catalogue_assembled_from_pages (L : list pyval) (lim max_pages : nat) c w :
  (0 < lim)%nat →
  (∀ o1 o2 : nat,
     key teams_endpoint [("limit", PInt (Z.of_nat lim)); ("offset", PInt (Z.of_nat o1))]%string
     = key teams_endpoint [("limit", PInt (Z.of_nat lim)); ("offset", PInt (Z.of_nat o2))]%string
     → o1 = o2) →
  (∀ (n o : nat),
     up n teams_endpoint [("limit", PInt (Z.of_nat lim)); ("offset", PInt (Z.of_nat o))]%string
     = Responded 200 (Json (PDict [("data", PList (take lim (drop o L)))]%string))) →
  truthy (_teams_cache c) = false →
  files w !! teams_file = None →
  (∀ o : nat,
     _cache_expiry c !! key teams_endpoint
       [("limit", PInt (Z.of_nat lim)); ("offset", PInt (Z.of_nat o))]%string = None ∧
     files w !! cache_file (key teams_endpoint
       [("limit", PInt (Z.of_nat lim)); ("offset", PInt (Z.of_nat o))]%string) = None) →
  ∃ c' w' (n : nat),
    get_all_teams key up c w (Z.of_nat lim) max_pages
    = (Some (PList (take (lim * max_pages) L)), c', w') ∧
    _teams_cache c' = PList (take (lim * max_pages) L) ∧
    ((length L ≤ lim * max_pages)%nat → take (lim * max_pages) L = L) ∧
    (n ≤ max_pages)%nat ∧
    length (sent w') = (length (sent w) + n)%nat ∧
    slept w' = slept w.
Proof.
  intros Hlim Hinj Hup Hempty Hdisk Hfresh. unfold get_all_teams.
  rewrite Hempty, Hdisk.
  destruct (pages_assemble L lim Hlim Hinj Hup max_pages 0%nat c w)
    as (c1 & w1 & n & Hpages & Ht & Hf & Hz & Hn & Hs).
  { lia. }
  { intros o2 _. apply Hfresh. }
  change (Z.of_nat 0) with 0 in Hpages. change (take 0 L) with (@nil pyval) in Hpages.
  rewrite Hpages. cbn [Nat.add].
  eexists _, _, n. split; [reflexivity|]. cbn [_teams_cache set_teams_cache].
  split; [done|]. split; [by intros Hle; apply take_ge|]. split; [done|].
  destruct (fs_writable w1); cbn [sent slept set_files]; by split.
Qed.

(** *** The shape of a result *)

(** What a run of the loop returns: the JSON body of a 2xx answer, or an
    error dictionary. *)
Lemma attempts_result_shape k endpoint ps ttl range c w :
  (∃ n status,
     up n endpoint ps
     = Responded status (Json (attempts up k endpoint ps ttl range c w).1.1) ∧
     200 ≤ status < 300) ∨
  (∃ error status,
     (attempts up k endpoint ps ttl range c w).1.1 = error_dict error status endpoint ∧
     (400 ≤ status < 500 ∨ status = 500 ∨ status = 503) ∧ status ≠ 429).
Proof.
  revert w. induction range as [|attempt range IH]; intros w.
  { right. exists "Request failed after retries"%string, 503. split; [done|]. lia. }
  cbn [attempts client_get fst snd].
  destruct (up (length (sent w)) endpoint ps) as [status body| |msg] eqn:Hup;
    [|apply IH|].
  - destruct ((200 <=? status) && (status <? 300)) eqn:E.
    { destruct body as [data| |msg].
      - left. exists (length (sent w)), status. split; [done|lia].
      - right. exists "Invalid JSON response"%string, 500. split; [done|]. lia.
      - right. exists ("Unexpected error: " +:+ msg)%string, 500. split; [done|]. lia. }
    destruct (status =? 429) eqn:E2; [apply IH|].
    destruct ((400 <=? status) && (status <? 500)) eqn:E3; [|apply IH].
    right. exists ("Client error " +:+ pretty status)%string, status. split; [done|]. lia.
  - right. exists ("Unexpected error: " +:+ msg)%string, 500. split; [done|]. lia.
Qed.

Lemma make_request_result_shape c w endpoint ps ttl :
  (truthy (_get_cached_data c w (key endpoint (pop_sport ps))).1.1 = true ∧
   (_make_request key up c w endpoint ps ttl).1.1
   = (_get_cached_data c w (key endpoint (pop_sport ps))).1.1) ∨
  (∃ n status,
     up n endpoint (pop_sport ps)
     = Responded status (Json (_make_request key up c w endpoint ps ttl).1.1) ∧
     200 ≤ status < 300) ∨
  (∃ error status,
     (_make_request key up c w endpoint ps ttl).1.1 = error_dict error status endpoint ∧
     (400 ≤ status < 500 ∨ status = 500 ∨ status = 503) ∧ status ≠ 429).
Proof.
  unfold _make_request.
  destruct (_get_cached_data c w (key endpoint (pop_sport ps))) as [[cached c1] w1].
  cbn [fst snd]. destruct (truthy cached) eqn:Ht; [by left|]. right.
  apply attempts_result_shape.
Qed.

(** X23.  A request that fails says so.  What [_make_request] returns is
    a truthy value served by the cache, or the JSON body of an answer
    with a 2xx status, or else an error dictionary, with an ["error"]
    text, the endpoint, an empty ["data"] list and a ["status"] that is
    the 4xx status received, 500 or 503; the status carried is never
    429. *)
Theorem failures_are_error_dicts c w endpoint ps ttl :
  let cached := (_get_cached_data c w (key endpoint (pop_sport ps))).1.1 in
  let r := (_make_request key up c w endpoint ps ttl).1.1 in
  (truthy cached = true ∧ r = cached) ∨
  (∃ n status,
     up n endpoint (pop_sport ps) = Responded status (Json r) ∧ 200 ≤ status < 300) ∨
  (∃ error status,
     r = PDict [("error", PStr error); ("status", PInt status);
                ("endpoint", PStr endpoint); ("data", PList [])]%string ∧
     (400 ≤ status < 500 ∨ status = 500 ∨ status = 503) ∧ status ≠ 429).
Proof. intros cached r. apply make_request_result_shape. Qed.

(** X24.  Team information comes from an answer or not at all.
    [get_nfl_team_info] never raises; it returns [None] unless the
    request was served by the cache or answered with a 2xx status and a
    JSON body, so no failure of the request is ever taken for a team;
    and from a dict whose ["data"] is a non-empty list it returns the
    first entry. *)
Theorem team_info_only_from_answers c w team_name :
  let ps := [("search", PStr team_name); ("type", PStr "team")]%string in
  let request := _make_request key up c w "/nfl-ncaa/teams" ps 60 in
  let info := (get_nfl_team_info key up c w team_name).1.1 in
  (info = PNone ∨
   truthy (_get_cached_data c w (key "/nfl-ncaa/teams" (pop_sport ps))).1.1 = true ∨
   ∃ n status,
     up n "/nfl-ncaa/teams" (pop_sport ps) = Responded status (Json request.1.1) ∧
     200 ≤ status < 300) ∧
  (∀ d first rest,
     request.1.1 = PDict d → dict_get d "data" = PList (first :: rest) → info = first) ∧
  (get_nfl_team_info key up c w team_name).1.2 = request.1.2 ∧
  (get_nfl_team_info key up c w team_name).2 = request.2.
Proof.
  intros ps request info. subst info. unfold get_nfl_team_info. fold ps. fold request.
  pose proof (make_request_result_shape c w "/nfl-ncaa/teams" ps 60) as Hshape.
  fold request in Hshape.
  destruct request as [[teams c1] w1]. cbn [fst snd] in *.
  split; [|split; [|done]].
  - destruct Hshape as [[Hc _]|[Hok|(error & status & -> & _)]].
    + right. by left.
    + right. by right.
    + left. reflexivity.
  - intros d first rest -> Hdata. rewrite Hdata.
    destruct d; [discriminate Hdata|reflexivity].
Qed.
(** *** Failed resolutions *)

(** A request that the cache does not serve, answered at once with a 2xx
    status and a JSON body: the body is returned and written to both
    tiers under the request's key. *)
Lemma make_request_answered c w endpoint ps ttl status (data : pyval) :
  let k := key endpoint (pop_sport ps) in
  truthy (_get_cached_data c w k).1.1 = false →
  up (length (sent w)) endpoint (pop_sport ps) = Responded status (Json data) →
  200 ≤ status < 300 →
  ∃ c' w',
    _make_request key up c w endpoint ps ttl = (data, c', w') ∧
    _cache c' !! k = Some data ∧
    _cache_expiry c' !! k = Some (now w + ttl * us_per_minute) ∧
    (fs_writable w = true →
     files w' !! cache_file k
     = Some (Payload (Some (now w + ttl * us_per_minute)) (Some data))) ∧
    sent w' = sent w ++ [(endpoint, pop_sport ps)].
Proof.
  intros k Hmiss Hup Hrange. unfold _make_request. fold k.
  destruct (get_cached_frame c w k) as (Hnow & Hsent & _).
  pose proof (get_cached_fs c w k) as Hfs.
  destruct (_get_cached_data c w k) as [[cached c1] w1].
  cbn [fst snd] in Hmiss, Hnow, Hsent, Hfs. rewrite Hmiss.
  change (seq 0 max_attempts) with (0%nat :: seq 1 3).
  cbn [attempts client_get]. rewrite Hsent, Hup.
  destruct ((200 <=? status) && (status <? 300)) eqn:E1; [|lia].
  unfold _cache_data. cbn [now fs_writable files sent].
  eexists _, _. split; [reflexivity|].
  cbn [_cache _cache_expiry set_cache]. rewrite !lookup_insert_eq, Hnow.
  split; [done|]. split; [done|]. rewrite Hfs. split.
  { intros ->. cbn [files set_files]. by rewrite lookup_insert_eq. }
  by destruct (fs_writable w).
Qed.

(** C8, as the code has it.  [resolve_team_id] writes its resolution
    cache only when the lookup yields an integer id, which it stores under
    the key built from league and names, with no expiry: a call that
    returns [None] leaves the resolution cache as it was, so nothing
    records the failure there; a call that returns an integer id leaves it
    cached; and, once the team catalogue is loaded, a cached id is returned
    at any instant without a request.

    The repeat of a failed lookup therefore goes to the request client
    again, with the same request: what it does to the world and to the
    response cache is what [_make_request] does, which answers without the
    upstream exactly when the response cache serves a truthy response for
    that request, and sends the request otherwise.

    So a failure is remembered only by the response cache, and only as a
    truthy body.  When the upstream answered the failed lookup with a 2xx
    status and a JSON body, one request was sent; if the body is truthy
    (a dict around an empty list, for instance), the repeat fails again
    without any request until 120 minutes have passed, and after that,
    once the file of the request has expired as well, the request is sent
    again; if the body is falsy (an empty list, for instance), the repeat
    sends the request again at once, although the body is cached. *)
Theorem resolution_caches_successes_only c w name display_name abbreviation league
    r c' w' :
  resolve_team_id key up c w name display_name abbreviation league = Some (r, c', w') →
  let cache_key := resolve_cache_key name display_name abbreviation league in
  let params : Params :=
    [("name", PStr (strip name)); ("league", PStr league)]
    ++ (if bool_decide (display_name = EmptyString) then []
        else [("displayName", PStr display_name)])
    ++ (if bool_decide (abbreviation = EmptyString) then []
        else [("abbreviation", PStr abbreviation)]) in
  let k := key teams_endpoint (pop_sport params) in
  (r = PNone → _team_id_cache c' = _team_id_cache c) ∧
  (is_int r = true → _team_id_cache c' !! cache_key = Some r) ∧
  (∀ w2, truthy (_teams_cache c') = true → is_int r = true →
         resolve_team_id key up c' w2 name display_name abbreviation league
         = Some (r, c', w2)) ∧
  (_team_id_cache c !! cache_key = None → r = PNone →
   ∀ w2, truthy (_teams_cache c') = true →
     let request := _make_request key up c' w2 teams_endpoint params 120 in
     (∀ r2 c2 w3,
        resolve_team_id key up c' w2 name display_name abbreviation league
        = Some (r2, c2, w3) →
        w3 = request.2 ∧ _cache c2 = _cache request.1.2 ∧
        _cache_expiry c2 = _cache_expiry request.1.2) ∧
     (truthy (_get_cached_data c' w2 k).1.1 = true →
      request.1.1 = (_get_cached_data c' w2 k).1.1 ∧ sent request.2 = sent w2) ∧
     (truthy (_get_cached_data c' w2 k).1.1 = false →
      ∃ rest, sent request.2 = sent w2 ++ (teams_endpoint, pop_sport params) :: rest)) ∧
  (∀ status data,
     truthy (_teams_cache c) = true →
     _team_id_cache c !! cache_key = None →
     truthy (_get_cached_data c w k).1.1 = false →
     up (length (sent w)) teams_endpoint (pop_sport params)
     = Responded status (Json data) →
     200 ≤ status < 300 →
     r = PNone →
     sent w' = sent w ++ [(teams_endpoint, pop_sport params)] ∧
     (truthy data = true →
      (∀ w2, now w2 < now w + 120 * us_per_minute →
             resolve_team_id key up c' w2 name display_name abbreviation league
             = Some (PNone, c', w2)) ∧
      (∀ w2, fs_writable w = true →
             now w + 120 * us_per_minute ≤ now w2 →
             files w2 !! cache_file k = files w' !! cache_file k →
             truthy (_get_cached_data c' w2 k).1.1 = false)) ∧
     (truthy data = false →
      ∀ w2, now w2 < now w + 120 * us_per_minute →
            _cache c' !! k = Some data ∧
            truthy (_get_cached_data c' w2 k).1.1 = false)).
Proof.
  intros Hres cache_key params k.
  assert (Hhit : ∀ c0 w2 v, truthy (_teams_cache c0) = true →
            _team_id_cache c0 !! cache_key = Some v →
            resolve_team_id key up c0 w2 name display_name abbreviation league
            = Some (v, c0, w2)).
  { intros c0 w2 v Ht Hv. unfold resolve_team_id.
    rewrite (warm_teams_cache_loaded _ _ _ Ht). fold cache_key. by rewrite Hv. }
  assert (Hmissed : ∀ c0 w2, truthy (_teams_cache c0) = true →
            _team_id_cache c0 !! cache_key = None →
            resolve_team_id key up c0 w2 name display_name abbreviation league
            = let '(result, c2, w3) :=
                _make_request key up c0 w2 teams_endpoint params 120 in
              match (match result with
                     | PDict d => default result (items_get d "data")
                     | _ => result
                     end) with
              | PList (first :: _) =>
                  team_id ← py_get first "id";
                  if is_int team_id
                  then Some (team_id,
                             set_team_id_cache c2
                               (<[cache_key := team_id]> (_team_id_cache c2)), w3)
                  else Some (PNone, c2, w3)
              | _ => Some (PNone, c2, w3)
              end).
  { intros c0 w2 Ht Hv. unfold resolve_team_id.
    rewrite (warm_teams_cache_loaded _ _ _ Ht). fold cache_key. rewrite Hv.
    reflexivity. }
  assert (Hold :
    (r = PNone → _team_id_cache c' = _team_id_cache c) ∧
    (is_int r = true → _team_id_cache c' !! cache_key = Some r) ∧
    (∀ w2, truthy (_teams_cache c') = true → is_int r = true →
           resolve_team_id key up c' w2 name display_name abbreviation league
           = Some (r, c', w2))).
  { pose proof Hres as Hres0.
    unfold resolve_team_id in Hres0. fold cache_key in Hres0.
    pose proof (warm_teams_cache_keeps c w league) as Hwarm.
    destruct (warm_teams_cache key up c w league) as [c1 w1]. simpl in Hwarm.
    destruct (_team_id_cache c1 !! cache_key) as [team_id|] eqn:Hlook.
    { inversion Hres0; subst. split; [done|]. split; [congruence|].
      intros w2 Ht _. by apply Hhit. }
    match type of Hres0 with context [_make_request key up c1 w1 ?ep ?ps ?ttl] =>
      destruct (make_request_keeps c1 w1 ep ps ttl) as [Hreq _];
      destruct (_make_request key up c1 w1 ep ps ttl) as [[result c2] w2]
    end.
    simpl in Hreq.
    assert (Hnone : ∀ x, Some (PNone, c2, w2) = Some (r, c', w') → x = (r, c', w') →
              (r = PNone → _team_id_cache c' = _team_id_cache c) ∧
              (is_int r = true → _team_id_cache c' !! cache_key = Some r) ∧
              (∀ w3, truthy (_teams_cache c') = true → is_int r = true →
                     resolve_team_id key up c' w3 name display_name abbreviation league
                     = Some (r, c', w3))).
    { intros x Heq _. inversion Heq; subst. split; [congruence|]. by split. }
    match type of Hres0 with
    | match ?res with PList _ => _ | _ => _ end = _ =>
        destruct res as [| | | | |[|first rest]|]; try by eapply Hnone
    end.
    simpl in Hres0. destruct (py_get first "id") as [team_id|]; [|done].
    simpl in Hres0. destruct (is_int team_id) eqn:Hint; [|by eapply Hnone].
    inversion Hres0; subst. cbn [_team_id_cache set_team_id_cache].
    rewrite lookup_insert_eq. split; [by intros ->|]. split; [done|].
    intros w3 Ht _. apply Hhit; [done|].
    cbn [_team_id_cache set_team_id_cache]. by rewrite lookup_insert_eq. }
  destruct Hold as (Hsame & Hstored & Hserved).
  split; [exact Hsame|]. split; [exact Hstored|]. split; [exact Hserved|]. split.
  - intros Hnone Hr w2 Ht request.
    assert (Hnone' : _team_id_cache c' !! cache_key = None).
    { by rewrite (Hsame Hr). }
    split; [|split].
    + intros r2 c2 w3. rewrite (Hmissed c' w2 Ht Hnone'). subst request.
      destruct (_make_request key up c' w2 teams_endpoint params 120)
        as [[result cq] wq].
      cbn [fst snd].
      match goal with
      | |- match ?res with PList _ => _ | _ => _ end = _ → _ =>
          destruct res as [| | | | |[|first rest]|];
            try (by intros [= <- <- <-])
      end.
      destruct (py_get first "id") as [team_id|]; [|done].
      cbn [mbind option_bind]. destruct (is_int team_id); by intros [= <- <- <-].
    + intros Hserve. subst request. unfold _make_request. fold k.
      destruct (get_cached_frame c' w2 k) as (_ & Hsent & _).
      destruct (_get_cached_data c' w2 k) as [[cached c1] w1].
      cbn [fst snd] in Hserve, Hsent |- *. by rewrite Hserve.
    + intros Hmiss. subst request. by apply make_request_sends.
  - intros status data Ht Hnone Hmiss Hup Hrange Hr.
    destruct (make_request_answered c w teams_endpoint params 120 status data
                Hmiss Hup Hrange) as (cq & wq & Hreq & Hmem & Hexp & Hfile & Hsent).
    fold k in Hmem, Hexp, Hfile.
    rewrite (Hmissed c w Ht Hnone), Hreq in Hres.
    assert (Hfail : c' = cq ∧ w' = wq ∧
      ∀ wx : World,
        match (match data with
               | PDict d => default data (items_get d "data")
               | _ => data
               end) with
        | PList (first :: _) =>
            team_id ← py_get first "id";
            if is_int team_id
            then Some (team_id,
                       set_team_id_cache cq
                         (<[cache_key := team_id]> (_team_id_cache cq)), wx)
            else Some (PNone, cq, wx)
        | _ => Some (PNone, cq, wx)
        end = Some (PNone, cq, wx)).
    { match type of Hres with
      | match ?res with PList _ => _ | _ => _ end = _ =>
          destruct res as [| | | | |[|first rest]|];
            try (injection Hres as _ <- <-; by repeat split)
      end.
      destruct (py_get first "id") as [team_id|]; [|done].
      cbn [mbind option_bind] in Hres |- *.
      destruct (is_int team_id) eqn:Hint.
      - injection Hres as Hr' _ _. rewrite Hr in Hr'. subst team_id. done.
      - injection Hres as _ <- <-. by repeat split. }
    destruct Hfail as (-> & -> & Hinterp).
    assert (Hteams : truthy (_teams_cache cq) = true).
    { destruct (make_request_keeps c w teams_endpoint params 120) as [_ Hkeep].
      rewrite Hreq in Hkeep. cbn [fst snd] in Hkeep. by rewrite Hkeep. }
    assert (Hnone' : _team_id_cache cq !! cache_key = None).
    { by rewrite (Hsame Hr). }
    assert (Hvalid : ∀ w2, now w2 < now w + 120 * us_per_minute →
              _get_cached_data cq w2 k = (data, cq, w2)).
    { intros w2 Hlt. rewrite get_cached_valid.
      - by rewrite Hmem.
      - unfold _is_cache_valid. rewrite Hexp. by apply bool_decide_eq_true_2. }
    split; [exact Hsent|]. split.
    + intros Hdata. split.
      * intros w2 Hlt. rewrite (Hmissed cq w2 Hteams Hnone').
        unfold _make_request. fold k. rewrite (Hvalid w2 Hlt), Hdata.
        apply Hinterp.
      * intros w2 Hw Hge Hf. unfold _get_cached_data, _is_cache_valid.
        rewrite Hexp, bool_decide_eq_false_2 by lia.
        rewrite Hf, (Hfile Hw), bool_decide_eq_false_2 by lia.
        by destruct (fs_writable w2).
    + intros Hdata w2 Hlt. split; [exact Hmem|].
      by rewrite (Hvalid w2 Hlt).
Qed.

End RequestClientProperties.

(** ** The head-to-head guard *)

Section HeadToHeadProperties.
Context `{B : Py.Builtins}.
Import Py Agent.

Variable client : nat → string → string → string → pyval.
Variable obj : nat → loc.

Implicit Types (s : H2H) (home away league sport : string).

(** The key tells the pairs apart: with no [":"] in the league tags and no
    ["|"] in the lowered names, two calls have the same key only for the
    same league tag and the same two lowered names, in either order. *)
Lemma h2h_cache_key_inj home away league home' away' league' :
  contains ":" (league_tag league) = false →
  contains ":" (league_tag league') = false →
  contains "|" (lower home) = false → contains "|" (lower away) = false →
  contains "|" (lower home') = false → contains "|" (lower away') = false →
  h2h_cache_key home' away' league' = h2h_cache_key home away league →
  league_tag league' = league_tag league ∧
  (lower home' = lower home ∧ lower away' = lower away ∨
   lower home' = lower away ∧ lower away' = lower home).
Proof.
  intros Hl Hl' Hh Ha Hh' Ha' Hkey. unfold h2h_cache_key in Hkey.
  apply append_inj_l in Hkey.
  change (":" +:+ ?x)%string with (String ":" x) in Hkey.
  match type of Hkey with
  | _ +:+ String _ ?j' = _ +:+ String _ ?j =>
      destruct (append_cut_inj ":" _ j' _ j Hl' Hl Hkey) as [Htag Hjoin]
  end.
  split; [done|]. unfold sorted2 in Hjoin.
  destruct (String.ltb (lower away') (lower home')),
           (String.ltb (lower away) (lower home));
    cbn [join] in Hjoin;
    change ("|" +:+ ?x)%string with (String "|" x) in Hjoin;
    match type of Hjoin with
    | ?x' +:+ String _ ?y' = ?x +:+ String _ ?y =>
        assert (Hcut : x' = x ∧ y' = y) by (by apply (append_cut_inj "|"))
    end;
    destruct Hcut as [Hx Hy]; auto.
Qed.


(** X18.  The key of the last-known-good cache identifies the pair of
    teams.  For ASCII names and league: the key does not depend on the
    order of the two teams, nor on the case of their names or of the
    league, and a missing league is ["NFL"]; and, with no [":"] in the
    league tags and no ["|"] in the lowered names, two calls have the same
    key exactly when they have the same league tag and the same two
    lowered names, in either order. *)
Theorem h2h_key_identifies_pair home away league :
  is_ascii home = true → is_ascii away = true → is_ascii league = true →
  h2h_cache_key away home league = h2h_cache_key home away league ∧
  h2h_cache_key (upper home) (upper away) (lower league) = h2h_cache_key home away league ∧
  h2h_cache_key (lower home) (lower away) (upper league) = h2h_cache_key home away league ∧
  h2h_cache_key home away EmptyString = h2h_cache_key home away "NFL" ∧
  (∀ home' away' league',
     contains ":" (league_tag league) = false →
     contains ":" (league_tag league') = false →
     contains "|" (lower home) = false → contains "|" (lower away) = false →
     contains "|" (lower home') = false → contains "|" (lower away') = false →
     (h2h_cache_key home' away' league' = h2h_cache_key home away league ↔
      league_tag league' = league_tag league ∧
      (lower home' = lower home ∧ lower away' = lower away ∨
       lower home' = lower away ∧ lower away' = lower home))).
Proof.
  intros _ _ _.
  assert (Hempty : ∀ f t, (∀ x, map_chars f x = EmptyString ↔ x = EmptyString) →
            bool_decide (map_chars f t = EmptyString) = bool_decide (t = EmptyString)).
  { intros f t Hf. apply bool_decide_ext, Hf. }
  split; [|split; [|split; [|split]]].
  - unfold h2h_cache_key. by rewrite sorted2_comm.
  - unfold h2h_cache_key, league_tag. rewrite !lower_upper.
    change (lower league) with (map_chars lower_char league).
    rewrite (Hempty lower_char league (map_chars_empty lower_char)).
    destruct (bool_decide (league = EmptyString)); [done|].
    change (map_chars lower_char league) with (lower league). by rewrite upper_lower.
  - unfold h2h_cache_key, league_tag. rewrite !lower_lower.
    change (upper league) with (map_chars upper_char league).
    rewrite (Hempty upper_char league (map_chars_empty upper_char)).
    destruct (bool_decide (league = EmptyString)); [done|].
    change (map_chars upper_char league) with (upper league). by rewrite upper_upper.
  - done.
  - intros home' away' league' Hl Hl' Hh Ha Hh' Ha'. split.
    + by apply h2h_cache_key_inj.
    + intros [Htag Hpair]. unfold h2h_cache_key. rewrite Htag.
      destruct Hpair as [[-> ->]|[-> ->]]; [done|]. by rewrite sorted2_comm.
Qed.

(** A result that lets the branch proceed is a non-empty list, stored
    under the pair's key. *)
Lemma proceeds_stored s home away league sport l (data : pyval) s1 :
  head_to_head client obj s home away league sport = (Proceeds l data, s1) →
  nonempty_list data = true ∧
  _h2h_cache s1 = <[h2h_cache_key home away league := l]> (_h2h_cache s) ∧
  objects s1 !! l = Some data.
Proof.
  unfold head_to_head, call, store. cbn [_h2h_cache objects calls slept].
  destruct (nonempty_list (h2h_matches (client (calls s) home away (league_tag league))))
    eqn:Hfirst.
  { intros [= <- <- <-]. cbn [_h2h_cache objects]. by rewrite !lookup_insert_eq. }
  match goal with |- context [truthy ?c] => destruct (truthy c) end; [done|].
  destruct (nonempty_list
              (h2h_matches (client (S (calls s)) home away (league_tag league))))
    eqn:Hsecond; [|done].
  intros [= <- <- <-]. cbn [_h2h_cache objects].
  by rewrite insert_insert_eq, !lookup_insert_eq.
Qed.

(** X19.  The last known good result is served, to its pair only.  Once
    a head-to-head query has produced matches, the list is in the cache
    under the pair's key; and, with nothing stored in between, a later
    query that comes back empty
    - for the same pair (ASCII names, in either order, in any case) is
      answered at once with that very list, as it is by then (the
      enrichment has changed its latest match in place), and
      ["cache": True]: one call to the client, no retry, no sleep, the
      cache left as it is;
    - for another pair or league (no [":"] in the league tags, no ["|"]
      in the lowered names) for which nothing was cached is not answered
      with that list: the query is made once more after the sleep of
      half a second. *)
Theorem last_known_good_served s home away league sport l (data : pyval) s1 :
  head_to_head client obj s home away league sport = (Proceeds l data, s1) →
  ∀ s2 (enriched : pyval),
    is_ascii home = true → is_ascii away = true → is_ascii league = true →
    _h2h_cache s2 = _h2h_cache s1 →
    objects s2 !! l = Some enriched →
    truthy enriched = true →
    h2h_cache_get s1 (h2h_cache_key home away league) = data ∧
    nonempty_list data = true ∧
    (∀ home2 away2 league2 sport2,
       is_ascii home2 = true → is_ascii away2 = true → is_ascii league2 = true →
       (lower home2 = lower home ∧ lower away2 = lower away) ∨
       (lower home2 = lower away ∧ lower away2 = lower home) →
       league_tag league2 = league_tag league →
       nonempty_list (h2h_matches (client (calls s2) home2 away2 (league_tag league2)))
       = false →
       head_to_head client obj s2 home2 away2 league2 sport2
       = (Returned (PDict [("data", enriched); ("sport", PStr sport2);
                           ("type", PStr "head_to_head"); ("cache", PBool true)]),
          {| _h2h_cache := _h2h_cache s2; objects := objects s2;
             calls := S (calls s2); slept := slept s2 |})) ∧
    (∀ home3 away3 league3 sport3,
       contains ":" (league_tag league) = false →
       contains ":" (league_tag league3) = false →
       contains "|" (lower home) = false → contains "|" (lower away) = false →
       contains "|" (lower home3) = false → contains "|" (lower away3) = false →
       ¬ (league_tag league3 = league_tag league ∧
          (lower home3 = lower home ∧ lower away3 = lower away ∨
           lower home3 = lower away ∧ lower away3 = lower home)) →
       _h2h_cache s !! h2h_cache_key home3 away3 league3 = None →
       nonempty_list (h2h_matches (client (calls s2) home3 away3 (league_tag league3)))
       = false →
       let out := head_to_head client obj s2 home3 away3 league3 sport3 in
       calls out.2 = S (S (calls s2)) ∧
       slept out.2 = slept s2 ++ [500000] ∧
       ∀ result, out.1 = Returned result → py_get result "cache" = Some PNone).
Proof.
  intros Hfirst s2 enriched _ _ _ Hcache Hobj Ht.
  destruct (proceeds_stored _ _ _ _ _ _ _ _ Hfirst) as (Hdata & Hstored & Hheld).
  split.
  { unfold h2h_cache_get. rewrite Hstored, lookup_insert_eq.
    cbn [mbind option_bind]. by rewrite Hheld. }
  split; [done|]. split.
  - intros home2 away2 league2 sport2 _ _ _ Hteams Hleague Hempty.
    assert (Hkey : h2h_cache_key home2 away2 league2 = h2h_cache_key home away league).
    { unfold h2h_cache_key. rewrite Hleague.
      destruct Hteams as [[-> ->]|[-> ->]]; [done|]. by rewrite sorted2_comm. }
    unfold head_to_head, call, h2h_cache_get. cbn [_h2h_cache objects calls slept].
    rewrite Hempty, Hkey, Hcache, Hstored, lookup_insert_eq.
    cbn [mbind option_bind]. rewrite Hobj.
    cbn [default from_option id]. by rewrite Ht.
  - intros home3 away3 league3 sport3 Hl Hl3 Hh Ha Hh3 Ha3 Hother Hnone Hempty out.
    assert (Hkey : h2h_cache_key home3 away3 league3 ≠ h2h_cache_key home away league).
    { intros Hkey. apply Hother. by apply h2h_cache_key_inj. }
    subst out. unfold head_to_head, call, h2h_cache_get.
    cbn [_h2h_cache objects calls slept].
    rewrite Hempty, Hcache, Hstored, lookup_insert_ne, Hnone by done.
    cbn [mbind option_bind default from_option truthy].
    destruct (nonempty_list
                (h2h_matches (client (S (calls s2)) home3 away3 (league_tag league3))));
      cbn [fst snd calls slept store]; (split; [done|]); (split; [done|]).
    + intros result [=].
    + intros result [= <-]. reflexivity.
Qed.
End HeadToHeadProperties.

(** ** The statistics merge *)

Section MergeProperties.
Context `{B : Py.Builtins}.
Import Py Agent.

Implicit Types (target out : gmap string pyval) (k : string) (v t r : pyval).
Implicit Types (items : list (string * pyval)).

#[local] Arguments merged_value : simpl never.

Lemma zero_or_none_falsy v : zero_or_none v = true → py_or v (PInt 0) = PInt 0.
Proof.
  unfold py_or. destruct v as [|b|z|x|s|l|d]; simpl; try done.
  - by destruct b.
  - intros Hz. by rewrite Hz.
  - intros Hx. by rewrite Hx.
Qed.

Lemma merge_item_lookup target k v k' :
  merge_preserve_item target (k, v) !! k'
  = if bool_decide (k = k') then Some (merged_value k (target !! k) v)
    else target !! k'.
Proof.
  unfold merge_preserve_item, merged_value.
  assert (Hin : ∀ x, <[k := x]> target !! k'
                     = if bool_decide (k = k') then Some x else target !! k').
  { intros x. rewrite lookup_insert. by repeat case_decide; case_bool_decide. }
  assert (Hid : ∀ x, target !! k = Some x →
                     target !! k' = if bool_decide (k = k') then Some x else target !! k').
  { intros x Hx. case_bool_decide; by subst. }
  destruct (target !! k) as [cur|] eqn:Hcur; [|apply Hin].
  destruct (zero_or_none cur); [apply Hin|].
  destruct (bool_decide (k = "touchdowns")); [|by apply Hid].
  destruct (py_int (py_or cur (PInt 0))) as [tv|]; [|apply Hin].
  destruct (py_int (py_or v (PInt 0))) as [sv|]; [|apply Hin].
  destruct ((0 <? sv) && (tv <? sv)); [apply Hin|by apply Hid].
Qed.

Lemma merge_items_lookup items target k :
  foldl merge_preserve_item target items !! k = merged_under k (target !! k) items.
Proof.
  unfold merged_under. revert target.
  induction items as [|[k' v] items IH]; intros target; [done|].
  cbn [foldl]. rewrite IH, merge_item_lookup. cbn [fst snd].
  by case_bool_decide; subst.
Qed.

(** A value that is neither zero nor [None] stays so. *)
Lemma merged_value_keeps k t v :
  zero_or_none t = false → zero_or_none (merged_value k (Some t) v) = false.
Proof.
  intros Ht. unfold merged_value. rewrite Ht. case_bool_decide; [|done].
  destruct (py_int (py_or t (PInt 0))) as [tv|]; [|done].
  destruct (py_int (py_or v (PInt 0))) as [sv|]; [|done].
  destruct ((0 <? sv) && (tv <? sv)) eqn:E; [|done]. simpl.
  apply Z.eqb_neq. lia.
Qed.

Lemma merged_value_raised k t v :
  zero_or_none t = false → raised k t (merged_value k (Some t) v).
Proof.
  intros Ht. unfold merged_value. rewrite Ht. case_bool_decide; [|by left].
  destruct (py_int (py_or t (PInt 0))) as [tv|] eqn:Etv; [|by left].
  destruct (py_int (py_or v (PInt 0))) as [sv|]; [|by left].
  destruct ((0 <? sv) && (tv <? sv)) eqn:E; [|by left].
  right. split; [done|]. exists tv, sv. split; [done|]. split; [done|]. lia.
Qed.

Lemma positive_int_or sv : 0 < sv → py_int (py_or (PInt sv) (PInt 0)) = Some sv.
Proof.
  intros Hsv. unfold py_or. simpl.
  by destruct (sv =? 0) eqn:E; [lia|].
Qed.

Lemma raised_trans k t r1 r2 : raised k t r1 → raised k r1 r2 → raised k t r2.
Proof.
  intros [->|(Hk & tv & sv & Ht & -> & Hlt & Hpos)]; [done|].
  intros [->|(_ & tv' & sv' & Ht' & -> & Hlt' & Hpos')].
  - right. split; [done|]. by exists tv, sv.
  - rewrite positive_int_or in Ht' by done. inversion Ht'; subst.
    right. split; [done|]. exists tv, sv'. split; [done|]. split; [done|]. lia.
Qed.

Lemma raised_keeps k t r : zero_or_none t = false → raised k t r → zero_or_none r = false.
Proof.
  intros Ht [->|(_ & tv & sv & _ & -> & _ & Hpos)]; [done|].
  simpl. apply Z.eqb_neq. lia.
Qed.

(** A value reached from what a round left absorbs that round's item. *)
Lemma merged_value_absorbed k cur v r :
  zero_or_none r = false →
  raised k (merged_value k cur v) r →
  merged_value k (Some r) v = r.
Proof.
  intros Hr Hraised. unfold merged_value at 1. rewrite Hr.
  case_bool_decide as Htd; [|done].
  destruct (py_int (py_or r (PInt 0))) as [rv|] eqn:Erv; [|done].
  destruct (py_int (py_or v (PInt 0))) as [sv|] eqn:Esv; [|done].
  destruct ((0 <? sv) && (rv <? sv)) eqn:E; [|done]. exfalso.
  assert (Hcur : cur = None ∨ (∃ t, cur = Some t ∧ zero_or_none t = true) ∨
                 (∃ t, cur = Some t ∧ zero_or_none t = false)).
  { destruct cur as [t|]; [|by left]. right.
    destruct (zero_or_none t) eqn:Et; eauto. }
  assert (Hv : merged_value k cur v = v → False).
  { intros Hmv. rewrite Hmv in Hraised.
    destruct Hraised as [->|(_ & tv' & sv' & Hv' & -> & Hlt & Hpos)].
    - rewrite Erv in Esv. inversion Esv. lia.
    - rewrite positive_int_or in Erv by done. rewrite Hv' in Esv.
      inversion Erv. inversion Esv. lia. }
  destruct Hcur as [->|[(t & -> & Ht)|(t & -> & Ht)]].
  - by apply Hv.
  - apply Hv. unfold merged_value. by rewrite Ht.
  - unfold merged_value in Hraised. rewrite Ht in Hraised.
    rewrite bool_decide_eq_true_2 in Hraised by done.
    destruct (py_int (py_or t (PInt 0))) as [tv|] eqn:Etv.
    + rewrite Esv in Hraised.
      destruct ((0 <? sv) && (tv <? sv)) eqn:E'.
      * destruct Hraised as [->|(_ & tv' & sv' & Hv' & -> & Hlt & Hpos)].
        -- rewrite positive_int_or in Erv by lia. inversion Erv. lia.
        -- rewrite positive_int_or in Erv, Hv' by lia.
           inversion Erv. inversion Hv'. lia.
      * destruct Hraised as [->|(_ & tv' & sv' & Hv' & -> & Hlt & Hpos)].
        -- rewrite Etv in Erv. inversion Erv. subst. congruence.
        -- rewrite positive_int_or in Erv by done. rewrite Etv in Hv'.
           inversion Erv. inversion Hv'. lia.
    + destruct Hraised as [->|(_ & tv' & sv' & Hv' & _)]; congruence.
Qed.

(** From a value that is neither zero nor [None], the rounds reach a value
    that is neither, and that a second pass leaves alone. *)
Lemma merged_under_settled k items t :
  zero_or_none t = false →
  ∃ r, merged_under k (Some t) items = Some r ∧
       zero_or_none r = false ∧ raised k t r ∧
       merged_under k (Some r) items = Some r.
Proof.
  unfold merged_under. revert t.
  induction items as [|[k' v] items IH]; intros t Ht.
  - exists t. repeat split; [done|by left].
  - simpl. case_bool_decide as Hk; [|by apply IH]. subst k'.
    destruct (IH (merged_value k (Some t) v)) as (r & Hr & Hz & Hraised & Hagain).
    { by apply merged_value_keeps. }
    exists r. split; [done|]. split; [done|].
    split; [eapply raised_trans; [by apply merged_value_raised|done]|].
    by rewrite (merged_value_absorbed k (Some t) v r).
Qed.

(** A second pass over the items changes nothing more. *)
Lemma merged_under_idempotent k items cur :
  merged_under k (merged_under k cur items) items = merged_under k cur items.
Proof.
  revert cur. induction items as [|[k' v] items IH]; intros cur; [done|].
  unfold merged_under in *. simpl. case_bool_decide as Hk; [|apply IH]. subst k'.
  set (t1 := merged_value k cur v).
  destruct (zero_or_none t1) eqn:Ht1.
  - (* the round stored a zero: every later round just stores its item *)
    assert (Hv : t1 = v).
    { subst t1. unfold merged_value in *. destruct cur as [t|]; [|done].
      destruct (zero_or_none t) eqn:Et; [done|].
      pose proof (merged_value_keeps k t v Et) as Hkeep.
      unfold merged_value in Hkeep. rewrite Et in Hkeep. congruence. }
    rewrite Hv in *.
    destruct (foldl (λ cur kv, if bool_decide (kv.1 = k)
                               then Some (merged_value k cur kv.2) else cur)
                (Some v) items) as [r|] eqn:Hr.
    + destruct (zero_or_none r) eqn:Hzr.
      * unfold merged_value at 2. rewrite Hzr. by rewrite Hr.
      * assert (Habs : merged_value k (Some r) v = r).
        { unfold merged_value. rewrite Hzr. case_bool_decide; [|done].
          rewrite (zero_or_none_falsy v Ht1). simpl.
          destruct (py_int (py_or r (PInt 0))); [|done].
          by destruct (0 <? 0) eqn:E; [lia|]. }
        rewrite Habs. rewrite <- Hr at 2. rewrite <- Hr at 1. apply IH.
    + exfalso. clear -Hr. revert Hr. generalize v.
      induction items as [|[k'' v''] items IH']; intros v0; [done|].
      simpl. case_bool_decide; apply IH'.
  - destruct (merged_under_settled k items t1 Ht1) as (r & Hr & Hz & Hraised & Hagain).
    unfold merged_under in Hr, Hagain. rewrite Hr.
    by rewrite (merged_value_absorbed k cur v r).
Qed.

(** C7, as the code has it.  [merge_preserve] is idempotent: merging the
    same source into a record twice gives exactly the record that merging
    it once gives, for every record and every source. *)
Theorem merge_preserve_idempotent target (source : pyval) :
  merge_preserve (merge_preserve target source) source = merge_preserve target source.
Proof.
  destruct source as [| | | | | |items]; try done.
  apply map_eq. intros k. unfold merge_preserve.
  rewrite !merge_items_lookup. apply merged_under_idempotent.
Qed.

(** A positive number is neither zero nor [None]. *)
Lemma gt_zero_nonzero t : gt_zero t = Some true → zero_or_none t = false.
Proof.
  destruct t as [|b|z|x|s|l|d]; simpl; try done.
  - by intros [= ->].
  - intros [= Hz]. apply Z.eqb_neq. lia.
  - intros [= Hx]. by apply float_gt_ne.
Qed.

(** The aliases of a field other than touchdowns leave touchdowns alone. *)
Lemma first_alias_frame stats_dict out_key caster keys out out' :
  out_key ≠ "touchdowns"%string →
  first_alias stats_dict out_key caster keys out = Some out' →
  out' !! "touchdowns" = out !! "touchdowns".
Proof.
  intros Hne. induction keys as [|key keys IH]; cbn [first_alias]; [by intros [= ->]|].
  destruct (items_get stats_dict key) as [val|]; [|done].
  rewrite bool_decide_eq_false_2 by done. cbn [mbind option_bind].
  intros [= <-]. by rewrite lookup_insert_ne.
Qed.

(** The aliases of touchdowns never put a zero over a positive count. *)
Lemma first_alias_guard stats_dict caster keys out out' t :
  out !! "touchdowns" = Some t →
  gt_zero t = Some true →
  first_alias stats_dict "touchdowns" caster keys out = Some out' →
  ∃ t', out' !! "touchdowns" = Some t' ∧ zero_or_none t' = false.
Proof.
  intros Ht Hpos. induction keys as [|key keys IH]; cbn [first_alias].
  { intros [= <-]. exists t. eauto using gt_zero_nonzero. }
  destruct (items_get stats_dict key) as [val|]; [|done].
  rewrite bool_decide_eq_true_2 by done. rewrite Ht.
  change (default (PInt 0) (Some t)) with t. rewrite Hpos. cbn [mbind option_bind].
  destruct (py_int (py_or (coerce val caster) (PInt 0))) as [n|] eqn:Hn; [|done].
  cbn [fmap option_fmap option_map mbind option_bind].
  destruct (n =? 0) eqn:Hz; [done|].
  intros [= <-]. exists (coerce val caster). rewrite lookup_insert_eq.
  split; [done|].
  destruct (zero_or_none (coerce val caster)) eqn:Hzero; [|done].
  rewrite (zero_or_none_falsy _ Hzero) in Hn. simpl in Hn.
  inversion Hn; subst. done.
Qed.

(** C1, as the code has it.  [merge_preserve] never replaces a value that
    is neither zero nor [None]: a field that held one still holds one
    after the merge, whatever the source.  [update_from_team_block] guards
    the touchdowns only: a positive count is still neither zero nor [None]
    after it.  [preserve_enriched] skips a candidate that is [None], [0],
    ["0"] or the empty string. *)
Theorem zero_never_replaces_guarded_fields :
  (∀ target (source : pyval) k t,
     target !! k = Some t → zero_or_none t = false →
     ∃ t', merge_preserve target source !! k = Some t' ∧ zero_or_none t' = false) ∧
  (∀ (team_obj : pyval) out out' t,
     out !! "touchdowns" = Some t → gt_zero t = Some true →
     update_from_team_block team_obj out = Some out' →
     ∃ t', out' !! "touchdowns" = Some t' ∧ zero_or_none t' = false) ∧
  (∀ out k v, blank v = true → preserve_enriched_item out (k, v) = out).
Proof.
  split; [|split].
  - intros target source k t Ht Hz.
    destruct source as [| | | | | |items]; try by exists t.
    unfold merge_preserve. rewrite merge_items_lookup, Ht.
    destruct (merged_under_settled k items t Hz) as (r & -> & Hr & _). eauto.
  - intros team_obj out out' t Ht Hpos.
    unfold update_from_team_block.
    destruct team_obj as [| | | | | |d];
      try (intros [= <-]; exists t; eauto using gt_zero_nonzero).
    destruct (team_block d) as [stats_dict|];
      [|intros [= <-]; exists t; eauto using gt_zero_nonzero].
    unfold mapping. cbn [foldl fst snd mbind option_bind].
    destruct (first_alias stats_dict "yards" to_int _ out) as [o1|] eqn:H1; [|done].
    cbn [mbind option_bind].
    destruct (first_alias stats_dict "completionPct" to_float _ o1) as [o2|] eqn:H2;
      [|done].
    cbn [mbind option_bind].
    destruct (first_alias stats_dict "touchdowns" to_int _ o2) as [o3|] eqn:H3; [|done].
    cbn [mbind option_bind].
    destruct (first_alias stats_dict "attempts" to_int _ o3) as [o4|] eqn:H4; [|done].
    cbn [mbind option_bind]. intros H5.
    apply first_alias_frame in H1, H2, H4, H5; try done.
    assert (Ho2 : o2 !! "touchdowns" = Some t) by congruence.
    destruct (first_alias_guard _ _ _ _ _ _ Ho2 Hpos H3) as (t' & Ht' & Hz').
    exists t'. split; [congruence|done].
  - intros out k v Hv. unfold preserve_enriched_item. by rewrite Hv.
Qed.

(** *** What the merge steps write *)

Lemma writes_only_refl written out : writes_only written out out.
Proof. by intros k. Qed.

Lemma writes_only_trans written out1 out2 out3 :
  writes_only written out1 out2 → writes_only written out2 out3 →
  writes_only written out1 out3.
Proof.
  intros H12 H23 k. destruct (H12 k) as [Hf1 Hs1], (H23 k) as [Hf2 Hs2]. split.
  - intros Hk. by rewrite Hf2, Hf1.
  - auto.
Qed.

Lemma writes_only_insert written out field v :
  field ∈ written → writes_only written out (<[field := v]> out).
Proof.
  intros Hin k. split.
  - intros Hk. apply lookup_insert_ne. by intros ->.
  - intros Hs. destruct (decide (field = k)) as [->|Hne].
    + by rewrite lookup_insert_eq.
    + by rewrite lookup_insert_ne.
Qed.

Lemma first_alias_writes stats_dict out_key caster keys out out' :
  out_key ∈ stat_fields →
  first_alias stats_dict out_key caster keys out = Some out' →
  writes_only stat_fields out out'.
Proof.
  intros Hin. induction keys as [|key keys IH]; cbn [first_alias].
  { intros [= <-]. apply writes_only_refl. }
  destruct (items_get stats_dict key) as [val|]; [|done].
  match goal with |- context [mbind _ ?x] => destruct x as [[|]|] end;
    cbn [mbind option_bind]; [done| |done].
  intros [= <-]. by apply writes_only_insert.
Qed.

Lemma update_from_team_block_writes (team_obj : pyval) out out' :
  update_from_team_block team_obj out = Some out' → writes_only stat_fields out out'.
Proof.
  unfold update_from_team_block.
  destruct team_obj as [| | | | | |d]; try (intros [= <-]; apply writes_only_refl).
  destruct (team_block d) as [stats_dict|]; [|intros [= <-]; apply writes_only_refl].
  unfold mapping. cbn [foldl fst snd mbind option_bind].
  destruct (first_alias stats_dict "yards" to_int _ out) as [o1|] eqn:H1; [|done].
  cbn [mbind option_bind].
  destruct (first_alias stats_dict "completionPct" to_float _ o1) as [o2|] eqn:H2;
    [|done].
  cbn [mbind option_bind].
  destruct (first_alias stats_dict "touchdowns" to_int _ o2) as [o3|] eqn:H3; [|done].
  cbn [mbind option_bind].
  destruct (first_alias stats_dict "attempts" to_int _ o3) as [o4|] eqn:H4; [|done].
  cbn [mbind option_bind]. intros H5.
  apply first_alias_writes in H1, H2, H3, H4, H5;
    try (unfold stat_fields; rewrite !elem_of_cons; tauto).
  eauto using writes_only_trans.
Qed.

Lemma preserve_enriched_item_writes out kv :
  writes_only stat_fields out (preserve_enriched_item out kv).
Proof.
  destruct kv as [k v]. unfold preserve_enriched_item.
  assert (Hwhole : ∀ field, field ∈ stat_fields →
            writes_only stat_fields out
              match enriched v ≫= int_of_float with
              | Some n => <[field := PInt n]> out
              | None => out
              end).
  { intros field Hf. destruct (enriched v ≫= int_of_float).
    - by apply writes_only_insert.
    - apply writes_only_refl. }
  destruct (blank v); [apply writes_only_refl|].
  repeat (match goal with |- context [if ?b then _ else _] => destruct b end;
          [try (apply Hwhole; unfold stat_fields; rewrite !elem_of_cons; tauto)|]);
    try apply writes_only_refl.
  destruct (enriched v).
  - apply writes_only_insert. unfold stat_fields. rewrite !elem_of_cons. tauto.
  - apply writes_only_refl.
Qed.

Lemma preserve_enriched_writes (team_obj : pyval) out :
  writes_only stat_fields out (preserve_enriched team_obj out).
Proof.
  unfold preserve_enriched.
  destruct team_obj as [| | | | | |d]; try apply writes_only_refl.
  match goal with |- context [match ?x with PDict _ => _ | _ => _ end] =>
    destruct x as [| | | | | |stats] end; try apply writes_only_refl.
  revert out. induction stats as [|kv stats IH]; intros out; [apply writes_only_refl|].
  cbn [foldl]. eapply writes_only_trans; [apply preserve_enriched_item_writes|apply IH].
Qed.

Lemma accumulate_writes field (num : pyval) out out' :
  field ∈ stat_fields → accumulate field num out = Some out' →
  writes_only stat_fields out out'.
Proof.
  intros Hf. unfold accumulate. destruct (py_int num) as [n|]; [|done].
  cbn [mbind option_bind]. destruct (add_int _ n) as [v|]; [|done].
  cbn [mbind option_bind]. intros [= <-]. by apply writes_only_insert.
Qed.

Lemma map_stats_item_writes out (it : pyval) out' :
  map_stats_item out it = Some out' → writes_only stat_fields out out'.
Proof.
  unfold map_stats_item. destruct (item_name it) as [name|]; [|done].
  cbn [mbind option_bind]. destruct (py_get it "value") as [val|]; [|done].
  cbn [mbind option_bind].
  assert (Hin : ∀ f, f ∈ ["yards"; "completionPct"; "touchdowns"; "attempts"; "sacks"]%string
                     → f ∈ stat_fields) by done.
  destruct (contains "yards" name).
  { apply accumulate_writes, Hin. rewrite !elem_of_cons. tauto. }
  destruct (contains "completion" name).
  { intros [= <-]. apply writes_only_insert, Hin. rewrite !elem_of_cons. tauto. }
  destruct (contains "touchdown" name || contains "td" name).
  { apply accumulate_writes, Hin. rewrite !elem_of_cons. tauto. }
  destruct (contains "pass attempt" name || contains "passing attempts" name
            || contains "attempts" name && contains "pass" name).
  { destruct (py_int (stat_number val)); [|done]. cbn [mbind option_bind].
    intros [= <-]. apply writes_only_insert, Hin. rewrite !elem_of_cons. tauto. }
  destruct (contains "sack" name).
  { destruct (py_int (stat_number val)); [|done]. cbn [mbind option_bind].
    intros [= <-]. apply writes_only_insert, Hin. rewrite !elem_of_cons. tauto. }
  intros [= <-]. apply writes_only_refl.
Qed.

Lemma map_stats_writes (entry : pyval) out out' :
  map_stats entry out = Some out' → writes_only stat_fields out out'.
Proof.
  unfold map_stats. destruct (negb (truthy entry)).
  { intros [= <-]. apply writes_only_refl. }
  destruct (py_get entry "statistics") as [a|]; [|done]. cbn [mbind option_bind].
  destruct (py_get entry "stats") as [b|]; [|done]. cbn [mbind option_bind].
  destruct (py_or a (py_or b (PList []))) as [| | | | |items|]; try done.
  revert out. induction items as [|it items IH]; intros out.
  { intros [= <-]. apply writes_only_refl. }
  cbn [foldl mbind option_bind].
  destruct (map_stats_item out it) as [o1|] eqn:H1.
  - intros H2.
    eapply writes_only_trans; [exact (map_stats_item_writes _ _ _ H1)|by apply IH].
  - intros H2. exfalso. clear -H2. induction items as [|x l IHl]; [done|].
    cbn [foldl mbind option_bind] in H2. by apply IHl.
Qed.

(** A key that the source does not have is left as it is. *)
Lemma merged_under_absent k cur items :
  k ∉ items.*1 → merged_under k cur items = cur.
Proof.
  unfold merged_under. revert cur.
  induction items as [|[k' v] items IH]; intros cur Hk; [done|].
  cbn [fmap list_fmap fst] in Hk. apply not_elem_of_cons in Hk as [Hne Hk].
  cbn [foldl fst snd]. rewrite bool_decide_eq_false_2 by done. by apply IH.
Qed.

(** A key that the source has once goes through one round. *)
Lemma merged_under_once k cur items v :
  NoDup items.*1 → items_get items k = Some v →
  merged_under k cur items = Some (merged_value k cur v).
Proof.
  revert cur. induction items as [|[k' v'] items IH]; intros cur Hnd Hget; [done|].
  cbn [fmap list_fmap fst] in Hnd. apply NoDup_cons in Hnd as [Hk' Hnd].
  cbn [items_get] in Hget. unfold merged_under. cbn [foldl fst snd].
  case_bool_decide as Hk.
  - subst k'. inversion Hget; subst v'. by apply merged_under_absent.
  - by apply IH.
Qed.

(** X20.  The statistics normalisers write the five statistic fields and
    nothing else, and delete nothing: after [update_from_team_block],
    [preserve_enriched] or [map_stats], every other key of the record
    (the points among them) holds what it held, and every key that was
    there still is.  The whole merge of a team leaves such a key alone
    too, unless the team's ["statistics"] carries it. *)
Theorem normalisers_write_statistics_only :
  (∀ (team_obj : pyval) out out',
     update_from_team_block team_obj out = Some out' → writes_only stat_fields out out') ∧
  (∀ (team_obj : pyval) out, writes_only stat_fields out (preserve_enriched team_obj out)) ∧
  (∀ (entry : pyval) out out',
     map_stats entry out = Some out' → writes_only stat_fields out out') ∧
  (∀ d (entry : pyval) out out' k,
     merge_team (PDict d) entry out = Some out' →
     k ∉ stat_fields →
     (∀ items, items_get d "statistics" = Some (PDict items) → k ∉ items.*1) →
     out' !! k = out !! k).
Proof.
  split; [apply update_from_team_block_writes|].
  split; [apply preserve_enriched_writes|].
  split; [apply map_stats_writes|].
  intros d entry out out' k Hmerge Hk Hsource. unfold merge_team in Hmerge.
  destruct (update_from_team_block (PDict d) out) as [out1|] eqn:H1; [|done].
  cbn [mbind option_bind] in Hmerge.
  apply map_stats_writes in Hmerge. apply update_from_team_block_writes in H1.
  destruct (Hmerge k) as [Hm _]. rewrite (Hm Hk).
  destruct (preserve_enriched_writes (PDict d)
              (merge_preserve out1 (default (PDict []) (items_get d "statistics"))) k)
    as [Hp _].
  rewrite (Hp Hk). destruct (H1 k) as [Hu _]. rewrite <- (Hu Hk).
  destruct (items_get d "statistics") as [[| | | | | |items]|] eqn:Hs; try done.
  change (default (PDict []) (Some (PDict items))) with (PDict items).
  unfold merge_preserve.
  rewrite merge_items_lookup. apply merged_under_absent. by apply Hsource.
Qed.

(** X21.  [merge_preserve] fills the gaps and keeps the rest.  For a
    source without repeated keys: a field that the target lacks, or holds
    as zero or [None], takes the source's value; a field other than the
    touchdowns that the target holds as neither is left exactly as it is;
    touchdowns held as a non-zero [int] become the larger of the two
    counts when the source's is a positive [int], and stay otherwise; and
    a field that the source does not have is never touched. *)
Theorem merge_preserve_fills_gaps target items k v :
  NoDup items.*1 →
  items_get items k = Some v →
  (target !! k = None ∨ (∃ t, target !! k = Some t ∧ zero_or_none t = true) →
   merge_preserve target (PDict items) !! k = Some v) ∧
  (∀ t, k ≠ "touchdowns"%string → target !! k = Some t → zero_or_none t = false →
        merge_preserve target (PDict items) !! k = Some t) ∧
  (∀ a b, k = "touchdowns"%string → target !! k = Some (PInt a) → a ≠ 0 → v = PInt b →
          merge_preserve target (PDict items) !! k
          = Some (PInt (if 0 <? b then Z.max a b else a))) ∧
  (∀ k', k' ∉ items.*1 → merge_preserve target (PDict items) !! k' = target !! k').
Proof.
  intros Hnd Hget. unfold merge_preserve.
  split; [|split; [|split]].
  - intros Hgap. rewrite merge_items_lookup, (merged_under_once _ _ _ _ Hnd Hget).
    f_equal. unfold merged_value.
    destruct Hgap as [->|(t & -> & Ht)]; [done|]. by rewrite Ht.
  - intros t Hk Ht Hz. rewrite merge_items_lookup, (merged_under_once _ _ _ _ Hnd Hget).
    f_equal. unfold merged_value. rewrite Ht, Hz.
    by rewrite bool_decide_eq_false_2.
  - intros a b Hk Ht Ha ->.
    rewrite merge_items_lookup, (merged_under_once _ _ _ _ Hnd Hget).
    f_equal. unfold merged_value. rewrite Ht. cbn [zero_or_none eq_zero].
    destruct (a =? 0) eqn:Ea; [lia|]. rewrite bool_decide_eq_true_2 by done.
    assert (Hint : ∀ z, py_int (py_or (PInt z) (PInt 0)) = Some z).
    { intros z. unfold py_or. cbn [truthy]. destruct (z =? 0) eqn:Ez; cbn [negb py_int].
      - f_equal. lia.
      - done. }
    rewrite !Hint. destruct (0 <? b) eqn:Eb; cbn [andb].
    + destruct (a <? b) eqn:Eab; f_equal; lia.
    + done.
  - intros k' Hk'. rewrite merge_items_lookup. by apply merged_under_absent.
Qed.

(** *** The enriched statistics *)

(** A round of [preserve_enriched] makes the write its item decides. *)
Lemma preserve_enriched_item_write out kv :
  preserve_enriched_item out kv
  = match enriched_write kv with
    | Some (f, c) => <[f := c]> out
    | None => out
    end.
Proof.
  destruct kv as [k v]. unfold preserve_enriched_item, enriched_write.
  destruct (blank v); [done|].
  destruct (contains "yard" (lower k)).
  { by destruct (enriched v ≫= int_of_float). }
  destruct (contains "completion" (lower k)).
  { by destruct (enriched v). }
  destruct (contains "touchdown" (lower k) || bool_decide (lower k = "td")
            || contains " td" (lower k)).
  { by destruct (enriched v ≫= int_of_float). }
  destruct (contains "attempt" (lower k)).
  { by destruct (enriched v ≫= int_of_float). }
  destruct (contains "sack" (lower k)); [|done].
  by destruct (enriched v ≫= int_of_float).
Qed.

(** What the rounds leave under a field: the last write to it, or what
    was there. *)
Lemma preserve_enriched_lookup items out field :
  foldl preserve_enriched_item out items !! field
  = match last_enriched field items with
    | Some c => Some c
    | None => out !! field
    end.
Proof.
  unfold last_enriched.
  revert out. induction items as [|kv items IH] using rev_ind; intros out; [done|].
  rewrite !foldl_app. cbn [foldl]. rewrite preserve_enriched_item_write.
  destruct (enriched_write kv) as [[f c]|].
  - destruct (decide (f = field)) as [->|Hne].
    + rewrite lookup_insert_eq. by rewrite bool_decide_eq_true_2.
    + rewrite lookup_insert_ne by done. rewrite bool_decide_eq_false_2 by done. apply IH.
  - apply IH.
Qed.

(** X25.  [preserve_enriched] is idempotent, and what it writes does not
    depend on the record: applying it twice with the same team gives
    exactly the record that applying it once gives, and a field that some
    statistic of the team writes ends with the same value whatever the
    record held. *)
Theorem preserve_enriched_idempotent (team_obj : pyval) out :
  preserve_enriched team_obj (preserve_enriched team_obj out)
  = preserve_enriched team_obj out ∧
  ∀ out2 field,
    preserve_enriched team_obj out !! field = out !! field ∨
    preserve_enriched team_obj out !! field = preserve_enriched team_obj out2 !! field.
Proof.
  unfold preserve_enriched.
  destruct team_obj as [| | | | | |d]; try by (split; [|left]).
  match goal with |- context [match ?x with PDict _ => _ | _ => _ end] =>
    destruct x as [| | | | | |stats] end; try by (split; [|left]).
  split.
  - apply map_eq. intros field. rewrite !preserve_enriched_lookup.
    by destruct (last_enriched field stats).
  - intros out2 field. rewrite !preserve_enriched_lookup.
    destruct (last_enriched field stats); [by right|by left].
Qed.
End MergeProperties.

(** ** The touchdown enrichment *)

Section EnrichmentProperties.
Context `{B : Py.Builtins}.
Import Py Agent.

Implicit Types (m : gmap string (gmap string pyval)) (abbr field : string).

Lemma set_touchdowns_field abbr n m abbr' field :
  team_field abbr' field (set_touchdowns abbr n m)
  = if bool_decide (abbr' = abbr ∧ field = "touchdowns"%string)
    then Some (PInt n) else team_field abbr' field m.
Proof.
  unfold team_field, set_touchdowns.
  destruct (decide (abbr' = abbr)) as [->|Hne].
  - rewrite lookup_insert_eq.
    destruct (decide (field = "touchdowns"%string)) as [->|Hf].
    + rewrite lookup_insert_eq. by rewrite bool_decide_eq_true_2.
    + rewrite lookup_insert_ne by done.
      rewrite bool_decide_eq_false_2 by intuition congruence.
      by destruct (m !! abbr).
  - rewrite lookup_insert_ne by done.
    by rewrite bool_decide_eq_false_2 by intuition congruence.
Qed.

Lemma enrich_side_field abbr tds_box tds_tp m abbr' field :
  team_field abbr' field (enrich_side abbr tds_box tds_tp m)
  = if bool_decide (abbr ≠ EmptyString ∧ abbr' = abbr ∧ field = "touchdowns"%string
                    ∧ 0 < (if 0 <? tds_box then tds_box else tds_tp))
    then Some (PInt (if 0 <? tds_box then tds_box else tds_tp))
    else team_field abbr' field m.
Proof.
  unfold enrich_side. case_bool_decide as Hempty.
  { by rewrite bool_decide_eq_false_2 by intuition congruence. }
  destruct (0 <? (if 0 <? tds_box then tds_box else tds_tp)) eqn:Hbest.
  - rewrite set_touchdowns_field. apply Z.ltb_lt in Hbest.
    case_bool_decide as H1.
    + by rewrite bool_decide_eq_true_2 by intuition congruence.
    + by rewrite bool_decide_eq_false_2 by intuition congruence.
  - apply Z.ltb_ge in Hbest. rewrite bool_decide_eq_false_2; [done|]. lia.
Qed.

(** C2, as the code has it.  In the enrichment from [boxScores] and
    [topPerformers], the touchdowns of a side become its box-score total
    when that is positive, else its top-performers total when that is
    positive, and are left as they were otherwise; the last positive
    source replaces the value whatever it was, so the rule is not a
    maximum.  Every other field of the record is left as it was.  In
    particular, with an earlier value (2, say), a box-score total of 0
    and a top-performers total of 3, the touchdowns end at exactly 3. *)
Theorem touchdowns_take_last_positive_total details home_abbr away_abbr m
    home_tds_box away_tds_box home_tds_tp away_tds_tp :
  let box := py_or (dict_get details "boxScores")
               (py_or (dict_get details "boxscores") (PDict [])) in
  let tp := py_or (dict_get details "topPerformers") (PDict []) in
  _sum_td_from_players (side_players box "homeTeam" "home") = Some home_tds_box →
  _sum_td_from_players (side_players box "awayTeam" "away") = Some away_tds_box →
  _sum_td_from_players (side_players tp "homeTeam" "home") = Some home_tds_tp →
  _sum_td_from_players (side_players tp "awayTeam" "away") = Some away_tds_tp →
  home_abbr ≠ EmptyString →
  away_abbr ≠ EmptyString →
  home_abbr ≠ away_abbr →
  let m' := enrich_touchdowns details home_abbr away_abbr m in
  let best_home := if 0 <? home_tds_box then home_tds_box else home_tds_tp in
  let best_away := if 0 <? away_tds_box then away_tds_box else away_tds_tp in
  team_field home_abbr "touchdowns" m'
  = (if 0 <? best_home then Some (PInt best_home)
     else team_field home_abbr "touchdowns" m) ∧
  team_field away_abbr "touchdowns" m'
  = (if 0 <? best_away then Some (PInt best_away)
     else team_field away_abbr "touchdowns" m) ∧
  (∀ abbr field, field ≠ "touchdowns"%string →
                 team_field abbr field m' = team_field abbr field m) ∧
  (home_tds_box = 0 → home_tds_tp = 3 →
   team_field home_abbr "touchdowns" m' = Some (PInt 3)).
Proof.
  intros box tp Hhb Hab Hht Hat Hhome Haway Hne m' best_home best_away.
  assert (Hm' : m' = enrich_side away_abbr away_tds_box away_tds_tp
                       (enrich_side home_abbr home_tds_box home_tds_tp m)).
  { subst m'. unfold enrich_touchdowns. fold box. fold tp.
    by rewrite Hhb, Hab, Hht, Hat. }
  assert (Hh : team_field home_abbr "touchdowns" m'
               = if 0 <? best_home then Some (PInt best_home)
                 else team_field home_abbr "touchdowns" m).
  { rewrite Hm', !enrich_side_field.
    rewrite (bool_decide_eq_false_2 (_ ∧ home_abbr = away_abbr ∧ _)) by intuition congruence.
    fold best_home. destruct (0 <? best_home) eqn:E.
    - apply Z.ltb_lt in E. by rewrite bool_decide_eq_true_2.
    - apply Z.ltb_ge in E. rewrite bool_decide_eq_false_2; [done|]. lia. }
  split; [done|]. split; [|split].
  - rewrite Hm', !enrich_side_field.
    rewrite (bool_decide_eq_false_2 (_ ∧ away_abbr = home_abbr ∧ _)) by intuition congruence.
    fold best_away. destruct (0 <? best_away) eqn:E.
    + apply Z.ltb_lt in E. by rewrite bool_decide_eq_true_2.
    + apply Z.ltb_ge in E. rewrite bool_decide_eq_false_2; [done|]. lia.
  - intros abbr field Hf. rewrite Hm', !enrich_side_field.
    by rewrite !bool_decide_eq_false_2 by intuition congruence.
  - intros Hbox Htp. rewrite Hh. subst best_home. by rewrite Hbox, Htp.
Qed.
End EnrichmentProperties.

(** ** Team abbreviations *)

Section TeamNameProperties.
Import Py Agent.

Lemma map_chars_append f s t : map_chars f (s +:+ t) = map_chars f s +:+ map_chars f t.
Proof.
  induction s as [|c s IH]; [done|].
  change (String c s +:+ t) with (String c (s +:+ t)). cbn [map_chars].
  rewrite IH. reflexivity.
Qed.

(** Every key of the table is in the form the lookup brings a name to,
    and is found with its own value. *)
Lemma abbrev_map_reachable :
  Forall (λ kv : string * string,
            abbrev_get abbrev_map (strip (lower kv.1)) = Some kv.2) abbrev_map.
Proof. apply (bool_decide_unpack _). vm_compute. exact I. Qed.

Lemma abbrev_map_ascii :
  Forall (λ kv : string * string, is_ascii kv.1 = true) abbrev_map.
Proof. apply (bool_decide_unpack _). vm_compute. exact I. Qed.

Lemma abbrev_map_nonempty :
  Forall (λ kv : string * string, kv.2 ≠ EmptyString) abbrev_map.
Proof. apply (bool_decide_unpack _). vm_compute. exact I. Qed.

Lemma abbrev_get_value (m : list (string * string)) key v :
  abbrev_get m key = Some v → (key, v) ∈ m.
Proof.
  induction m as [|[k' v'] m IH]; [done|]. cbn [abbrev_get].
  case_bool_decide as Hk.
  - intros [= <-]. subst k'. apply elem_of_cons. by left.
  - intros H. apply elem_of_cons. right. by apply IH.
Qed.

Lemma whitespace_map_chars f s :
  (∀ c, is_space (f c) = is_space c) → whitespace (map_chars f s) = whitespace s.
Proof.
  intros Hf. induction s as [|c s IH]; [done|].
  cbn [map_chars whitespace]. by rewrite Hf, IH.
Qed.

(** X26.  [_get_team_abbreviation] ignores the case of an ASCII name and
    the white space around it (any run of blanks, tabs, line ends or
    separators); every entry of its table is reachable (its key, in any
    case, gives its abbreviation); and an abbreviation returned is never
    empty, so that testing the result for truth, as the callers do, tests
    whether the team was found. *)
Theorem abbreviation_lookup_normalises team_name :
  is_ascii team_name = true →
  _get_team_abbreviation (upper team_name) = _get_team_abbreviation team_name ∧
  _get_team_abbreviation (lower team_name) = _get_team_abbreviation team_name ∧
  (∀ pre post,
     whitespace pre = true → whitespace post = true →
     _get_team_abbreviation (pre +:+ team_name +:+ post)
     = _get_team_abbreviation team_name) ∧
  (∀ k v, (k, v) ∈ abbrev_map →
          is_ascii k = true ∧
          _get_team_abbreviation k = Some v ∧
          _get_team_abbreviation (upper k) = Some v) ∧
  (∀ v, _get_team_abbreviation team_name = Some v → v ≠ EmptyString).
Proof.
  intros _. unfold _get_team_abbreviation. split; [|split; [|split; [|split]]].
  - by rewrite lower_upper.
  - by rewrite lower_lower.
  - intros pre post Hpre Hpost. unfold lower. rewrite !map_chars_append.
    apply f_equal, strip_whitespace.
    + by rewrite (whitespace_map_chars lower_char pre is_space_lower_char).
    + by rewrite (whitespace_map_chars lower_char post is_space_lower_char).
  - intros k v Hin. split; [|split].
    + exact (proj1 (Forall_forall _ _) abbrev_map_ascii _ Hin).
    + exact (proj1 (Forall_forall _ _) abbrev_map_reachable _ Hin).
    + rewrite lower_upper.
      exact (proj1 (Forall_forall _ _) abbrev_map_reachable _ Hin).
  - intros v Hget. apply abbrev_get_value in Hget.
    exact (proj1 (Forall_forall _ _) abbrev_map_nonempty _ Hget).
Qed.

End TeamNameProperties.



Lemma client_error_fails_fast_witness :
  ∃ result w',
    Highlightly._make_request Exact.key (Exact.always 404) Highlightly.init
      Exact.world0 "/teams" [] 10
    = (result,
       (Highlightly._get_cached_data Highlightly.init Exact.world0
          (Exact.key "/teams" (Highlightly.pop_sport []))).1.2, w') ∧
    result = Highlightly.error_dict ("Client error " +:+ pretty 404) 404 "/teams" ∧
    Py.py_get result "status" = Some (Py.PInt 404) ∧
    Highlightly.sent w' = [("/teams"%string, [])] ∧
    Highlightly.slept w' = [].
Proof.
  apply (client_error_fails_fast Exact.key (Exact.always 404) Highlightly.init
           Exact.world0 "/teams" [] 10 404 Highlightly.NotJson).
  - reflexivity.
  - reflexivity.
  - lia.
  - lia.
Defined.

Lemma falsy_body_cached_not_served_witness :
  ∃ c' w',
    Highlightly._make_request Exact.key Exact.empty_ok Highlightly.init
      Exact.world0 "/matches" [] 10 = (Py.PList [], c', w') ∧
    Highlightly._cache c' !! Exact.key "/matches" [] = Some (Py.PList []) ∧
    Highlightly._is_cache_valid c' Exact.world0 (Exact.key "/matches" []) = true ∧
    ∃ rest,
      Highlightly.sent
        (Highlightly._make_request Exact.key Exact.empty_ok c' Exact.world0
           "/matches" [] 10).2
      = ("/matches"%string, []) :: rest.
Proof.
  destruct (falsy_body_cached_not_served Exact.key Exact.empty_ok Highlightly.init
              Exact.world0 "/matches" [] 10 200 (Py.PList []))
    as (c' & w' & Hreq & Hcache & _ & _ & _ & Hagain).
  - reflexivity.
  - reflexivity.
  - lia.
  - reflexivity.
  - exists c', w'. split; [exact Hreq|]. split; [exact Hcache|].
    apply (Hagain Exact.world0 10). reflexivity.
Defined.

Lemma durable_hit_not_promoted_witness :
  ∃ c',
    Highlightly._get_cached_data Highlightly.init Exact.durable_world "k"
    = (Py.PList [Py.PInt 1], c', Exact.durable_world) ∧
    Highlightly._cache c' !! "k" = None ∧
    Highlightly._cache_expiry c' !! "k" = None.
Proof.
  destruct (durable_hit_not_promoted Highlightly.init Exact.durable_world "k" 100
              (Py.PList [Py.PInt 1]))
    as (c' & Hget & Hcache & Hexpiry & _).
  - reflexivity.
  - reflexivity.
  - reflexivity.
  - exists c'. split; [exact Hget|]. split; [exact Hcache|exact Hexpiry].
Defined.

(** C9, as stated, fails: a read that misses the in-process tier and hits
    an unexpired file returns the file's data and leaves the in-process
    dictionary without the key; the next read is answered by the cache
    directory again, and returns nothing once the file is gone. *)
Lemma durable_hit_leaves_memory_empty :
  let r := Highlightly._get_cached_data Highlightly.init Exact.durable_world "k" in
  r.1.1 = Py.PList [Py.PInt 1] ∧
  Highlightly._cache r.1.2 !! "k" = None ∧
  (Highlightly._get_cached_data r.1.2
     (Highlightly.set_files Exact.durable_world ∅) "k").1.1 = Py.PNone.
Proof. split; [|split]; reflexivity. Qed.

Lemma resolution_caches_successes_only_witness :
  let up := Exact.serving (Py.PDict [("data", Py.PList [])]) in
  ∃ c1 w1,
    Highlightly.resolve_cache_key "Zebras" "" "" "NFL" = "NFL|zebras"%string ∧
    Highlightly.resolve_team_id Exact.key up Exact.warm_client Exact.world0
      "Zebras" "" "" "NFL" = Some (Py.PNone, c1, w1) ∧
    Highlightly._team_id_cache c1 = ∅ ∧
    Highlightly.sent w1
    = [("/teams"%string, [("name", Py.PStr "Zebras"); ("league", Py.PStr "NFL")])] ∧
    Highlightly.resolve_team_id Exact.key up c1 w1 "Zebras" "" "" "NFL"
    = Some (Py.PNone, c1, w1) ∧
    ∃ c3 w3,
      Highlightly.resolve_team_id Exact.key up c1
        (Exact.at_instant w1 (120 * us_per_minute)) "Zebras" "" "" "NFL"
      = Some (Py.PNone, c3, w3) ∧
      length (Highlightly.sent w3) = 2%nat.
Proof.
  intros up. eexists _, _. split; [reflexivity|]. split; [reflexivity|].
  split; [reflexivity|]. split; [reflexivity|].
  assert (Hrange : 200 ≤ 200 < 300) by lia.
  split; [|eexists _, _; split; reflexivity].
  apply (proj1 (proj1 (proj2 (proj2 (proj2 (proj2 (proj2
    (resolution_caches_successes_only Exact.key up Exact.warm_client Exact.world0
       "Zebras" "" "" "NFL" Py.PNone _ _ eq_refl))))
    200 (Py.PDict [("data", Py.PList [])]) eq_refl eq_refl eq_refl eq_refl Hrange
    eq_refl)) eq_refl)).
  reflexivity.
Defined.

(** C8, as stated, fails: with the catalogue loaded and an upstream that
    answers the team search with an empty list, the lookup fails, nothing
    is stored in the resolution cache, and the same lookup at the same
    instant sends a second request to the upstream. *)
Lemma failed_resolution_queries_again :
  ∃ c1 w1 c2 w2,
    Highlightly.resolve_team_id Exact.key Exact.empty_ok Exact.warm_client
      Exact.world0 "Zebras" "" "" "NFL" = Some (Py.PNone, c1, w1) ∧
    Highlightly._team_id_cache c1 = ∅ ∧
    length (Highlightly.sent w1) = 1%nat ∧
    Highlightly.resolve_team_id Exact.key Exact.empty_ok c1 w1 "Zebras" "" "" "NFL"
    = Some (Py.PNone, c2, w2) ∧
    Highlightly.now w2 = Highlightly.now Exact.world0 ∧
    length (Highlightly.sent w2) = 2%nat.
Proof.
  eexists _, _, _, _. split; [reflexivity|]. split; [reflexivity|].
  split; [reflexivity|]. split; [reflexivity|]. split; reflexivity.
Qed.


(** C7, as stated, fails: [map_stats] adds the yards of its items to the
    record, so merging the same entry twice counts them twice. *)
Lemma map_stats_twice_counts_twice :
  let entry :=
    Py.PDict (B := Exact.builtins)
      [("statistics",
        Py.PList [Py.PDict [("name", Py.PStr "Total Yards"); ("value", Py.PInt 100)]])] in
  Exact.field "yards" (Agent.map_stats entry ∅) = Some (Py.PInt 100) ∧
  Exact.field "yards" (Exact.again entry (Agent.map_stats entry ∅))
  = Some (Py.PInt 200).
Proof. split; reflexivity. Qed.

Lemma zero_never_replaces_guarded_fields_witness :
  ∃ t', Agent.merge_preserve (B := Exact.builtins) {[ "yards" := Py.PInt 150 ]}
          (Py.PDict [("yards", Py.PInt 0)]) !! "yards" = Some t' ∧
        Agent.zero_or_none t' = false.
Proof.
  apply (proj1 zero_never_replaces_guarded_fields
           {[ "yards" := Py.PInt 150 ]} (Py.PDict [("yards", Py.PInt 0)])
           "yards" (Py.PInt 150)); reflexivity.
Defined.

(** C1, as stated, fails.  For a team whose block reports 3 sacks and whose
    match-level entry reports 0, the record holds 3 sacks after the team
    block and 0 after the last merge step.  For a team whose block reports
    150 yards and ["0.0"] rushing yards, and no match-level entry, the
    record holds 150 yards after the team block and 0 after
    [preserve_enriched].  And [update_from_team_block] itself writes a
    zero of the team block over 150 yards. *)
Lemma zero_replaces_nonzero :
  let team :=
    Py.PDict (B := Exact.builtins)
      [("name", Py.PStr "A"); ("statistics", Py.PDict [("sacks", Py.PInt 3)])] in
  let entry :=
    Py.PDict
      [("team", Py.PDict [("name", Py.PStr "A")]);
       ("statistics",
        Py.PList [Py.PDict [("name", Py.PStr "Sacks"); ("value", Py.PInt 0)]])] in
  let runner :=
    Py.PDict
      [("name", Py.PStr "A");
       ("statistics",
        Py.PDict [("yards", Py.PInt 150); ("rushingYards", Py.PStr "0.0")])] in
  Exact.field "sacks" (Agent.update_from_team_block team Agent.empty)
  = Some (Py.PInt 3) ∧
  Exact.field "sacks" (Agent.merge_team team entry Agent.empty) = Some (Py.PInt 0) ∧
  Exact.field "yards" (Agent.update_from_team_block runner Agent.empty)
  = Some (Py.PInt 150) ∧
  Exact.field "yards" (Agent.merge_team runner Py.PNone Agent.empty)
  = Some (Py.PInt 0) ∧
  Exact.field "yards"
    (Agent.update_from_team_block
       (Py.PDict [("statistics", Py.PDict [("yards", Py.PInt 0)])])
       {[ "yards" := Py.PInt 150 ]}) = Some (Py.PInt 0).
Proof. repeat split. Qed.

Lemma touchdowns_take_last_positive_total_witness :
  Agent.team_field "X" "touchdowns"
    (Agent.enrich_touchdowns Exact.scenario "X" "Y"
       {[ "X" := {[ "touchdowns" := Py.PInt 2 ]} ]}) = Some (Py.PInt 3).
Proof.
  refine (proj2 (proj2 (proj2
    (touchdowns_take_last_positive_total Exact.scenario "X" "Y"
       {[ "X" := {[ "touchdowns" := Py.PInt 2 ]} ]} 0 0 3 0 _ _ _ _ _ _ _))) _ _);
    first [reflexivity | discriminate].
Defined.

(** C2, as stated, fails: with 5 touchdowns already reconciled for the
    team, a box score that reports 2 leaves 2, so the value regresses and
    is not the maximum over the sources; and [map_stats] replaces 30
    attempts already set by the 25 of a match-level item. *)
Lemma touchdowns_regress :
  Agent.team_field "X" "touchdowns"
    (Agent.enrich_touchdowns Exact.box_two "X" "Y"
       {[ "X" := {[ "touchdowns" := Py.PInt 5 ]} ]}) = Some (Py.PInt 2) ∧
  Exact.field "attempts"
    (Agent.map_stats
       (Py.PDict [("statistics",
                   Py.PList [Py.PDict [("name", Py.PStr "Passing Attempts");
                                       ("value", Py.PInt 25)]])])
       {[ "attempts" := Py.PInt 30 ]}) = Some (Py.PInt 25).
Proof. split; reflexivity. Qed.

(** ** Runs of the further properties on concrete inputs *)

Lemma simple_cache_delete_removes_witness :
  (SimpleCache.get
     (SimpleCache.delete (SimpleCache.set SimpleCache.init "b" 7 300 0) "a") "b" 0).1
  = (SimpleCache.get (SimpleCache.set SimpleCache.init "b" 7 300 0) "b" 0).1.
Proof.
  apply (proj1 (proj2 (simple_cache_delete_removes
                         (SimpleCache.set SimpleCache.init "b" 7 300 0) "a"))).
  discriminate.
Defined.

Lemma simple_cache_cleanup_expired_witness :
  (SimpleCache.get
     (SimpleCache.cleanup_expired (SimpleCache.set SimpleCache.init "k" 7 1 0) 2000000)
     "k" 2000000).1
  = (SimpleCache.get (SimpleCache.set SimpleCache.init "k" 7 1 0) "k" 2000000).1.
Proof.
  apply (proj2 (proj2 (proj2 (simple_cache_cleanup_expired
                                (SimpleCache.set SimpleCache.init "k" 7 1 0) 2000000)))).
  lia.
Defined.

Lemma simple_cache_keys_independent_witness :
  (SimpleCache.get
     (SimpleCache.set (SimpleCache.set SimpleCache.init "b" 7 300 0) "a" 1 300 0) "b" 5).1
  = (SimpleCache.get (SimpleCache.set SimpleCache.init "b" 7 300 0) "b" 5).1.
Proof.
  apply (proj1 (simple_cache_keys_independent
                  (SimpleCache.set SimpleCache.init "b" 7 300 0) "a" "b" 1 300 0 5
                  ltac:(discriminate))).
Defined.

Lemma cached_data_served_until_expiry_witness :
  let c' := (Highlightly._cache_data Highlightly.init Exact.world0 "k" (Py.PList []) 10).1 in
  Highlightly._get_cached_data c' Exact.world0 "k" = (Py.PList [], c', Exact.world0).
Proof.
  intros c'.
  apply (proj1 (cached_data_served_until_expiry Highlightly.init Exact.world0 "k"
                  (Py.PList []) 10)).
  reflexivity.
Defined.

Lemma cached_data_survives_restart_witness :
  let w2 := (Highlightly._cache_data Highlightly.init Exact.world0 "k"
               (Py.PList [Py.PInt 1]) 10).2 in
  (Highlightly._get_cached_data Highlightly.init w2 "k").1.1 = Py.PList [Py.PInt 1] ∧
  (Highlightly._get_cached_data Highlightly.init w2 "k").2 = w2.
Proof.
  intros w2.
  apply (proj1 (cached_data_survives_restart Highlightly.init Exact.world0 "k"
                  (Py.PList [Py.PInt 1]) 10)); reflexivity.
Defined.

Lemma stale_lookup_evicts_witness :
  Highlightly._cache
    (Highlightly._get_cached_data Highlightly.init Exact.durable_world "k").1.2 !! "k"
  = None.
Proof.
  apply (proj1 (stale_lookup_evicts Highlightly.init Exact.durable_world "k" eq_refl)).
Defined.

Lemma transient_failures_recovered_witness :
  ∃ c' w',
    Highlightly._make_request Exact.key Exact.recovering Highlightly.init Exact.world0
      "/matches" [] 10 = (Py.PList [Py.PInt 1], c', w') ∧
    length (Highlightly.sent w') = 2%nat ∧
    Highlightly.slept w' = [1].
Proof.
  destruct (transient_failures_recovered Exact.key Exact.recovering Highlightly.init
              Exact.world0 "/matches" [] 10 1 200 (Py.PList [Py.PInt 1]))
    as (c' & w' & Hreq & Hsent & Hslept & _).
  - reflexivity.
  - unfold Highlightly.max_attempts. lia.
  - intros i Hi. destruct i; [reflexivity|lia].
  - reflexivity.
  - lia.
  - exists c', w'. split; [exact Hreq|]. rewrite Hsent, Hslept. split; reflexivity.
Defined.



Lemma successful_response_reused_witness :
  ∃ c' w',
    Highlightly._make_request Exact.key (Exact.serving (Py.PList [Py.PInt 1]))
      Highlightly.init Exact.world0 "/matches" [] 10 = (Py.PList [Py.PInt 1], c', w') ∧
    Highlightly._make_request Exact.key (Exact.serving (Py.PList [Py.PInt 1])) c'
      Exact.world0 "/matches" [("sport", Py.PStr "nfl")] 10
    = (Py.PList [Py.PInt 1], c', Exact.world0).
Proof.
  destruct (successful_response_reused Exact.key (Exact.serving (Py.PList [Py.PInt 1]))
              Highlightly.init Exact.world0 "/matches" [] 10 200 (Py.PList [Py.PInt 1]))
    as (c' & w' & Hreq & _ & _ & Hagain & _).
  - reflexivity.
  - reflexivity.
  - lia.
  - reflexivity.
  - exists c', w'. split; [exact Hreq|].
    apply (Hagain Exact.world0 [("sport", Py.PStr "nfl")] 10); reflexivity.
Defined.

Lemma team_lookups_bounded_witness :
  ∃ r c' w',
    Highlightly.resolve_team_id Exact.key Exact.empty_ok Exact.warm_client Exact.world0
      "Zebras" "" "" "NFL" = Some (r, c', w') ∧
    Highlightly.sends Exact.world0 w' Highlightly.teams_endpoint 4.
Proof.
  eexists _, _, _. split; [reflexivity|].
  refine (proj2 (proj2 (team_lookups_bounded Exact.key Exact.empty_ok Exact.warm_client
                          Exact.world0) "Zebras" "" "" "NFL" _ _ _ eq_refl) eq_refl).
Defined.

Lemma team_catalogue_persisted_witness :
  ∃ c' w',
    Highlightly.get_all_teams Exact.key Exact.empty_ok Highlightly.init Exact.world0 500 5
    = (Some (Py.PList []), c', w') ∧
    Highlightly.get_all_teams Exact.key Exact.empty_ok Highlightly.init w' 500 5
    = (Some (Py.PList []), Highlightly.set_teams_cache Highlightly.init (Py.PList []), w').
Proof.
  eexists _, _. split; [reflexivity|].
  refine (proj2 (proj2 (team_catalogue_persisted Exact.key Exact.empty_ok Highlightly.init
                          Exact.world0 500 5 (Py.PList []) _ _ eq_refl _ eq_refl))
            eq_refl Highlightly.init _ 500 5%nat eq_refl eq_refl eq_refl).
  intros e d H. unfold Exact.world0 in H. cbn [Highlightly.files] in H.
  rewrite lookup_empty in H. discriminate H.
Defined.

Lemma head_to_head_needs_both_teams_witness :
  ∃ c2 w2,
    Highlightly.get_head_to_head Exact.key Exact.empty_ok Exact.warm_client Exact.world0
      "Zebras" "Lions" "NFL" = Some (Py.PList [], c2, w2) ∧
    Highlightly.sends Exact.world0 w2 Highlightly.teams_endpoint 56.
Proof.
  eexists _, _.
  refine (proj1 (head_to_head_needs_both_teams Exact.key Exact.empty_ok Exact.warm_client
                   Exact.world0 "Zebras" "Lions" "NFL" _ _ _ _ _ _ eq_refl eq_refl)
            (or_introl eq_refl)).
Defined.

Lemma match_id_cached_for_good_witness :
  ∃ c' ids' w',
    Highlightly.find_match_id_by_abbrevs Exact.key
      (Exact.serving (Py.PDict [("data", Py.PList [Py.PDict [("id", Py.PInt 9)]])]))
      Highlightly.init ∅ Exact.world0 "NFL" "2025-09-21" 2025 "DET" "CHI"
    = Some (Py.PInt 9, c', ids', w') ∧
    ids' !! Highlightly.match_id_key "NFL" "2025-09-21" 2025 "DET" "CHI" = Some (Py.PInt 9).
Proof.
  eexists _, _, _. split; [reflexivity|].
  refine (proj1 (proj2 (match_id_cached_for_good Exact.key
    (Exact.serving (Py.PDict [("data", Py.PList [Py.PDict [("id", Py.PInt 9)]])]))
    Highlightly.init ∅ Exact.world0 "NFL" "2025-09-21" 2025 "DET" "CHI" _ _ _ _ eq_refl))
    eq_refl).
Defined.

Lemma warm_up_reports_catalogue_size_witness :
  let warm :=
    Highlightly.warm_highlightly_cache Exact.key
      (Exact.serving (Py.PList [Py.PDict [("id", Py.PInt 1)]]))
      Highlightly.init Exact.world0 "NFL" in
  warm.1.1 = 1 ∧
  ∃ r c2 w3,
    Highlightly.resolve_team_id Exact.key
      (Exact.serving (Py.PList [Py.PDict [("id", Py.PInt 1)]]))
      warm.1.2 Exact.world0 "Lions" "" "" "NFL" = Some (r, c2, w3) ∧
    Highlightly.sends Exact.world0 w3 Highlightly.teams_endpoint 4.
Proof.
  intros warm. split; [reflexivity|].
  eexists _, _, _. split; [reflexivity|].
  refine (proj2 (proj2 (warm_up_reports_catalogue_size Exact.key
    (Exact.serving (Py.PList [Py.PDict [("id", Py.PInt 1)]]))
    Highlightly.init Exact.world0 "NFL")) _ Exact.world0 "Lions" "" "" "NFL" _ _ _ eq_refl).
  reflexivity.
Defined.

Lemma resolution_key_normalised_witness :
  Highlightly.resolve_team_id Exact.key Exact.empty_ok Exact.lions_client Exact.world0
    "LIONS" "" "" "nfl"
  = Some (Py.PInt 7, Exact.lions_client, Exact.world0) ∧
  Highlightly.resolve_team_id Exact.key Exact.empty_ok Exact.lions_client Exact.world0
    (String "009" (String " " (String "L" (String "i" (String "o" (String "n" (String "s"
       (String "031" (String "010" EmptyString))))))))) "" "" "NFL"
  = Some (Py.PInt 7, Exact.lions_client, Exact.world0).
Proof.
  pose proof (proj2 (proj2 (proj2 (resolution_key_normalised Exact.key Exact.empty_ok
    "Lions" "" "" "NFL" eq_refl eq_refl eq_refl eq_refl)))
    Exact.lions_client Exact.world0 (Py.PInt 7)
    (String "009" (String " " EmptyString)) (String "031" (String "010" EmptyString))
    eq_refl eq_refl eq_refl eq_refl) as H.
  split; [exact (proj1 H)|exact (proj2 (proj2 H))].
Defined.

Lemma h2h_key_identifies_pair_witness :
  Agent.h2h_cache_key "BEARS" "LIONS" "nfl" = "H2H:NFL:bears|lions"%string ∧
  Agent.h2h_cache_key "Lions" "Bears" "" = "H2H:NFL:bears|lions"%string ∧
  Agent.h2h_cache_key "Lions" "Bears" "ncaa" = "H2H:NCAA:bears|lions"%string ∧
  Agent.h2h_cache_key "Lions" "Packers" "NFL" ≠ Agent.h2h_cache_key "Lions" "Bears" "NFL".
Proof.
  pose proof (h2h_key_identifies_pair "Bears" "Lions" "NFL" eq_refl eq_refl eq_refl)
    as (Horder & Hupper & _ & _ & _).
  pose proof (h2h_key_identifies_pair "Lions" "Bears" "NFL" eq_refl eq_refl eq_refl)
    as (_ & _ & _ & Hmissing & Hsame).
  split; [exact Hupper|]. split; [exact Hmissing|]. split; [reflexivity|].
  intros Hkey.
  destruct (proj1 (Hsame "Lions" "Packers" "NFL" eq_refl eq_refl eq_refl eq_refl eq_refl
                     eq_refl) Hkey) as [_ [[_ H]|[H _]]]; discriminate H.
Defined.

Lemma last_known_good_served_witness :
  let enriched :=
    Py.PList [Py.PDict [("id", Py.PInt 1);
                        ("homeTeam",
                         Py.PDict [("statistics",
                                    Py.PDict [("touchdowns", Py.PInt 2)])])]] in
  let s1 := (Agent.head_to_head Exact.flaky Exact.own_list Exact.fresh "Lions" "Bears" ""
               "american_football").2 in
  let s2 := Agent.update_in_place s1 0%nat enriched in
  Agent.head_to_head Exact.flaky Exact.own_list s2 "BEARS" "lions" "nfl"
    "american_football"
  = (Agent.Returned
       (Py.PDict [("data", enriched);
                  ("sport", Py.PStr "american_football");
                  ("type", Py.PStr "head_to_head"); ("cache", Py.PBool true)]),
     {| Agent._h2h_cache := Agent._h2h_cache s2; Agent.objects := Agent.objects s2;
        Agent.calls := 2; Agent.slept := [] |}) ∧
  Agent.slept (Agent.head_to_head Exact.flaky Exact.own_list s2 "Lions" "Packers" ""
                 "american_football").2 = [500000].
Proof.
  intros enriched s1 s2.
  pose proof (last_known_good_served Exact.flaky Exact.own_list Exact.fresh
                "Lions" "Bears" "" "american_football" 0%nat
                (Py.PList [Py.PDict [("id", Py.PInt 1)]]) s1 eq_refl
                s2 enriched eq_refl eq_refl eq_refl eq_refl eq_refl eq_refl)
    as (_ & _ & Hsame & Hother).
  split.
  - exact (Hsame "BEARS" "lions" "nfl" "american_football" eq_refl eq_refl eq_refl
             (or_intror (conj eq_refl eq_refl)) eq_refl eq_refl).
  - refine (proj1 (proj2 (Hother "Lions" "Packers" "" "american_football"
              eq_refl eq_refl eq_refl eq_refl eq_refl eq_refl _ eq_refl eq_refl))).
    intros [_ [[_ H]|[H _]]]; discriminate H.
Defined.

Lemma normalisers_write_statistics_only_witness :
  ∃ out',
    Agent.map_stats Exact.yards_entry Agent.empty = Some out' ∧
    out' !! "points" = Agent.empty !! "points".
Proof.
  eexists. split; [reflexivity|].
  refine (proj1 (proj1 (proj2 (proj2 normalisers_write_statistics_only))
                   Exact.yards_entry Agent.empty _ eq_refl "points") _).
  intros Hin. apply list_elem_of_In in Hin. simpl in Hin.
  repeat (destruct Hin as [Hin|Hin]; [discriminate Hin|]). exact Hin.
Defined.

Lemma merge_preserve_fills_gaps_witness :
  Agent.merge_preserve (B := Exact.builtins) Agent.empty
    (Py.PDict [("yards", Py.PInt 120)]) !! "yards"
  = Some (Py.PInt 120).
Proof.
  refine (proj1 (merge_preserve_fills_gaps Agent.empty [("yards", Py.PInt 120)] "yards"
                   (Py.PInt 120) _ eq_refl) _).
  - apply NoDup_singleton.
  - right. exists (Py.PInt 0). split; reflexivity.
Defined.

Lemma catalogue_assembled_from_pages_witness :
  (Highlightly.get_all_teams Exact.offset_key
     (Exact.paged [Py.PInt 1; Py.PInt 2; Py.PInt 3] 2) Highlightly.init Exact.world0
     (Z.of_nat 2) 5).1.1
  = Some (Py.PList [Py.PInt 1; Py.PInt 2; Py.PInt 3]).
Proof.
  destruct (catalogue_assembled_from_pages Exact.offset_key
              (Exact.paged [Py.PInt 1; Py.PInt 2; Py.PInt 3] 2)
              [Py.PInt 1; Py.PInt 2; Py.PInt 3] 2 5 Highlightly.init Exact.world0)
    as (c' & w' & n & Hget & _).
  - lia.
  - intros o1 o2 H. unfold Exact.offset_key in H. apply pretty_Z_inj in H. lia.
  - intros n o. unfold Exact.paged. by rewrite Nat2Z.id.
  - reflexivity.
  - reflexivity.
  - intros o. split; apply lookup_empty.
  - rewrite Hget. reflexivity.
Defined.

Lemma team_info_only_from_answers_witness :
  (Highlightly.get_nfl_team_info Exact.key
     (Exact.serving (Py.PDict [("data", Py.PList [Py.PDict [("id", Py.PInt 1)]])]))
     Highlightly.init Exact.world0 "Lions").1.1
  = Py.PDict [("id", Py.PInt 1)].
Proof.
  apply (proj1 (proj2 (team_info_only_from_answers Exact.key
    (Exact.serving (Py.PDict [("data", Py.PList [Py.PDict [("id", Py.PInt 1)]])]))
    Highlightly.init Exact.world0 "Lions"))
    [("data", Py.PList [Py.PDict [("id", Py.PInt 1)]])] (Py.PDict [("id", Py.PInt 1)]) []);
    reflexivity.
Defined.

Lemma abbreviation_lookup_normalises_witness :
  Agent._get_team_abbreviation "KANSAS CITY CHIEFS" = Some "KC"%string ∧
  Agent._get_team_abbreviation
    (String "031" (String "b" (String "i" (String "l" (String "l" (String "s"
       (String " " (String "009" EmptyString))))))))
  = Some "BUF"%string.
Proof.
  pose proof (abbreviation_lookup_normalises "kansas city chiefs" eq_refl)
    as (Hupper & _).
  pose proof (abbreviation_lookup_normalises "bills" eq_refl) as (_ & _ & Hspace & _).
  split; [exact Hupper|].
  exact (Hspace (String "031" EmptyString) (String " " (String "009" EmptyString))
           eq_refl eq_refl).
Defined.
